(** * AstroColdEmailGenerator: a shallow embedding and its verified properties

    The development follows the four Python modules of the repository:
    [app.py] (URL classification and the generation endpoint),
    [fetch_user_profile.py] and [fetch_company_profile.py] (the two data
    validators) and [generate_email.py] (retry with backoff, response
    extraction, the generation pipeline).

    Python text is a sequence of Unicode code points, so [str] is a list of
    code points; Python values that travel through JSON are the inductive
    type [pyval]; Python exceptions are the error side of the monad [res]. *)

From Stdlib Require Import List ZArith NArith Bool Lia String Ascii.
Import ListNotations.
Open Scope N_scope.

Set Implicit Arguments.

(* ================================================================== *)
(** * Text *)
(* ================================================================== *)

(** A code point, and Python's [str]. *)
Definition char := N.
Definition str := list char.

(** The text of a literal of the source. *)
Definition u (s : string) : str := map N_of_ascii (list_ascii_of_string s).

(** A literal in which the apostrophe stands for the double quote (code point
    34): JSON samples are written this way. *)
Definition j (s : string) : str :=
  map (fun c => if c =? 39 then 34 else c) (u s).

Fixpoint str_eqb (a b : str) : bool :=
  match a, b with
  | [], [] => true
  | x :: a', y :: b' => (x =? y) && str_eqb a' b'
  | _, _ => false
  end.

(** [str.isspace] for one code point: the white space of Python's Unicode
    database, which is also what [\s] matches in a [str] pattern. *)
Definition is_space (c : char) : bool :=
  ((9 <=? c) && (c <=? 13)) || ((28 <=? c) && (c <=? 32))
  || (c =? 133) || (c =? 160) || (c =? 5760)
  || ((8192 <=? c) && (c <=? 8202))
  || (c =? 8232) || (c =? 8233) || (c =? 8239) || (c =? 8287) || (c =? 12288).

(** [s.lstrip()], [s.rstrip()] and [s.strip()]. *)
Fixpoint lstrip (s : str) : str :=
  match s with
  | c :: s' => if is_space c then lstrip s' else s
  | [] => []
  end.

Definition rstrip (s : str) : str :=
  fold_right
    (fun c acc => match acc with
                  | [] => if is_space c then [] else [c]
                  | _ => c :: acc
                  end) [] s.

Definition strip (s : str) : str := rstrip (lstrip s).

(** [s.startswith(p)]. *)
Fixpoint startswith (p s : str) : bool :=
  match p, s with
  | [], _ => true
  | x :: p', y :: s' => (x =? y) && startswith p' s'
  | _ :: _, [] => false
  end.

(** [needle in s] for two strings. *)
Fixpoint contains (needle s : str) : bool :=
  startswith needle s ||
  match s with
  | [] => false
  | _ :: s' => contains needle s'
  end.

(** [s.find(c)] for a one-character [c]: the first index, or -1. *)
Fixpoint find (c : char) (s : str) : Z :=
  match s with
  | [] => (-1)%Z
  | x :: s' => if x =? c then 0%Z
               else let r := find c s' in
                    if (r =? -1)%Z then (-1)%Z else (r + 1)%Z
  end.

(** [s.rfind(c)]: the last index, or -1. *)
Fixpoint rfind (c : char) (s : str) : Z :=
  match s with
  | [] => (-1)%Z
  | x :: s' => let r := rfind c s' in
               if (r =? -1)%Z then (if x =? c then 0%Z else (-1)%Z)
               else (r + 1)%Z
  end.

(** [s[lo:hi]] for [0 <= lo]; the source slices only with [0 <= lo < hi]. *)
Definition slice (s : str) (lo hi : Z) : str :=
  firstn (Z.to_nat (hi - lo)) (skipn (Z.to_nat lo) s).

(** The braces that delimit a JSON object. *)
Definition lbrace : char := 123.
Definition rbrace : char := 125.

(** [len(s)]. *)
Definition len (s : str) : Z := Z.of_nat (List.length s).

(** The first occurrence of [needle] in [s]: the text before it and the text
    after it. *)
Fixpoint split_on (needle s : str) : option (str * str) :=
  if startswith needle s then Some ([], skipn (List.length needle) s)
  else match s with
       | [] => None
       | c :: s' => match split_on needle s' with
                    | Some (before, after) => Some (c :: before, after)
                    | None => None
                    end
       end.

(* ================================================================== *)
(** * Python values and exceptions *)
(* ================================================================== *)

(** The exceptions the modelled code raises, catches or lets through. *)
Inductive exn : Type :=
| JSONDecodeError
| TypeError
| AttributeError
| RuntimeError (msg : str)
| RateLimitError
| APIStatusError (status_code : Z)
| RecursionError
| ValueError
| OtherError (name : str).

(** A computation returns a value or raises. *)
Inductive res (A : Type) : Type :=
| Ret (a : A)
| Raise (e : exn).
Arguments Ret {A} a.
Arguments Raise {A} e.

Definition bind {A B} (m : res A) (k : A -> res B) : res B :=
  match m with
  | Ret a => k a
  | Raise e => Raise e
  end.

Notation "'let*' x ':=' m 'in' k" := (bind m (fun x => k))
  (at level 10, x pattern, m at level 100, k at level 200).

(** A float as [json.loads] reads it: the decimal literal
    [(-1)^negative * digits * 10^exp10], or one of the three constants.
    Python rounds the literal to the nearest double; the model keeps the
    literal, from which the only thing the program asks of a float (its truth
    value) is decided exactly. *)
Inductive pyfloat : Type :=
| FNaN
| FInfinity (negative : bool)
| FDecimal (negative : bool) (digits : N) (exp10 : Z).

(** The values [json.loads] produces, which are also the values the scraping
    client hands over: [None], booleans, integers, floats, strings, lists, and
    dicts with string keys in insertion order. *)
#[warnings="-register-all"]
Inductive pyval : Type :=
| PNone
| PBool (b : bool)
| PInt (z : Z)
| PFloat (f : pyfloat)
| PStr (s : str)
| PList (items : list pyval)
| PDict (entries : list (str * pyval)).

(** A decimal literal rounds to zero exactly when it is at most [2^-1075],
    half of the smallest subnormal double (the tie goes to the even 0). *)
Definition float_is_zero (f : pyfloat) : bool :=
  match f with
  | FDecimal _ m e =>
      (m =? 0) ||
      ((e <? 0)%Z && (Z.of_N m * 2 ^ 1075 <=? 10 ^ (- e))%Z)
  | _ => false
  end.

(** [bool(v)]. *)
Definition truthy (v : pyval) : bool :=
  match v with
  | PNone => false
  | PBool b => b
  | PInt z => negb (z =? 0)%Z
  | PFloat f => negb (float_is_zero f)
  | PStr s => match s with [] => false | _ => true end
  | PList l => match l with [] => false | _ => true end
  | PDict d => match d with [] => false | _ => true end
  end.

(** Dict lookup, and the update [d[k] = v]: an existing key keeps its place. *)
Fixpoint lookup (k : str) (d : list (str * pyval)) : option pyval :=
  match d with
  | [] => None
  | (k', v) :: d' => if str_eqb k k' then Some v else lookup k d'
  end.

Fixpoint dict_set (k : str) (v : pyval) (d : list (str * pyval))
  : list (str * pyval) :=
  match d with
  | [] => [(k, v)]
  | (k', v') :: d' => if str_eqb k k' then (k, v) :: d'
                      else (k', v') :: dict_set k v d'
  end.

(** [key in v] for a string [key]: substring of a string, element of a list,
    key of a dict; [None], booleans and numbers are not containers. *)
Definition py_in (key : str) (v : pyval) : res bool :=
  match v with
  | PStr s => Ret (contains key s)
  | PList l => Ret (existsb (fun x => match x with
                                      | PStr s => str_eqb key s
                                      | _ => false
                                      end) l)
  | PDict d => Ret (match lookup key d with Some _ => true | None => false end)
  | _ => Raise TypeError
  end.

(** [v.get(key, default)]: only a dict has the method. *)
Definition py_get (v : pyval) (key : str) (default : pyval) : res pyval :=
  match v with
  | PDict d => Ret (match lookup key d with Some x => x | None => default end)
  | _ => Raise AttributeError
  end.

(** [v[key]] for a string [key]: the value of a dict that has the key;
    strings and lists are indexed by integers only, and the other values
    cannot be indexed at all. *)
Definition py_getitem (v : pyval) (key : str) : res pyval :=
  match v with
  | PDict d => match lookup key d with
               | Some x => Ret x
               | None => Raise (OtherError (u "KeyError"))
               end
  | _ => Raise TypeError
  end.

(** [v.strip()]: only a string has the method. *)
Definition py_strip (v : pyval) : res str :=
  match v with
  | PStr s => Ret (strip s)
  | _ => Raise AttributeError
  end.

(** [len(v)]: strings, lists and dicts have a length. *)
Definition py_len (v : pyval) : res Z :=
  match v with
  | PStr s => Ret (len s)
  | PList l => Ret (Z.of_nat (List.length l))
  | PDict d => Ret (Z.of_nat (List.length d))
  | _ => Raise TypeError
  end.

(** [v[:n]]: strings and lists can be sliced. *)
Definition py_prefix (n : nat) (v : pyval) : res pyval :=
  match v with
  | PStr s => Ret (PStr (firstn n s))
  | PList l => Ret (PList (firstn n l))
  | _ => Raise TypeError
  end.

(** [sep.join(parts)] for a list of strings. *)
Fixpoint join (sep : str) (parts : list str) : str :=
  match parts with
  | [] => []
  | [p] => p
  | p :: rest => p ++ sep ++ join sep rest
  end.

(** The strings an iteration over [v] yields, when it yields only strings:
    the characters of a string, the elements of a list, the keys of a dict. *)
Definition py_iter_strs (v : pyval) : res (list str) :=
  match v with
  | PStr s => Ret (map (fun c => [c]) s)
  | PList l =>
      fold_right (fun x acc => match x, acc with
                               | PStr s, Ret ss => Ret (s :: ss)
                               | _, _ => Raise TypeError
                               end) (Ret []) l
  | PDict d => Ret (map fst d)
  | _ => Raise TypeError
  end.

(** [sep.join(v)]. *)
Definition py_join (sep : str) (v : pyval) : res str :=
  let* parts := py_iter_strs v in Ret (join sep parts).

(** What the model takes from the Python runtime without fixing it: the length
    of [str(v)] and the text of [json.dumps(v, ensure_ascii=False, indent=2)]
    (how floats and non-printable characters are written is the runtime's),
    the text [str(e)] of an exception, which code points above U+007F are
    alphanumeric in its Unicode database, and the two limits of the
    interpreter that the JSON decoder meets: how many containers deep it may
    go where the program calls it before [Py_EnterRecursiveCall] raises
    [RecursionError] (what is left of the recursion limit there), and
    [sys.get_int_max_str_digits()], the number of digits beyond which the
    conversion of an integer literal raises [ValueError] (4300 by default,
    0 when there is no limit). *)
Class Runtime : Type := {
  str_len : pyval -> Z;
  json_dumps : pyval -> str;
  exn_text : exn -> str;
  unicode_isalnum : char -> bool;
  json_max_depth : nat;
  int_max_str_digits : N
}.

(* ================================================================== *)
(** * [json.loads] *)
(* ================================================================== *)

(** The decoder of Python's [json] module with its default settings (strict
    strings, [NaN] and [Infinity] accepted), as its scanner reads a [str].
    A text that is not JSON is a [JSONDecodeError]; the scanner also raises
    [RecursionError] when it enters a container beyond the depth the
    interpreter allows, and [ValueError] when it converts an integer literal
    with more digits than the interpreter allows, each at the place in the
    text where the scanner is, so before an error further on. *)

Definition json_ws (c : char) : bool :=
  (c =? 32) || (c =? 9) || (c =? 10) || (c =? 13).

Fixpoint skip_ws (s : str) : str :=
  match s with
  | c :: s' => if json_ws c then skip_ws s' else s
  | [] => []
  end.

Definition is_digit (c : char) : bool := (48 <=? c) && (c <=? 57).

Definition hex_value (c : char) : option N :=
  if is_digit c then Some (c - 48)
  else if (97 <=? c) && (c <=? 102) then Some (c - 87)
  else if (65 <=? c) && (c <=? 70) then Some (c - 55)
  else None.

Definition hex4 (a b c d : char) : option N :=
  match hex_value a, hex_value b, hex_value c, hex_value d with
  | Some x, Some y, Some z, Some w => Some (((x * 16 + y) * 16 + z) * 16 + w)
  | _, _, _, _ => None
  end.

Definition is_high_surrogate (c : N) : bool := (55296 <=? c) && (c <=? 56319).
Definition is_low_surrogate (c : N) : bool := (56320 <=? c) && (c <=? 57343).
Definition join_surrogates (hi lo : N) : N :=
  65536 + ((hi - 55296) * 1024 + (lo - 56320)).

(** The character a one-letter escape stands for. *)
Definition unescape (e : char) : option char :=
  if (e =? 34) || (e =? 92) || (e =? 47) then Some e
  else if e =? 98 then Some 8
  else if e =? 102 then Some 12
  else if e =? 110 then Some 10
  else if e =? 114 then Some 13
  else if e =? 116 then Some 9
  else None.

Definition cons_chunk (c : char) (r : option (str * str)) : option (str * str) :=
  match r with
  | Some (body, rest) => Some (c :: body, rest)
  | None => None
  end.

(** The scanner of a string, entered after the opening quote: the decoded
    text and what follows the closing quote. *)
Fixpoint scanstring (s : str) : option (str * str) :=
  match s with
  | [] => None
  | c :: s1 =>
      if c =? 34 then Some ([], s1)
      else if c =? 92 then
        match s1 with
        | [] => None
        | e :: s2 =>
            if e =? 117 then
              match s2 with
              | h1 :: h2 :: h3 :: h4 :: s3 =>
                  match hex4 h1 h2 h3 h4 with
                  | None => None
                  | Some cp =>
                      match s3 with
                      | b :: v :: g1 :: g2 :: g3 :: g4 :: s4 =>
                          if is_high_surrogate cp && (b =? 92) && (v =? 117) then
                            match hex4 g1 g2 g3 g4 with
                            | None => None
                            | Some cp2 =>
                                if is_low_surrogate cp2
                                then cons_chunk (join_surrogates cp cp2) (scanstring s4)
                                else cons_chunk cp (scanstring s3)
                            end
                          else cons_chunk cp (scanstring s3)
                      | _ => cons_chunk cp (scanstring s3)
                      end
                  end
              | _ => None
              end
            else
              match unescape e with
              | Some c' => cons_chunk c' (scanstring s2)
              | None => None
              end
        end
      else if c <=? 31 then None
      else cons_chunk c (scanstring s1)
  end.

(** The longest run of decimal digits at the head of [s], and the rest. *)
Fixpoint take_digits (s : str) : str * str :=
  match s with
  | c :: s' => if is_digit c
               then let (ds, rest) := take_digits s' in (c :: ds, rest)
               else ([], s)
  | [] => ([], [])
  end.

Definition digits_value (ds : str) : N :=
  fold_left (fun acc d => acc * 10 + (d - 48)) ds 0.

(** The integer part: a single 0, or a non-zero digit and more digits. *)
Definition scan_int_part (s : str) : option (str * str) :=
  match s with
  | d :: s' => if d =? 48 then Some ([d], s')
               else if is_digit d then Some (take_digits s)
               else None
  | [] => None
  end.

(** The fraction, when a dot and a digit follow. *)
Definition scan_fraction (s : str) : option (str * str) :=
  match s with
  | dot :: d :: _ => if (dot =? 46) && is_digit d
                     then Some (take_digits (tl s))
                     else None
  | _ => None
  end.

(** The exponent, when [e] or [E], an optional sign and a digit follow. *)
Definition scan_exponent (s : str) : option (Z * str) :=
  match s with
  | e :: s1 =>
      if (e =? 101) || (e =? 69) then
        let (negative, s2) :=
          match s1 with
          | sg :: s1' => if sg =? 45 then (true, s1')
                         else if sg =? 43 then (false, s1')
                         else (false, s1)
          | [] => (false, s1)
          end in
        match take_digits s2 with
        | ([], _) => None
        | (ds, rest) =>
            let n := Z.of_N (digits_value ds) in
            Some (if negative then (- n)%Z else n, rest)
        end
      else None
  | [] => None
  end.

(** A number.  A literal without fraction and exponent is converted by
    [int], which counts its digits against the limit; the others are
    converted by [float], which has none. *)
Definition scan_number `{Runtime} (s : str) : res (pyval * str) :=
  let (negative, s1) :=
    match s with
    | c :: s' => if c =? 45 then (true, s') else (false, s)
    | [] => (false, s)
    end in
  match scan_int_part s1 with
  | None => Raise JSONDecodeError
  | Some (ints, s2) =>
      let (frac, s3) :=
        match scan_fraction s2 with
        | Some (ds, r) => (Some ds, r)
        | None => (None, s2)
        end in
      let (expo, s4) :=
        match scan_exponent s3 with
        | Some (e, r) => (Some e, r)
        | None => (None, s3)
        end in
      match frac, expo with
      | None, None =>
          if (0 <? int_max_str_digits)
             && (int_max_str_digits <? N.of_nat (List.length ints))
          then Raise ValueError
          else
            let n := Z.of_N (digits_value ints) in
            Ret (PInt (if negative then (- n)%Z else n), s4)
      | _, _ =>
          let fd := match frac with Some ds => ds | None => [] end in
          let e := match expo with Some e => e | None => 0%Z end in
          Ret (PFloat (FDecimal negative (digits_value (ints ++ fd))
                                (e - Z.of_nat (List.length fd))), s4)
      end
  end.

(** One JSON value at the head of [s] ([scan_once]), the members of an object
    after its opening brace, and the elements of an array after its opening
    bracket.  [depth] is the number of containers the scanner may still
    enter: the check comes first when a brace or a bracket is met, before
    the container is looked at.  A call consumes a character before it
    recurses, except that the first element of an array is scanned where the
    bracket left off, so a fuel of more than twice the length of the text is
    never exhausted. *)
Fixpoint scan_once `{Runtime} (fuel depth : nat) (s : str) {struct fuel}
  : res (pyval * str) :=
  match fuel with
  | O => Raise JSONDecodeError
  | S fuel' =>
      match s with
      | [] => Raise JSONDecodeError
      | c :: s1 =>
          if c =? 34 then
            match scanstring s1 with
            | Some (body, rest) => Ret (PStr body, rest)
            | None => Raise JSONDecodeError
            end
          else if c =? 123 then
            match depth with
            | O => Raise RecursionError
            | S depth' =>
                match skip_ws s1 with
                | c' :: s2 => if c' =? 125 then Ret (PDict [], s2)
                              else parse_members fuel' depth' (skip_ws s1) []
                | [] => Raise JSONDecodeError
                end
            end
          else if c =? 91 then
            match depth with
            | O => Raise RecursionError
            | S depth' =>
                match skip_ws s1 with
                | c' :: s2 => if c' =? 93 then Ret (PList [], s2)
                              else parse_elements fuel' depth' (skip_ws s1) []
                | [] => Raise JSONDecodeError
                end
            end
          else if startswith (u "null") s then Ret (PNone, skipn 4 s)
          else if startswith (u "true") s then Ret (PBool true, skipn 4 s)
          else if startswith (u "false") s then Ret (PBool false, skipn 5 s)
          else if startswith (u "NaN") s then Ret (PFloat FNaN, skipn 3 s)
          else if startswith (u "Infinity") s
               then Ret (PFloat (FInfinity false), skipn 8 s)
          else if startswith (u "-Infinity") s
               then Ret (PFloat (FInfinity true), skipn 9 s)
          else scan_number s
      end
  end

with parse_members `{Runtime} (fuel depth : nat) (s : str)
       (acc : list (str * pyval)) {struct fuel} : res (pyval * str) :=
  match fuel with
  | O => Raise JSONDecodeError
  | S fuel' =>
      match s with
      | q :: s1 =>
          if q =? 34 then
            match scanstring s1 with
            | Some (key, s2) =>
                match skip_ws s2 with
                | colon :: s3 =>
                    if colon =? 58 then
                      match scan_once fuel' depth (skip_ws s3) with
                      | Ret (v, s4) =>
                          let acc' := dict_set key v acc in
                          match skip_ws s4 with
                          | d :: s5 =>
                              if d =? 125 then Ret (PDict acc', s5)
                              else if d =? 44
                                   then parse_members fuel' depth (skip_ws s5) acc'
                                   else Raise JSONDecodeError
                          | [] => Raise JSONDecodeError
                          end
                      | Raise e => Raise e
                      end
                    else Raise JSONDecodeError
                | [] => Raise JSONDecodeError
                end
            | None => Raise JSONDecodeError
            end
          else Raise JSONDecodeError
      | [] => Raise JSONDecodeError
      end
  end

with parse_elements `{Runtime} (fuel depth : nat) (s : str) (acc : list pyval)
       {struct fuel} : res (pyval * str) :=
  match fuel with
  | O => Raise JSONDecodeError
  | S fuel' =>
      match scan_once fuel' depth s with
      | Ret (v, s1) =>
          let acc' := acc ++ [v] in
          match skip_ws s1 with
          | d :: s2 =>
              if d =? 93 then Ret (PList acc', s2)
              else if d =? 44 then parse_elements fuel' depth (skip_ws s2) acc'
              else Raise JSONDecodeError
          | [] => Raise JSONDecodeError
          end
      | Raise e => Raise e
      end
  end.

(** [json.loads(s)] for a [str]: a byte-order mark is refused, white space
    around the one value is skipped, anything after it is an error. *)
Definition json_loads `{Runtime} (s : str) : res pyval :=
  if startswith [65279] s then Raise JSONDecodeError
  else
    match scan_once (S (2 * List.length s)) json_max_depth (skip_ws s) with
    | Ret (v, rest) =>
        match skip_ws rest with
        | [] => Ret v
        | _ :: _ => Raise JSONDecodeError
        end
    | Raise e => Raise e
    end.

(* ================================================================== *)
(** * Regular expressions *)
(* ================================================================== *)

(** The constructs the patterns of the source are made of.  [Class p] is a
    character set or a class such as [\w]. *)
Inductive regex : Type :=
| Void
| Eps
| Chr (c : char)
| Class (p : char -> bool)
| Seq (r1 r2 : regex)
| Alt (r1 r2 : regex)
| Star (r : regex).

(** [r?], [r+] and a literal run of characters. *)
Definition opt (r : regex) : regex := Alt r Eps.
Definition plus (r : regex) : regex := Seq r (Star r).
Fixpoint lit (s : str) : regex :=
  match s with
  | [] => Eps
  | c :: s' => Seq (Chr c) (lit s')
  end.

Declare Scope regex_scope.
Delimit Scope regex_scope with re.
Infix "++" := Seq (right associativity, at level 60) : regex_scope.

(** Matching by derivatives. *)
Fixpoint nullable (r : regex) : bool :=
  match r with
  | Void => false
  | Eps => true
  | Chr _ => false
  | Class _ => false
  | Seq a b => nullable a && nullable b
  | Alt a b => nullable a || nullable b
  | Star _ => true
  end.

Fixpoint deriv (c : char) (r : regex) : regex :=
  match r with
  | Void => Void
  | Eps => Void
  | Chr d => if c =? d then Eps else Void
  | Class p => if p c then Eps else Void
  | Seq a b => if nullable a
               then Alt (Seq (deriv c a) b) (deriv c b)
               else Seq (deriv c a) b
  | Alt a b => Alt (deriv c a) (deriv c b)
  | Star a => Seq (deriv c a) (Star a)
  end.

(** The whole of [s] is a word of [r]. *)
Fixpoint fullmatch (r : regex) (s : str) : bool :=
  match s with
  | [] => nullable r
  | c :: s' => fullmatch (deriv c r) s'
  end.

(** [s] without a final line feed, when it has one. *)
Fixpoint chop_newline (s : str) : option str :=
  match s with
  | [] => None
  | [c] => if c =? 10 then Some [] else None
  | c :: s' => match chop_newline s' with
               | Some t => Some (c :: t)
               | None => None
               end
  end.

(** [re.match(r'^body$', s)] finds a match: without the MULTILINE flag [^]
    is the start of the text and [$] is its end or the place before a line
    feed that ends it. *)
Definition re_match (body : regex) (s : str) : bool :=
  fullmatch body s ||
  match chop_newline s with
  | Some t => fullmatch body t
  | None => false
  end.

(** The language of a pattern, as a relation: what [fullmatch] decides. *)
Inductive matches : regex -> str -> Prop :=
| MEps : matches Eps []
| MChr c : matches (Chr c) [c]
| MClass (p : char -> bool) c : p c = true -> matches (Class p) [c]
| MSeq a b s t : matches a s -> matches b t -> matches (Seq a b) (s ++ t)
| MAltL a b s : matches a s -> matches (Alt a b) s
| MAltR a b s : matches b s -> matches (Alt a b) s
| MStarNil a : matches (Star a) []
| MStarCons a s t : matches a s -> matches (Star a) t ->
                    matches (Star a) (s ++ t).

(** [\w] in a [str] pattern: alphanumeric or the underscore. *)
Definition ascii_isalnum (c : char) : bool :=
  is_digit c || ((65 <=? c) && (c <=? 90)) || ((97 <=? c) && (c <=? 122)).

Definition is_word `{Runtime} (c : char) : bool :=
  (if c <? 128 then ascii_isalnum c else unicode_isalnum c) || (c =? 95).

(** The set [[\w\-]]. *)
Definition word_or_hyphen `{Runtime} (c : char) : bool :=
  is_word c || (c =? 45).

(** [re.findall(r'```(?:json)?\s*([\s\S]*?)```', text)]: the groups of the
    successive matches.  A match opens at the first fence; [json] is taken
    when it is there and the white space after it is skipped, both greedily;
    the lazy group then runs to the next fence.  Giving back [json] or white
    space cannot reach a fence that the greedy choice misses (neither holds a
    backquote), so when no fence closes the block the scan is over.  Each
    match uses up at least six characters. *)
Definition fence : str := u "```".

Definition skip_json (s : str) : str :=
  if startswith (u "json") s then skipn 4 s else s.

Fixpoint findall_code_blocks_from (fuel : nat) (text : str) : list str :=
  match fuel with
  | O => []
  | S fuel' =>
      match split_on fence text with
      | None => []
      | Some (_, opened) =>
          match split_on fence (lstrip (skip_json opened)) with
          | None => []
          | Some (group, rest) => group :: findall_code_blocks_from fuel' rest
          end
      end
  end.

Definition findall_code_blocks (text : str) : list str :=
  findall_code_blocks_from (List.length text) text.

(* ================================================================== *)
(** * app.py: URL classification *)
(* ================================================================== *)

Inductive url_type : Type := User | Company.

Section Classifier.
Context `{Runtime}.
Local Open Scope regex_scope.

(** [^https?://(www\.)?linkedin\.com/in/[\w\-]+/?$] *)
Definition user_pattern : regex :=
  lit (u "http") ++ opt (Chr 115) ++ lit (u "://") ++ opt (lit (u "www."))
  ++ lit (u "linkedin.com/in/") ++ plus (Class word_or_hyphen)
  ++ opt (Chr 47).

(** [^https?://(www\.)?linkedin\.com/company/[\w\-]+/?$] *)
Definition company_pattern : regex :=
  lit (u "http") ++ opt (Chr 115) ++ lit (u "://") ++ opt (lit (u "www."))
  ++ lit (u "linkedin.com/company/") ++ plus (Class word_or_hyphen)
  ++ opt (Chr 47).

(** [detect_url_type(url)]: ['user'], ['company'] or [None]. *)
Definition detect_url_type (url : str) : option url_type :=
  match url with
  | [] => None
  | _ :: _ =>
      let url := strip url in
      if re_match user_pattern url then Some User
      else if re_match company_pattern url then Some Company
      else None
  end.
End Classifier.

(* ================================================================== *)
(** * fetch_user_profile.py and fetch_company_profile.py: the validators *)
(* ================================================================== *)

(** The messages of the validators. *)
Definition msg_no_profile := u "No profile data received".
Definition msg_no_profile_in_array := u "No profile data in array".
Definition msg_profile_paid_plan :=
  u "Unable to fetch profile. This feature requires a paid Apify subscription. Please upgrade your Apify plan or use the Apify UI directly.".
Definition msg_profile_missing_name :=
  u "Profile data is incomplete. Missing name information. The profile may be private or restricted.".
Definition msg_profile_missing_headline :=
  u "Profile data is incomplete. Missing headline information. The profile may be private or restricted.".
Definition msg_profile_minimal :=
  u "Profile data appears incomplete. The profile may be private or have limited information.".
Definition msg_no_company := u "No company data received".
Definition msg_no_company_in_array := u "No company data in array".
Definition msg_company_paid_plan :=
  u "Unable to fetch company. This feature requires a paid Apify subscription.".
Definition msg_company_missing_name :=
  u "Company data is incomplete. Missing company name.".
Definition msg_company_minimal := u "Company data appears incomplete.".

(** The array format: the first element stands for the list; an empty list
    has none. *)
Definition unwrap_first (data : pyval) : option pyval :=
  match data with
  | PList [] => None
  | PList (first :: _) => Some first
  | _ => Some data
  end.

(** [data[0]] when [data] is a list, [data] otherwise. *)
Definition first_of (data : pyval) : res pyval :=
  match unwrap_first data with
  | Some first => Ret first
  | None => Raise (OtherError (u "IndexError"))
  end.

Section Validators.
Context `{Runtime}.

(** [validate_profile_data(profile_data)]: the pair
    [(is_valid, error_message)]. *)
Definition validate_profile_data (profile_data : pyval) : res (bool * pyval) :=
  if negb (truthy profile_data) then Ret (false, PStr msg_no_profile)
  else
    match unwrap_first profile_data with
    | None => Ret (false, PStr msg_no_profile_in_array)
    | Some profile_data =>
        let* has_error := py_in (u "error") profile_data in
        if has_error then
          let* error_msg :=
            py_get profile_data (u "error") (PStr (u "Unknown error")) in
          let* plan := py_in (u "free Apify plan") error_msg in
          if plan then Ret (false, PStr msg_profile_paid_plan)
          else Ret (false, error_msg)
        else
          let* nested := py_in (u "basic_info") profile_data in
          let* (fullname, headline) :=
            if nested then
              let* basic_info :=
                py_get profile_data (u "basic_info") (PDict []) in
              let* a := py_get basic_info (u "fullname") PNone in
              let* fullname :=
                if truthy a then Ret a
                else py_get basic_info (u "first_name") PNone in
              let* headline := py_get basic_info (u "headline") PNone in
              Ret (fullname, headline)
            else
              let* a := py_get profile_data (u "fullName") PNone in
              let* fullname :=
                if truthy a then Ret a
                else py_get profile_data (u "firstName") PNone in
              let* headline := py_get profile_data (u "headline") PNone in
              Ret (fullname, headline)
          in
          if negb (truthy fullname)
          then Ret (false, PStr msg_profile_missing_name)
          else if negb (truthy headline)
          then Ret (false, PStr msg_profile_missing_headline)
          else if (str_len profile_data <? 100)%Z
          then Ret (false, PStr msg_profile_minimal)
          else Ret (true, PNone)
    end.

(** [validate_company_data(company_data)]. *)
Definition validate_company_data (company_data : pyval) : res (bool * pyval) :=
  if negb (truthy company_data) then Ret (false, PStr msg_no_company)
  else
    match unwrap_first company_data with
    | None => Ret (false, PStr msg_no_company_in_array)
    | Some company_data =>
        let* has_error := py_in (u "error") company_data in
        if has_error then
          let* error_msg :=
            py_get company_data (u "error") (PStr (u "Unknown error")) in
          let* plan := py_in (u "free Apify plan") error_msg in
          if plan then Ret (false, PStr msg_company_paid_plan)
          else Ret (false, error_msg)
        else
          let* nested := py_in (u "basic_info") company_data in
          let* (company_name, description) :=
            if nested then
              let* basic_info :=
                py_get company_data (u "basic_info") (PDict []) in
              let* company_name := py_get basic_info (u "name") PNone in
              let* description := py_get basic_info (u "description") PNone in
              Ret (company_name, description)
            else Ret (PNone, PNone)
          in
          if negb (truthy company_name)
          then Ret (false, PStr msg_company_missing_name)
          else if (str_len company_data <? 100)%Z
          then Ret (false, PStr msg_company_minimal)
          else Ret (true, PNone)
    end.
End Validators.

(* ================================================================== *)
(** * generate_email.py *)
(* ================================================================== *)

(** ** The text-generation service and the world around the program *)

(** The keyword arguments of [client.responses.create]. *)
Record request : Type := {
  req_model : str;
  req_reasoning_effort : str;
  req_input : str;
  req_max_output_tokens : Z
}.

(** What the program reads of a response object: [output_text] ([None] when
    the attribute is missing or [None]), the [output] items with the text of
    their content parts, the token counts of [usage] (the attribute can be
    missing, or be [None]) and the JSON dump of the whole object. *)
Record content_part : Type := { part_text : option str }.
Record output_item : Type := { item_content : option (list content_part) }.
Inductive usage_attr : Type :=
| NoUsageAttr
| UsageNone
| Usage (input_tokens output_tokens : Z).
Record response : Type := {
  output_text : option str;
  output : option (list output_item);
  usage : usage_attr;
  model_dump_json : str
}.

(** The outside world: the state that files, network calls and the clock act
    on, and the operations the program performs on it.  [read_api_key],
    [read_prompt_template] and [load_json_file] read (the environment and
    files); [load_json_file] is [json.load] on an opened file, [None] when
    opening or decoding raises; [save_json_file] is [os.makedirs] and
    [json.dump]; the two fetches are the scraping wrappers, which return
    [(success, path, data)] and catch their own failures;
    [email_result_path] is [email_result.json] in the working directory. *)
Class Env : Type := {
  world : Type;
  time_sleep : Z -> world -> world;
  read_api_key : world -> option str;
  read_prompt_template : str -> world -> option str;
  load_json_file : str -> world -> option pyval;
  responses_create : request -> world -> res response * world;
  save_json_file : str -> pyval -> world -> res unit * world;
  clear_work_directory : world -> res unit * world;
  fetch_linkedin_profile : str -> world -> (bool * str * pyval) * world;
  fetch_linkedin_company : str -> world -> (bool * str * pyval) * world;
  email_result_path : str
}.

(** What a run of [with_backoff] does, in order: calls of the wrapped
    function and sleeps, in seconds. *)
Inductive event : Type :=
| Called
| Slept (seconds : Z).

(** The statuses that are retried. *)
Definition retryable_status (status : Z) : bool :=
  ((status =? 429) || (status =? 500) || (status =? 502)
   || (status =? 503) || (status =? 504))%Z.

Definition msg_retries_exceeded : str := u "[ERROR] Exceeded retry attempts".

Section Backoff.
Context `{Env}.
Variable A : Type.
Variable fn : world -> res A * world.

(** The iterations [i, i+1, ...] of the loop, [remaining] of them, and the
    [raise] after the loop.  [base] is the float 2.0 in the source; the
    powers of an integral base with the exponents of the loop are exact, so
    the delay is a whole number of seconds.  [time.sleep] refuses a
    negative delay with [ValueError], and a power can leave the range of
    the floats: the loop is embedded for delays that are neither, as those
    of the defaults are (1 to 32 seconds), the only ones the source
    uses. *)
Fixpoint backoff_loop (base : Z) (remaining : nat) (i : Z) (w : world)
  : res A * world * list event :=
  match remaining with
  | O => (Raise (RuntimeError msg_retries_exceeded), w, [])
  | S remaining' =>
      let (r, w1) := fn w in
      let retry (_ : unit) :=
        let sleep := (base ^ i)%Z in
        let '(r', w2, tr) :=
          backoff_loop base remaining' (i + 1)%Z (time_sleep sleep w1) in
        (r', w2, Called :: Slept sleep :: tr) in
      match r with
      | Ret a => (Ret a, w1, [Called])
      | Raise RateLimitError => retry tt
      | Raise (APIStatusError status) =>
          if retryable_status status then retry tt
          else (Raise (APIStatusError status), w1, [Called])
      | Raise e => (Raise e, w1, [Called])
      end
  end.

(** [with_backoff(fn, max_retries, base)]. *)
Definition with_backoff (max_retries : nat) (base : Z) (w : world)
  : res A * world * list event :=
  backoff_loop base max_retries 0%Z w.
End Backoff.

(** The defaults of [with_backoff]. *)
Definition default_max_retries : nat := 6.
Definition default_base : Z := 2%Z.

(** ** Reading the response *)

(** The texts of the content parts of the output items, in order. *)
Definition output_chunks (items : list output_item) : list str :=
  flat_map (fun item =>
              match item_content item with
              | Some ((_ :: _) as parts) =>
                  flat_map (fun c => match part_text c with
                                     | Some ((_ :: _) as t) => [t]
                                     | _ => []
                                     end) parts
              | _ => []
              end) items.

(** [extract_output_text(resp)]. *)
Definition extract_output_text (resp : response) : str :=
  match output_text resp with
  | Some ((_ :: _) as txt) => txt
  | _ =>
      match output_chunks (match output resp with Some l => l | None => [] end) with
      | (_ :: _) as chunks => join [10] chunks
      | [] => model_dump_json resp
      end
  end.

(** [try: return json.loads(s) / except json.JSONDecodeError: otherwise]:
    only the decoding error is caught. *)
Definition try_loads `{Runtime} (s : str) (otherwise : res pyval) : res pyval :=
  match json_loads s with
  | Raise JSONDecodeError => otherwise
  | r => r
  end.

(** The result that stands for a failed extraction. *)
Definition parse_failure (text : str) : pyval :=
  PDict [(u "_parse_error", PStr (u "Could not extract JSON"));
         (u "_raw", PStr text)].

(** The loop over the fenced blocks. *)
Fixpoint try_blocks `{Runtime} (blocks : list str) (otherwise : res pyval)
  : res pyval :=
  match blocks with
  | [] => otherwise
  | block :: rest => try_loads (strip block) (try_blocks rest otherwise)
  end.

(** [extract_json_from_response(text)]. *)
Definition extract_json_from_response `{Runtime} (text : str) : res pyval :=
  try_blocks (findall_code_blocks text)
    (try_loads text
       (let start := find lbrace text in
        let stop := (rfind rbrace text + 1)%Z in
        if negb (start =? -1)%Z && (stop >? start)%Z
        then try_loads (slice text start stop) (Ret (parse_failure text))
        else Ret (parse_failure text))).

(** ** The generation call and the pipeline *)

Definition MODEL : str := u "o4-mini".
Definition MAX_OUTPUT_TOKENS : Z := 4000%Z.

Section Pipeline.
Context `{Runtime} `{Env}.

(** The instructions, a blank line, and the block with the product and the
    dumped data. *)
Definition full_input (prompt_text : str) (profile_data : pyval)
    (product_description : str) : str :=
  prompt_text ++ [10; 10]
  ++ u "Product/Service being pitched:" ++ [10]
  ++ product_description ++ [10; 10]
  ++ u "LinkedIn Data JSON:" ++ [10]
  ++ json_dumps profile_data.

(** [generate_cold_email(client, model, prompt_text, profile_data,
    product_description, max_output_tokens)].  Formatting the token counts
    raises when [usage] is there and is [None]. *)
Definition generate_cold_email (model prompt_text : str) (profile_data : pyval)
    (product_description : str) (max_output_tokens : Z) (w : world)
  : res pyval * world :=
  let do_call :=
    responses_create
      {| req_model := model;
         req_reasoning_effort := u "medium";
         req_input := full_input prompt_text profile_data product_description;
         req_max_output_tokens := max_output_tokens |} in
  let '(r, w1, _) := with_backoff do_call default_max_retries default_base w in
  match r with
  | Raise e => (Raise e, w1)
  | Ret resp =>
      let txt := extract_output_text resp in
      match usage resp with
      | UsageNone => (Raise AttributeError, w1)
      | _ => (extract_json_from_response txt, w1)
      end
  end.

(** The lines that print the name and the headline: nothing of them reaches
    the result, but they raise on data of the wrong type. *)
Definition display_profile (profile_type : str) (profile_data : pyval)
  : res unit :=
  let* headline :=
    if str_eqb profile_type (u "company") then
      let* basic_info := py_get profile_data (u "basic_info") (PDict []) in
      let* _ := py_get basic_info (u "name") (PStr (u "Unknown Company")) in
      let* industries := py_get basic_info (u "industries") (PList []) in
      if truthy industries
      then let* joined := py_join (u ", ") industries in Ret (PStr joined)
      else Ret (PStr (u "N/A"))
    else
      let* nested := py_in (u "basic_info") profile_data in
      if nested then
        let* basic_info := py_get profile_data (u "basic_info") (PDict []) in
        let* _ := py_get basic_info (u "fullname") (PStr (u "Unknown")) in
        py_get basic_info (u "headline") (PStr (u "N/A"))
      else
        let* _ := py_get profile_data (u "fullName") (PStr (u "Unknown")) in
        py_get profile_data (u "headline") (PStr (u "N/A"))
  in
  let* n := py_len headline in
  if (n >? 50)%Z then let* _ := py_prefix 50 headline in Ret tt
  else Ret tt.

(** The check for parse errors: the marker is printed, and the raw text,
    when there is some, becomes the email. *)
Definition parse_error_fallback (result : pyval) : res pyval :=
  let* marked := py_in (u "_parse_error") result in
  if marked then
    let* _ := py_getitem result (u "_parse_error") in
    let* raw := py_get result (u "_raw") (PStr []) in
    if truthy raw then Ret (PDict [(u "email", raw)]) else Ret result
  else Ret result.

(** [run_email_generation(profile_json_path, product_description,
    profile_type, output_path)]: the result, or [None] on failure. *)
Definition run_email_generation (profile_json_path product_description
    profile_type : str) (output_path : option str) (w : world)
  : res (option pyval) * world :=
  match read_api_key w with
  | None | Some [] => (Ret None, w)
  | Some (_ :: _) =>
      let prompt_file := if str_eqb profile_type (u "user")
                         then u "prompt1.md" else u "prompt2.md" in
      match read_prompt_template prompt_file w with
      | None | Some [] => (Ret None, w)
      | Some ((_ :: _) as prompt_text) =>
          match load_json_file profile_json_path w with
          | None => (Ret None, w)
          | Some loaded =>
              match unwrap_first loaded with
              | None => (Ret None, w)
              | Some profile_data =>
                  match display_profile profile_type profile_data with
                  | Raise e => (Raise e, w)
                  | Ret _ =>
                      let (r, w1) :=
                        generate_cold_email MODEL prompt_text profile_data
                          product_description MAX_OUTPUT_TOKENS w in
                      match bind r parse_error_fallback with
                      | Raise e => (Raise e, w1)
                      | Ret result =>
                          let (saved, w2) :=
                            match output_path with
                            | Some ((_ :: _) as path) =>
                                save_json_file path result w1
                            | _ => (Ret tt, w1)
                            end in
                          match saved with
                          | Raise e => (Raise e, w2)
                          | Ret _ =>
                              match (let* has_email :=
                                       py_in (u "email") result in
                                     if has_email
                                     then py_getitem result (u "email")
                                     else Ret PNone) with
                              | Raise e => (Raise e, w2)
                              | Ret _ => (Ret (Some result), w2)
                              end
                          end
                      end
                  end
              end
          end
      end
  end.
End Pipeline.

(* ================================================================== *)
(** * app.py: the generation endpoint *)
(* ================================================================== *)

(** A JSON response and its status. *)
Record http_response : Type := { status : Z; body : pyval }.

Definition failure_body (error : pyval) (step : str) : pyval :=
  PDict [(u "success", PBool false); (u "error", error); (u "step", PStr step)].

Definition url_type_name (t : url_type) : str :=
  match t with User => u "user" | Company => u "company" end.

Section Endpoint.
Context `{Runtime} `{Env}.

(** The name and the headline shown with a generated email. *)
Definition profile_summary (t : url_type) (profile_data : pyval)
  : res (pyval * pyval) :=
  match t with
  | User =>
      let* nested := py_in (u "basic_info") profile_data in
      if nested then
        let* basic_info := py_get profile_data (u "basic_info") (PDict []) in
        let* full_name := py_get basic_info (u "fullname") (PStr (u "Unknown")) in
        let* headline := py_get basic_info (u "headline") (PStr []) in
        Ret (full_name, headline)
      else
        let* full_name := py_get profile_data (u "fullName") (PStr (u "Unknown")) in
        let* headline := py_get profile_data (u "headline") (PStr []) in
        Ret (full_name, headline)
  | Company =>
      let* basic_info := py_get profile_data (u "basic_info") (PDict []) in
      let* full_name :=
        py_get basic_info (u "name") (PStr (u "Unknown Company")) in
      let* industries := py_get basic_info (u "industries") (PList []) in
      let* headline :=
        if truthy industries
        then let* joined := py_join (u ", ") industries in Ret (PStr joined)
        else let* d := py_get basic_info (u "description") (PStr []) in
             py_prefix 100 d in
      Ret (full_name, headline)
  end.

(** The body of the [try] block of [generate_email]: what it returns, or
    the exception that reaches the [except] clause. *)
Definition generate_email_try (url : str) (t : url_type)
    (product_description : str) (w : world) : res http_response * world :=
  let (cleared, w1) := clear_work_directory w in
  match cleared with
  | Raise e => (Raise e, w1)
  | Ret _ =>
      let '((success, profile_path, fetched), w2) :=
        match t with
        | User => fetch_linkedin_profile url w1
        | Company => fetch_linkedin_company url w1
        end in
      if negb success then
        (Ret {| status := 500;
                body := failure_body
                  (PStr (match t with
                         | User => u "Failed to fetch LinkedIn profile. Please check the URL and try again."
                         | Company => u "Failed to fetch company data. Please check the URL and try again."
                         end)) (u "fetch") |}, w2)
      else
        match (match t with
               | User => validate_profile_data fetched
               | Company => validate_company_data fetched
               end) with
        | Raise e => (Raise e, w2)
        | Ret (false, validation_error) =>
            (Ret {| status := 400;
                    body := PDict [(u "success", PBool false);
                                   (u "error", validation_error);
                                   (u "step", PStr (u "validation"));
                                   (u "details", PStr (match t with
                                      | User => u "Profile data could not be retrieved properly. Please ensure the profile is public."
                                      | Company => u "Company data could not be retrieved properly."
                                      end))] |}, w2)
        | Ret (true, _) =>
            match (let* profile_data := first_of fetched in
                   profile_summary t profile_data) with
            | Raise e => (Raise e, w2)
            | Ret (full_name, headline) =>
                let (generated, w3) :=
                  run_email_generation profile_path product_description
                    (url_type_name t) (Some email_result_path) w2 in
                match generated with
                | Raise e => (Raise e, w3)
                | Ret email_result =>
                    let email_result :=
                      match email_result with Some r => r | None => PNone end in
                    if negb (truthy email_result) then
                      (Ret {| status := 500;
                              body := failure_body
                                (PStr (u "Email generation failed. Please try again."))
                                (u "generation") |}, w3)
                    else
                      (match
                         (let* _ := py_in (u "_parse_error") email_result in
                          let* email_content :=
                            py_get email_result (u "email") (PStr []) in
                          if negb (truthy email_content) then
                            Ret {| status := 500;
                                   body := failure_body
                                     (PStr (u "No email was generated. Please try again."))
                                     (u "generation") |}
                          else
                            let* shown :=
                              if truthy headline then py_prefix 100 headline
                              else Ret (PStr []) in
                            Ret {| status := 200;
                                   body := PDict
                                     [(u "success", PBool true);
                                      (u "message", PStr (u "Email generated successfully!"));
                                      (u "profile", PDict [(u "name", full_name);
                                                           (u "headline", shown)]);
                                      (u "email", email_content);
                                      (u "url_type", PStr (url_type_name t))] |})
                       with
                       | Raise e => (Raise e, w3)
                       | Ret r => (Ret r, w3)
                       end)
                end
            end
        end
  end.

(** [generate_email()], the handler of [/api/generate], on the decoded body
    [data] of the request. *)
Definition generate_email (data : pyval) (w : world)
  : res http_response * world :=
  match (let* a := py_get data (u "url") (PStr []) in py_strip a) with
  | Raise e => (Raise e, w)
  | Ret url =>
      match (let* a := py_get data (u "product_description") (PStr []) in
             py_strip a) with
      | Raise e => (Raise e, w)
      | Ret product_description =>
          match detect_url_type url with
          | None =>
              (Ret {| status := 400;
                      body := failure_body (PStr (u "Invalid LinkedIn URL"))
                                           (u "validation") |}, w)
          | Some t =>
              match product_description with
              | [] =>
                  (Ret {| status := 400;
                          body := failure_body
                            (PStr (u "Product description is required"))
                            (u "validation") |}, w)
              | _ :: _ =>
                  if (len product_description >? 200)%Z then
                    (Ret {| status := 400;
                            body := failure_body
                              (PStr (u "Product description must be 200 characters or less"))
                              (u "validation") |}, w)
                  else
                    let (r, w') :=
                      generate_email_try url t product_description w in
                    match r with
                    | Ret resp => (Ret resp, w')
                    | Raise e =>
                        (Ret {| status := 500;
                                body := failure_body
                                  (PStr (u "An error occurred: " ++ exn_text e))
                                  (u "unknown") |}, w')
                    end
              end
          end
      end
  end.
End Endpoint.

(* ================================================================== *)
(** * The vocabulary of the specification *)
(* ================================================================== *)

(** ** URL shapes *)

Definition path_segment (t : url_type) : str :=
  match t with User => u "in" | Company => u "company" end.

Section UrlShapes.
Context `{Runtime}.

(** A URL made of a scheme out of [schemes], an optional [www.], the host,
    the path segment of [t], a token of one or more word characters or
    hyphens, and an optional final slash. *)
Definition url_shape_with (schemes : list str) (t : url_type) (s : str) : Prop :=
  exists scheme www token slash,
    s = scheme ++ www ++ u "linkedin.com/" ++ path_segment t ++ u "/"
        ++ token ++ slash
    /\ In scheme schemes
    /\ (www = [] \/ www = u "www.")
    /\ token <> [] /\ forallb word_or_hyphen token = true
    /\ (slash = [] \/ slash = u "/").

(** The shape the patterns of the source accept: the scheme is there. *)
Definition url_shape : url_type -> str -> Prop :=
  url_shape_with [u "http://"; u "https://"].

(** The shape in the words of the specification: the scheme is optional. *)
Definition spec_url_shape : url_type -> str -> Prop :=
  url_shape_with [[]; u "http://"; u "https://"].
End UrlShapes.

(** The pattern of each kind. *)
Definition linkedin_pattern `{Runtime} (t : url_type) : regex :=
  match t with
  | User => user_pattern
  | Company => company_pattern
  end.

(** ** Records and their name fields *)

(** The record a fetched payload stands for: a map, or the first element of a
    sequence when that is a map. *)
Definition record_of (data : pyval) : option (list (str * pyval)) :=
  match data with
  | PDict d => Some d
  | PList (PDict d :: _) => Some d
  | _ => None
  end.

Inductive record_shape : Type := Flat | Nested.

(** The canonical name field of a record of kind [t] in shape [sh]: at the
    top level of a record without [basic_info], or under the [basic_info]
    sub-map. *)
Definition name_key (t : url_type) (sh : record_shape) : str :=
  match t, sh with
  | User, Flat => u "fullName"
  | User, Nested => u "fullname"
  | Company, _ => u "name"
  end.

Definition name_field (t : url_type) (sh : record_shape)
    (d : list (str * pyval)) : option pyval :=
  match sh, lookup (u "basic_info") d with
  | Flat, None => lookup (name_key t Flat) d
  | Nested, Some (PDict b) => lookup (name_key t Nested) b
  | _, _ => None
  end.

(** The validator of each kind, and the outcomes that lie beyond its name
    check: the headline failure (person records only), the size failure,
    and success. *)
Definition validate `{Runtime} (t : url_type) (data : pyval) : res (bool * pyval) :=
  match t with
  | User => validate_profile_data data
  | Company => validate_company_data data
  end.

Definition missing_name_failure (t : url_type) : res (bool * pyval) :=
  Ret (false, PStr (match t with
                    | User => msg_profile_missing_name
                    | Company => msg_company_missing_name
                    end)).

Definition past_name_check (t : url_type) (r : res (bool * pyval)) : Prop :=
  r = Ret (true, PNone)
  \/ r = Ret (false, PStr (match t with
                           | User => msg_profile_minimal
                           | Company => msg_company_minimal
                           end))
  \/ (t = User /\ r = Ret (false, PStr msg_profile_missing_headline)).

(** The failure message for an error text: the plan limitation when the text
    names the free plan, the text itself otherwise. *)
Definition error_failure (t : url_type) (error_text : str) : res (bool * pyval) :=
  Ret (false,
       PStr (if contains (u "free Apify plan") error_text
             then match t with
                  | User => msg_profile_paid_plan
                  | Company => msg_company_paid_plan
                  end
             else error_text)).

(** The message of each validator about the plan limitation. *)
Definition paid_plan_message (t : url_type) : str :=
  match t with
  | User => msg_profile_paid_plan
  | Company => msg_company_paid_plan
  end.

(** ** Extraction candidates *)

(** The suffix of [s] that starts at the first [c], and the prefix of [s]
    that ends at the last [c]. *)
Fixpoint from_first (c : char) (s : str) : option str :=
  match s with
  | [] => None
  | x :: s' => if x =? c then Some s else from_first c s'
  end.

Fixpoint up_to_last (c : char) (s : str) : option str :=
  match s with
  | [] => None
  | x :: s' => match up_to_last c s' with
               | Some t => Some (x :: t)
               | None => if x =? c then Some [x] else None
               end
  end.

(** The substring from the first opening brace to the last closing brace. *)
Definition brace_span (text : str) : option str :=
  match from_first lbrace text with
  | Some suffix => up_to_last rbrace suffix
  | None => None
  end.

(** The contents of the fenced blocks of a text, said without the search
    the program runs.  A text in which no two fences stand clear of each
    other has no block.  Otherwise the first block opens at the first fence
    of the text; the label [json] belongs to the opening when it follows the
    fence; the white space after that is passed over, all of it; the content
    runs up to the next fence; and the blocks of what follows that fence
    come after it. *)
Inductive code_blocks : str -> list str -> Prop :=
| blocks_none (text : str) :
    (forall a b c, text <> a ++ fence ++ b ++ fence ++ c) ->
    code_blocks text []
| blocks_cons (pre label space content rest : str) (blocks : list str) :
    contains fence (pre ++ u "``") = false ->
    (label = u "json"
     \/ (label = []
         /\ startswith (u "json") (space ++ content ++ fence ++ rest) = false)) ->
    forallb is_space space = true ->
    match content with
    | c :: _ => is_space c = false
    | [] => True
    end ->
    contains fence (content ++ u "``") = false ->
    code_blocks rest blocks ->
    code_blocks (pre ++ fence ++ label ++ space ++ content ++ fence ++ rest)
                (content :: blocks).

(** What extraction tries to parse, in order: the trimmed content of each
    fenced block, the whole text, the brace span. *)
Definition candidates (blocks : list str) (text : str) : list str :=
  map strip blocks ++ [text]
  ++ match brace_span text with Some b => [b] | None => [] end.

(** Trying the candidates in order, as the three stages do: the value of
    the first that parses; nothing when each fails with a decoding error;
    and, since only that error is caught, the error of the first candidate
    whose decoding raises another one. *)
Fixpoint first_parsed `{Runtime} (candidates : list str)
  : res (option pyval) :=
  match candidates with
  | [] => Ret None
  | c :: rest => match json_loads c with
                 | Ret v => Ret (Some v)
                 | Raise JSONDecodeError => first_parsed rest
                 | Raise e => Raise e
                 end
  end.

(** A candidate that fails with a decoding error: the failure the three
    stages catch. *)
Definition fails_to_parse `{Runtime} (c : str) : Prop :=
  json_loads c = Raise JSONDecodeError.

(** ** The limits of the interpreter *)

(** The number of characters of [s] that satisfy [p]. *)
Definition count (p : char -> bool) (s : str) : nat :=
  List.length (filter p s).

(** A character that opens a JSON container. *)
Definition opens_container (c : char) : bool := (c =? 91) || (c =? 123).

(** A text that keeps the decoder within the limits of the interpreter
    wherever in the text it scans: it has no more opening brackets and
    braces than the decoder may enter containers, and, when there is a
    digit limit, no more digits than the limit. *)
Definition within_limits `{Runtime} (depth : nat) (s : str) : Prop :=
  (count opens_container s <= depth)%nat
  /\ (int_max_str_digits = 0
      \/ N.of_nat (count is_digit s) <= int_max_str_digits).

(** [r] is what is left of [s] after some of its first characters. *)
Inductive suffix (r : str) : str -> Prop :=
| suffix_here : suffix r r
| suffix_later (c : char) (s : str) : suffix r s -> suffix r (c :: s).

(** ** Generation results *)

(** A usable email: a non-empty string under the [email] key. *)
Definition has_email (result : pyval) : Prop :=
  exists d e, result = PDict d /\ lookup (u "email") d = Some (PStr e) /\ e <> [].

(** The parse-failure indicator: the marker together with the raw text. *)
Definition has_parse_failure (result : pyval) : Prop :=
  exists d m raw, result = PDict d
    /\ lookup (u "_parse_error") d = Some m
    /\ lookup (u "_raw") d = Some (PStr raw).

Definition never_silently_empty (result : pyval) : Prop :=
  has_email result \/ has_parse_failure result.

(** The raw text that stands in for an extracted value: the value is an
    object that carries the marker [_parse_error], and its [_raw] is there
    and is not empty (nor another value that counts as false). *)
Definition marked_raw (extracted : pyval) : option pyval :=
  match extracted with
  | PDict d =>
      match lookup (u "_parse_error") d, lookup (u "_raw") d with
      | Some _, Some raw => if truthy raw then Some raw else None
      | _, _ => None
      end
  | _ => None
  end.

(** What the pipeline makes of an extracted value: the raw text of a marked
    value becomes the email, and any other value is kept. *)
Definition fallback_result (extracted : pyval) : pyval :=
  match marked_raw extracted with
  | Some raw => PDict [(u "email", raw)]
  | None => extracted
  end.

(** ** Traces of the retry loop *)

Definition delays (tr : list event) : list Z :=
  flat_map (fun e => match e with Slept d => [d] | Called => [] end) tr.

Definition calls (tr : list event) : nat :=
  List.length (filter (fun e => match e with Called => true | Slept _ => false end) tr).

(** An outcome that [with_backoff] answers with a sleep and another turn of
    the loop. *)
Definition retried {A} (r : res A) : bool :=
  match r with
  | Raise RateLimitError => true
  | Raise (APIStatusError status) => retryable_status status
  | _ => false
  end.

(* ================================================================== *)
(** * A stub world *)
(* ================================================================== *)

(** A deterministic stand-in for the outside world: the state is the number
    of service calls made so far, the [n]-th call is answered by [service n],
    reads return fixed contents, writes succeed, sleeping changes nothing,
    and both fetches return [fetched]. *)
Definition stub_env (api_key prompt : option str) (profile : option pyval)
    (fetched : bool * str * pyval) (service : nat -> res response) : Env :=
  {| world := nat;
     time_sleep := fun _ n => n;
     read_api_key := fun _ => api_key;
     read_prompt_template := fun _ _ => prompt;
     load_json_file := fun _ _ => profile;
     responses_create := fun _ n => (service n, S n);
     save_json_file := fun _ _ n => (Ret tt, n);
     clear_work_directory := fun n => (Ret tt, n);
     fetch_linkedin_profile := fun _ n => (fetched, n);
     fetch_linkedin_company := fun _ n => (fetched, n);
     email_result_path := u "AllFiles/email_result.json" |}.

(** A response whose aggregated text is [text]. *)
Definition text_response (text : str) : response :=
  {| output_text := Some text;
     output := None;
     usage := Usage 10 10;
     model_dump_json := u "{}" |}.

(** A service that is rate limited on every call. *)
Definition always_rate_limited : nat -> res response :=
  fun _ => Raise RateLimitError.

(** A service that answers every call with [text]. *)
Definition answers (text : str) : nat -> res response :=
  fun _ => Ret (text_response text).

(** A world with a key, a template and a stored person record, whose service
    is [service]. *)
Definition sample_profile : pyval :=
  PDict [(u "fullName", PStr (u "Jane Doe")); (u "headline", PStr (u "Engineer"))].

Definition sample_env (service : nat -> res response) : Env :=
  stub_env (Some (u "sk-test")) (Some (u "Write a cold email."))
           (Some sample_profile)
           (true, u "AllFiles/profile_data.json", sample_profile) service.

(** ** Requests *)

(** The trimmed text of a field of a request body: empty when the field is
    absent, none when the field holds something that is not text. *)
Definition request_text (d : list (str * pyval)) (key : str) : option str :=
  match lookup key d with
  | None => Some []
  | Some (PStr s) => Some (strip s)
  | Some _ => None
  end.

(** Request bodies for the examples: a valid person URL with no description,
    and with a description of 201 characters. *)
Definition request_without_description : list (str * pyval) :=
  [(u "url", PStr (u "https://www.linkedin.com/in/jane-doe/"))].
Definition request_with_long_description : list (str * pyval) :=
  [(u "url", PStr (u "https://www.linkedin.com/in/jane-doe/"));
   (u "product_description", PStr (repeat 120 201))].

(** ** Sample records *)

Definition flat_person_fields : list (str * pyval) :=
  [(u "fullName", PStr (u "Jane Doe")); (u "headline", PStr (u "Engineer"))].
Definition nested_person_fields : list (str * pyval) :=
  [(u "basic_info",
    PDict [(u "fullname", PStr (u "Jane Doe"));
           (u "headline", PStr (u "Engineer"))])].
Definition nested_company_fields : list (str * pyval) :=
  [(u "basic_info", PDict [(u "name", PStr (u "Acme"))])].
Definition flat_company_fields : list (str * pyval) :=
  [(u "name", PStr (u "Acme")); (u "description", PStr (u "Anvils"))].
Definition plan_error_fields : list (str * pyval) :=
  [(u "fullName", PStr (u "Jane Doe"));
   (u "headline", PStr (u "Engineer"));
   (u "error", PStr (u "Not available on the free Apify plan"))].
Definition other_error_fields : list (str * pyval) :=
  [(u "error", PStr (u "requires paid plan"))].

(** A runtime for the worked examples: every record measures 120
    characters, no code point above U+007F is alphanumeric, the decoder may
    go 994 containers deep (what CPython 3.11 leaves of its default
    recursion limit of 1000 a few frames down) and the digit limit is the
    default, 4300. *)
Definition sample_runtime : Runtime :=
  {| str_len := fun _ => 120%Z;
     json_dumps := fun _ => u "{}";
     exn_text := fun _ => u "error";
     unicode_isalnum := fun _ => false;
     json_max_depth := 994;
     int_max_str_digits := 4300 |}.

(** ** Runs of the retry loop *)

(** The trace of [k] attempts that are all retried, the first of them being
    iteration [i]: a call and the sleep that follows it, [k] times. *)
Fixpoint retry_trace (base : Z) (k : nat) (i : Z) : list event :=
  match k with
  | O => []
  | S k' => Called :: Slept (base ^ i) :: retry_trace base k' (i + 1)
  end.

(** The world in which attempt [k] starts (counting from 0 at iteration [i]
    in world [w]) when the attempts before it are retried: each of them is a
    call followed by its sleep. *)
Fixpoint attempt_world `{Env} {A} (fn : world -> res A * world) (base : Z)
    (k : nat) (i : Z) (w : world) : world :=
  match k with
  | O => w
  | S k' => attempt_world fn base k' (i + 1) (time_sleep (base ^ i) (snd (fn w)))
  end.

(* ================================================================== *)
(** * More of the source: helpers, readers and the two fetches *)
(* ================================================================== *)

(** ** File names *)

(** The characters the [re.sub] of [sanitize_filename] removes: the angle
    brackets, the colon, the double quote, the slash, the backslash, the
    bar, the question mark and the star. *)
Definition forbidden_in_filename (c : char) : bool :=
  (c =? 60) || (c =? 62) || (c =? 58) || (c =? 34) || (c =? 47)
  || (c =? 92) || (c =? 124) || (c =? 63) || (c =? 42).

(** [s.lstrip(chars)], [s.rstrip(chars)] and [s.strip(chars)] for the set of
    characters [p]. *)
Fixpoint lstrip_chars (p : char -> bool) (s : str) : str :=
  match s with
  | c :: s' => if p c then lstrip_chars p s' else s
  | [] => []
  end.

Definition rstrip_chars (p : char -> bool) (s : str) : str :=
  fold_right
    (fun c acc => match acc with
                  | [] => if p c then [] else [c]
                  | _ => c :: acc
                  end) [] s.

Definition strip_chars (p : char -> bool) (s : str) : str :=
  rstrip_chars p (lstrip_chars p s).

(** The set ['. ']. *)
Definition dot_or_space (c : char) : bool := (c =? 46) || (c =? 32).

(** The body the three [sanitize_filename] share: the forbidden characters
    go, spaces become underscores, dots and spaces are stripped from both
    ends, and an empty result is replaced by [fallback]. *)
Definition sanitize_with (fallback name : str) : str :=
  let name := filter (fun c => negb (forbidden_in_filename c)) name in
  let name := map (fun c => if c =? 32 then 95 else c) name in
  let name := strip_chars dot_or_space name in
  match name with
  | [] => fallback
  | _ :: _ => name
  end.

(** [sanitize_filename(name)] of [app.py], with its guard for an empty
    name. *)
Definition sanitize_filename (name : str) : str :=
  match name with
  | [] => u "Unknown"
  | _ :: _ => sanitize_with (u "Unknown") name
  end.

(** [sanitize_filename(name)] of [fetch_user_profile.py] and of
    [fetch_company_profile.py]. *)
Module FetchUserProfile.
Definition sanitize_filename (name : str) : str :=
  sanitize_with (u "Unknown_Profile") name.
End FetchUserProfile.

Module FetchCompanyProfile.
Definition sanitize_filename (name : str) : str :=
  sanitize_with (u "Unknown_Company") name.
End FetchCompanyProfile.

(** ** URL helpers of the fetch modules *)

Section FetchUrls.
Context `{Runtime}.

(** [validate_linkedin_profile_url(url)]. *)
Definition validate_linkedin_profile_url (url : str) : bool :=
  match url with
  | [] => false
  | _ :: _ => re_match user_pattern (strip url)
  end.

(** [validate_linkedin_company_url(url)]. *)
Definition validate_linkedin_company_url (url : str) : bool :=
  match url with
  | [] => false
  | _ :: _ => re_match company_pattern (strip url)
  end.
End FetchUrls.

(** The longest run of characters other than the slash at the head of
    [s]. *)
Fixpoint segment (s : str) : str :=
  match s with
  | c :: s' => if c =? 47 then [] else c :: segment s'
  | [] => []
  end.

(** [re.search(marker + r'([^/]+)', s)]: the group of the leftmost match,
    that is the segment after the first occurrence of [marker] that is
    followed by a character other than the slash. *)
Fixpoint search_segment (marker s : str) : option str :=
  match s with
  | [] => None
  | _ :: s' =>
      if startswith marker s then
        match segment (skipn (List.length marker) s) with
        | [] => search_segment marker s'
        | (_ :: _) as group => Some group
        end
      else search_segment marker s'
  end.

(** [extract_username_from_url(linkedin_url)]. *)
Definition extract_username_from_url (linkedin_url : str) : str :=
  match search_segment (u "/in/") linkedin_url with
  | Some group => group
  | None => u "unknown"
  end.

(** [extract_company_identifier(linkedin_url)]. *)
Definition extract_company_identifier (linkedin_url : str) : str :=
  match search_segment (u "/company/") linkedin_url with
  | Some group => group
  | None => u "unknown"
  end.

(** ** Keys and tokens *)

(** The loop over the lines of [.env]: the first line that starts with
    [prefix] gives [line.split("=", 1)[1].strip()]. *)
Fixpoint first_setting (prefix : str) (lines : list str) : res (option str) :=
  match lines with
  | [] => Ret None
  | line :: rest =>
      if startswith prefix line then
        match split_on [61] line with
        | Some (_, value) => Ret (Some (strip value))
        | None => Raise (OtherError (u "IndexError"))
        end
      else first_setting prefix rest
  end.

(** What [read_api_key] and [read_token] do with the value of the
    environment variable [name] ([None] when it is unset) and the lines of
    the [.env] file ([None] when there is no such file). *)
Definition read_setting (name : str) (env_value : option str)
    (dotenv : option (list str)) : res (option str) :=
  match env_value with
  | Some ((_ :: _) as value) => Ret (Some (strip value))
  | _ =>
      match dotenv with
      | Some lines => first_setting (name ++ [61]) lines
      | None => Ret None
      end
  end.

Module Settings.
(** [read_api_key()] of [generate_email.py]. *)
Definition read_api_key : option str -> option (list str) -> res (option str) :=
  read_setting (u "OPENAI_API_KEY").
(** [read_token()] of the two fetch modules. *)
Definition read_token : option str -> option (list str) -> res (option str) :=
  read_setting (u "APIFY_TOKEN").
End Settings.

(** ** app.py: the validation endpoint *)

Definition msg_invalid_url : str :=
  u "Invalid URL. Expected format:" ++ [10; 8226]
  ++ u " User: https://linkedin.com/in/username/" ++ [10; 8226]
  ++ u " Company: https://linkedin.com/company/name/".

(** [validate_url()], the handler of [/api/validate-url], on the decoded
    body [data] of the request: the body of its answer. *)
Definition validate_url `{Runtime} (data : pyval) : res pyval :=
  let* a := py_get data (u "url") (PStr []) in
  let* url := py_strip a in
  Ret (match detect_url_type url with
       | Some User =>
           PDict [(u "valid", PBool true); (u "type", PStr (u "user"));
                  (u "message", PStr (u "Valid LinkedIn profile URL"))]
       | Some Company =>
           PDict [(u "valid", PBool true); (u "type", PStr (u "company"));
                  (u "message", PStr (u "Valid LinkedIn company URL"))]
       | None =>
           PDict [(u "valid", PBool false); (u "type", PNone);
                  (u "message", PStr msg_invalid_url)]
       end).

(** ** The two fetch functions *)

(** What the fetch modules use of the outside world: the environment, the
    [.env] file next to the module ([dotenv] gives its lines, [None] when
    there is no such file, and raises when the file cannot be read), the
    scraping service ([actor_call token actor run_input] is
    [ApifyClient(token).actor(actor).call(run_input=...)],
    [dataset_items token id] is
    [list(ApifyClient(token).dataset(id).iterate_items())]), and the file
    system ([dump_json path value ensure_ascii] opens [path] for writing
    and dumps [value] with [indent=2]). *)
Class Apify : Type := {
  site : Type;
  getenv : str -> site -> option str;
  dotenv : site -> res (option (list str));
  actor_call : str -> str -> pyval -> site -> res pyval * site;
  dataset_items : str -> pyval -> site -> res (list pyval) * site;
  makedirs : str -> site -> res unit * site;
  dump_json : str -> pyval -> bool -> site -> res unit * site;
  path_join : str -> str -> str
}.

(** Computations that act on a state and can raise. *)
Definition io_ret {S A : Type} (a : A) : S -> res A * S := fun w => (Ret a, w).

Definition io_lift {S A : Type} (r : res A) : S -> res A * S := fun w => (r, w).

Definition io_bind {S A B : Type} (m : S -> res A * S)
    (k : A -> S -> res B * S) : S -> res B * S :=
  fun w => match m w with
           | (Ret a, w') => k a w'
           | (Raise e, w') => (Raise e, w')
           end.

Notation "'let!' x ':=' m 'in' k" := (io_bind m (fun x => k))
  (at level 10, x pattern, m at level 100, k at level 200).

(** The triple [(success, filepath, data)] of a fetch, and the failure
    [(False, None, None)]. *)
Definition fetch_result : Type := (bool * option str * option pyval)%type.
Definition fetch_failed : fetch_result := (false, None, None).

Module Fetch.
Section Fetch.
Context `{Runtime} `{Apify}.

(** [read_token()] in a world: the file is looked at only when the
    environment has no token. *)
Definition read_token (w : site) : res (option str) :=
  match getenv (u "APIFY_TOKEN") w with
  | Some ((_ :: _) as token) => Settings.read_token (Some token) None
  | unset => let* lines := dotenv w in Settings.read_token unset lines
  end.

(** A [sanitize_filename] applied to a value: [re.sub] takes text only. *)
Definition py_sanitize (sanitize : str -> str) (name : pyval) : res str :=
  match name with
  | PStr s => Ret (sanitize s)
  | _ => Raise TypeError
  end.

(** The end of both [try] blocks: the file name, the path, the dump and
    the triple of a success. *)
Definition save_fetched (default_filename : res str)
    (output_path filename : option str) (data : pyval)
  : site -> res fetch_result * site :=
  let! final_filename :=
    match filename with
    | Some ((_ :: _) as given) => io_ret given
    | _ => io_lift default_filename
    end in
  let! full_path :=
    match output_path with
    | Some ((_ :: _) as dir) =>
        let! _ := makedirs dir in io_ret (path_join dir final_filename)
    | _ => io_ret final_filename
    end in
  let! _ := dump_json full_path data false in
  io_ret (true, Some full_path, Some data).

(** Both [except Exception] clauses: the error is written to the file when
    a directory and a file name were given, whatever writing it raises is
    dropped, and the fetch has failed. *)
Definition fetch_except (output_path filename : option str)
    (run : res fetch_result * site) : res fetch_result * site :=
  match run with
  | (Ret r, w) => (Ret r, w)
  | (Raise e, w) =>
      match output_path, filename with
      | Some ((_ :: _) as dir), Some ((_ :: _) as given) =>
          (Ret fetch_failed,
           snd (dump_json (path_join dir given)
                  (PDict [(u "error", PStr (exn_text e))]) true w))
      | _, _ => (Ret fetch_failed, w)
      end
  end.

(** [fetch_linkedin_profile(linkedin_url, output_path, filename)]. *)
Definition fetch_linkedin_profile (linkedin_url : str)
    (output_path filename : option str) (w : site) : res fetch_result * site :=
  if negb (validate_linkedin_profile_url linkedin_url)
  then (Ret fetch_failed, w)
  else
    match read_token w with
    | Raise e => (Raise e, w)
    | Ret None | Ret (Some []) => (Ret fetch_failed, w)
    | Ret (Some ((_ :: _) as token)) =>
        fetch_except output_path filename
          ((let! run :=
              actor_call token (u "VhxlqQXRwhW8H5hNV")
                (PDict [(u "username", PStr linkedin_url);
                        (u "includeEmail", PBool false)]) in
            let! dataset_id :=
              io_lift (py_get run (u "defaultDatasetId") PNone) in
            if negb (truthy dataset_id) then io_ret fetch_failed
            else
              let! items := dataset_items token dataset_id in
              match items with
              | [] => io_ret fetch_failed
              | profile_data :: _ =>
                  save_fetched
                    (let* a := py_get profile_data (u "fullName") PNone in
                     let* full_name :=
                       if truthy a then Ret a
                       else py_get profile_data (u "firstName") (PStr []) in
                     let full_name :=
                       if truthy full_name then full_name
                       else PStr (extract_username_from_url linkedin_url) in
                     let* safe_name :=
                       py_sanitize FetchUserProfile.sanitize_filename
                         full_name in
                     Ret (safe_name ++ u "_profile.json"))
                    output_path filename profile_data
              end) w)
    end.

(** [fetch_linkedin_company(linkedin_url, output_path, filename)]. *)
Definition fetch_linkedin_company (linkedin_url : str)
    (output_path filename : option str) (w : site) : res fetch_result * site :=
  if negb (validate_linkedin_company_url linkedin_url)
  then (Ret fetch_failed, w)
  else
    match read_token w with
    | Raise e => (Raise e, w)
    | Ret None | Ret (Some []) => (Ret fetch_failed, w)
    | Ret (Some ((_ :: _) as token)) =>
        fetch_except output_path filename
          ((let company_identifier :=
              extract_company_identifier linkedin_url in
            let! run :=
              actor_call token (u "ipHw77V2NMJPy8sbS")
                (PDict [(u "identifier",
                         PList [PStr company_identifier])]) in
            let! dataset_id :=
              io_lift (py_get run (u "defaultDatasetId") PNone) in
            if negb (truthy dataset_id) then io_ret fetch_failed
            else
              let! items := dataset_items token dataset_id in
              match items with
              | [] => io_ret fetch_failed
              | company_data :: _ =>
                  save_fetched
                    (let* nested := py_in (u "basic_info") company_data in
                     let* company_name :=
                       if nested then
                         let* basic_info :=
                           py_get company_data (u "basic_info") (PDict []) in
                         py_get basic_info (u "name") PNone
                       else Ret PNone in
                     let company_name :=
                       if truthy company_name then company_name
                       else PStr company_identifier in
                     let* safe_name :=
                       py_sanitize FetchCompanyProfile.sanitize_filename
                         company_name in
                     Ret (safe_name ++ u "_company.json"))
                    output_path filename company_data
              end) w)
    end.
End Fetch.
End Fetch.

(** A stand-in for the outside world of the fetch modules: the state counts
    the files written, the token comes from the environment, the actor
    answers with the dataset [ds1], whose items are [items], and the file
    system accepts everything. *)
Definition stub_apify (token : option str) (items : list pyval) : Apify :=
  {| site := nat;
     getenv := fun _ _ => token;
     dotenv := fun _ => Ret None;
     actor_call := fun _ _ _ n =>
       (Ret (PDict [(u "defaultDatasetId", PStr (u "ds1"))]), n);
     dataset_items := fun _ _ n => (Ret items, n);
     makedirs := fun _ n => (Ret tt, n);
     dump_json := fun _ _ _ n => (Ret tt, S n);
     path_join := fun dir name => (dir ++ u "/" ++ name)%list |}.

(** ** The vocabulary of the further properties *)

(** A name that can be used as a file name as it is: it is not empty, it
    holds none of the forbidden characters and no space, and it neither
    starts nor ends with a dot. *)
Definition safe_filename (s : str) : bool :=
  match s with [] => false | c :: _ => negb (c =? 46) end
  && negb (last s 0 =? 46)
  && forallb (fun c => negb (forbidden_in_filename c) && negb (c =? 32)) s.

(** [d.get(key)]: [None] when the key is missing. *)
Definition get_or_none (key : str) (d : list (str * pyval)) : pyval :=
  match lookup key d with
  | Some v => v
  | None => PNone
  end.

(** What [validate_profile_data] asks of the fields of a person record: no
    [error] key; a name and a headline that are not empty, read at the top
    level of a record without [basic_info] ([fullName] or [firstName]) and
    otherwise under [basic_info], which must be a map ([fullname] or
    [first_name]). *)
Definition complete_profile (d : list (str * pyval)) : bool :=
  match lookup (u "error") d with
  | Some _ => false
  | None =>
      match lookup (u "basic_info") d with
      | None =>
          (truthy (get_or_none (u "fullName") d)
           || truthy (get_or_none (u "firstName") d))
          && truthy (get_or_none (u "headline") d)
      | Some (PDict b) =>
          (truthy (get_or_none (u "fullname") b)
           || truthy (get_or_none (u "first_name") b))
          && truthy (get_or_none (u "headline") b)
      | Some _ => false
      end
  end.

(** What [validate_company_data] asks of the fields of a company record: no
    [error] key and a name that is not empty under [basic_info], which
    must be a map. *)
Definition complete_company (d : list (str * pyval)) : bool :=
  match lookup (u "error") d with
  | Some _ => false
  | None =>
      match lookup (u "basic_info") d with
      | Some (PDict b) => truthy (get_or_none (u "name") b)
      | _ => false
      end
  end.

(** What holds of every value the readers return: reading does not raise, a
    value that is returned has no white space around it, and a variable of
    the environment that is set and not empty decides the result. *)
Definition setting_read (env_value : option str) (r : res (option str)) : Prop :=
  exists k, r = Ret k
    /\ (forall v, k = Some v -> strip v = v)
    /\ (forall v, env_value = Some v -> v <> [] -> k = Some (strip v)).

(** The template [run_email_generation] reads for a kind of record. *)
Definition prompt_file_for (profile_type : str) : str :=
  if str_eqb profile_type (u "user") then u "prompt1.md" else u "prompt2.md".

(** An answer of the generation endpoint as a client reads it: one of the
    statuses 200, 400 and 500, and a body whose [success] flag says whether
    the status is 200. *)
Definition answer_shape (resp : http_response) : Prop :=
  (status resp = 200 \/ status resp = 400 \/ status resp = 500)%Z
  /\ exists fields,
       body resp = PDict fields
       /\ lookup (u "success") fields = Some (PBool (status resp =? 200)%Z).

(** The request [run_email_generation] sends for a template, a record and a
    product description. *)
Definition generation_request `{Runtime} (prompt_text : str)
    (profile_data : pyval) (product_description : str) : request :=
  {| req_model := MODEL;
     req_reasoning_effort := u "medium";
     req_input := full_input prompt_text profile_data product_description;
     req_max_output_tokens := MAX_OUTPUT_TOKENS |}.

(** The two fetch modules side by side: the validator, the fetch, the
    actor, the input of the run and the end of the default file name of
    each kind. *)
Definition url_validator `{Runtime} (t : url_type) : str -> bool :=
  match t with
  | User => validate_linkedin_profile_url
  | Company => validate_linkedin_company_url
  end.

Definition fetch_of `{Runtime} `{Apify} (t : url_type)
  : str -> option str -> option str -> site -> res fetch_result * site :=
  match t with
  | User => Fetch.fetch_linkedin_profile
  | Company => Fetch.fetch_linkedin_company
  end.

Definition actor_of (t : url_type) : str :=
  match t with
  | User => u "VhxlqQXRwhW8H5hNV"
  | Company => u "ipHw77V2NMJPy8sbS"
  end.

Definition run_input_of (t : url_type) (linkedin_url : str) : pyval :=
  match t with
  | User => PDict [(u "username", PStr linkedin_url);
                   (u "includeEmail", PBool false)]
  | Company => PDict [(u "identifier",
                       PList [PStr (extract_company_identifier linkedin_url)])]
  end.

Definition file_suffix (t : url_type) : str :=
  match t with
  | User => u "_profile.json"
  | Company => u "_company.json"
  end.

(** No token is to be had: [read_token()] returns [None] or the empty
    string. *)
Definition token_missing `{Apify} (w : site) : Prop :=
  Fetch.read_token w = Ret None \/ Fetch.read_token w = Ret (Some []).

(* ================================================================== *)
(** * Worked examples *)
(* ================================================================== *)

Example detect_person :
  forall R : Runtime,
    detect_url_type (u " https://www.linkedin.com/in/jane-doe/ ") = Some User.
Proof. intros R. vm_compute. reflexivity. Qed.

Example detect_company :
  forall R : Runtime,
    detect_url_type (u "http://linkedin.com/company/acme") = Some Company.
Proof. intros R. vm_compute. reflexivity. Qed.

Example detect_extra_segment :
  forall R : Runtime,
    detect_url_type (u "https://www.linkedin.com/in/jane-doe/details") = None.
Proof. intros R. vm_compute. reflexivity. Qed.

Example detect_other_path :
  forall R : Runtime,
    detect_url_type (u "https://www.linkedin.com/school/mit/") = None.
Proof. intros R. vm_compute. reflexivity. Qed.

Example extract_fenced :
  @extract_json_from_response sample_runtime
    (u "Here you go:" ++ [10] ++ u "```json" ++ [10]
     ++ j "{'email': 'Hi Jane'}" ++ [10] ++ u "```")
  = Ret (PDict [(u "email", PStr (u "Hi Jane"))]).
Proof. vm_compute. reflexivity. Qed.

Example extract_whole_text :
  @extract_json_from_response sample_runtime (j "  {'email': 'Hi Jane'} ")
  = Ret (PDict [(u "email", PStr (u "Hi Jane"))]).
Proof. vm_compute. reflexivity. Qed.

Example extract_embedded :
  @extract_json_from_response sample_runtime (u "Result: " ++ j "{'email': 'Hi'}" ++ u " - done")
  = Ret (PDict [(u "email", PStr (u "Hi"))]).
Proof. vm_compute. reflexivity. Qed.

Example extract_prose :
  @extract_json_from_response sample_runtime (u "Sorry, no.") = Ret (parse_failure (u "Sorry, no.")).
Proof. vm_compute. reflexivity. Qed.

Example extract_second_block :
  @extract_json_from_response sample_runtime
    (u "```" ++ [10] ++ u "not json" ++ [10] ++ u "```" ++ [10]
     ++ u "```json" ++ j "{'email': 'Hi'}" ++ u "```")
  = Ret (PDict [(u "email", PStr (u "Hi"))]).
Proof. vm_compute. reflexivity. Qed.

Example output_text_from_parts :
  extract_output_text
    {| output_text := None;
       output := Some [ {| item_content := None |};
                        {| item_content :=
                             Some [ {| part_text := Some (u "a") |};
                                    {| part_text := None |};
                                    {| part_text := Some (u "b") |} ] |} ];
       usage := NoUsageAttr;
       model_dump_json := u "{}" |}
  = u "a" ++ [10] ++ u "b".
Proof. reflexivity. Qed.

(** A person URL, a valid record and a service that answers in JSON: the
    endpoint answers 200 with the name, the headline and the email, after
    one service call. *)
Example generate_email_success :
  @generate_email sample_runtime (sample_env (answers (j "{'email': 'Hi Jane'}")))
    (PDict [(u "url", PStr (u "https://www.linkedin.com/in/jane-doe/"));
            (u "product_description", PStr (u "A scheduling tool"))])
    0%nat
  = (Ret {| status := 200;
            body := PDict
              [(u "success", PBool true);
               (u "message", PStr (u "Email generated successfully!"));
               (u "profile", PDict [(u "name", PStr (u "Jane Doe"));
                                    (u "headline", PStr (u "Engineer"))]);
               (u "email", PStr (u "Hi Jane"));
               (u "url_type", PStr (u "user"))] |}, 1%nat).
Proof. vm_compute. reflexivity. Qed.

(** A company URL whose fetch returns an error record: the endpoint answers
    400 at the validation step with the error text, and the service is not
    called. *)
Example generate_email_error_record :
  @generate_email sample_runtime
    (stub_env (Some (u "sk-test")) (Some (u "Write a cold email.")) None
       (true, u "AllFiles/company_data.json", PDict other_error_fields)
       (answers (u "Hi")))
    (PDict [(u "url", PStr (u "https://linkedin.com/company/acme"));
            (u "product_description", PStr (u "A scheduling tool"))])
    0%nat
  = (Ret {| status := 400;
            body := PDict
              [(u "success", PBool false);
               (u "error", PStr (u "requires paid plan"));
               (u "step", PStr (u "validation"));
               (u "details", PStr (u "Company data could not be retrieved properly."))] |},
     0%nat).
Proof. vm_compute. reflexivity. Qed.

(* ================================================================== *)
(** * Properties of the retry loop *)
(* ================================================================== *)

Section BackoffFacts.
Context `{Env}.
Variable A : Type.
Variable fn : world -> res A * world.

(** One retried attempt: the loop calls, sleeps and goes on. *)
Lemma backoff_loop_retried base remaining i w :
  retried (fst (fn w)) = true ->
  backoff_loop fn base (S remaining) i w =
  let '(r, w', tr) :=
    backoff_loop fn base remaining (i + 1)
                 (time_sleep (base ^ i) (snd (fn w))) in
  (r, w', Called :: Slept (base ^ i) :: tr).
Proof.
  intros Hr. simpl. destruct (fn w) as [r w1]; simpl in *.
  destruct r as [a | e]; [discriminate |].
  destruct e; try discriminate; simpl in Hr.
  - reflexivity.
  - rewrite Hr. reflexivity.
Qed.

(** [k] retried attempts in a row: the loop is where it would be had it
    started at attempt [k], with their trace in front. *)
Lemma backoff_loop_prefix base k : forall m i w,
  (forall j, (j < k)%nat ->
             retried (fst (fn (attempt_world fn base j i w))) = true) ->
  backoff_loop fn base (k + m) i w =
  let '(r, w', tr) :=
    backoff_loop fn base m (i + Z.of_nat k) (attempt_world fn base k i w) in
  (r, w', retry_trace base k i ++ tr).
Proof.
  induction k as [| k IH]; intros m i w Hall.
  - simpl. rewrite Z.add_0_r.
    destruct (backoff_loop fn base m i w) as [[r w'] tr]. reflexivity.
  - change (S k + m)%nat with (S (k + m)).
    rewrite backoff_loop_retried by (apply (Hall 0%nat); lia).
    rewrite IH.
    + replace (i + 1 + Z.of_nat k)%Z with (i + Z.of_nat (S k))%Z by lia.
      simpl attempt_world.
      destruct (backoff_loop fn base m (i + Z.of_nat (S k))
                  (attempt_world fn base k (i + 1)
                     (time_sleep (base ^ i) (snd (fn w))))) as [[r w'] tr].
      reflexivity.
    + intros j Hj. apply (Hall (S j)). lia.
Qed.

(** When each of the [n] attempts is retried the loop runs out of
    attempts. *)
Lemma backoff_loop_exhausted base n i w :
  (forall k, (k < n)%nat ->
             retried (fst (fn (attempt_world fn base k i w))) = true) ->
  backoff_loop fn base n i w =
  (Raise (RuntimeError msg_retries_exceeded),
   attempt_world fn base n i w, retry_trace base n i).
Proof.
  intros Hall.
  replace n with (n + 0)%nat at 1 by lia.
  rewrite backoff_loop_prefix by assumption.
  simpl. rewrite app_nil_r. reflexivity.
Qed.
End BackoffFacts.

(** C1, as amended.  When every one of the six attempts fails with a
    rate-limit or retryable-status error, the delays of [with_backoff] with
    its defaults
    are 1, 2, 4, 8, 16 and 32 seconds: the wait after the N-th failed
    attempt (counted from 1) is [2^(N-1)], the power [base ** i] of the
    0-based loop index. *)
Theorem C1_backoff_delays :
  forall (E : Env) (A : Type) (fn : world -> res A * world) (w : world),
    (forall k, (k < 6)%nat ->
       retried (fst (fn (attempt_world fn default_base k 0 w))) = true) ->
    let tr := snd (with_backoff fn default_max_retries default_base w) in
    delays tr = [1; 2; 4; 8; 16; 32]%Z
    /\ forall N : nat, (1 <= N <= 6)%nat ->
         nth_error (delays tr) (N - 1) = Some (2 ^ (Z.of_nat N - 1))%Z.
Proof.
  intros E A fn w Hall tr. subst tr. unfold with_backoff.
  rewrite backoff_loop_exhausted by assumption. simpl snd.
  split; [reflexivity |].
  intros N HN.
  assert (N = 1 \/ N = 2 \/ N = 3 \/ N = 4 \/ N = 5 \/ N = 6)%nat as Hc by lia.
  destruct Hc as [-> | [-> | [-> | [-> | [-> | ->]]]]]; reflexivity.
Qed.

(** The delays of C1 on a service that is always rate limited. *)
Lemma C1_backoff_delays_witness :
  let E := sample_env always_rate_limited in
  let fn := @responses_create E
              {| req_model := MODEL; req_reasoning_effort := u "medium";
                 req_input := u "hello"; req_max_output_tokens := 4000 |} in
  let tr := snd (with_backoff fn default_max_retries default_base 0%nat) in
  delays tr = [1; 2; 4; 8; 16; 32]%Z
  /\ forall N : nat, (1 <= N <= 6)%nat ->
       nth_error (delays tr) (N - 1) = Some (2 ^ (Z.of_nat N - 1))%Z.
Proof.
  intros E fn.
  apply (@C1_backoff_delays E response fn 0%nat).
  intros k Hk. reflexivity.
Defined.

(** C1, as the claim states it, fails: on a service that is always rate
    limited the first wait is 1 second, not [2^1], and the delays are not
    2, 4, 8, 16, 32, 64. *)
Lemma C1_counterexample :
  let E := sample_env always_rate_limited in
  let fn := @responses_create E
              {| req_model := MODEL; req_reasoning_effort := u "medium";
                 req_input := u "hello"; req_max_output_tokens := 4000 |} in
  let tr := snd (with_backoff fn default_max_retries default_base 0%nat) in
  delays tr = [1; 2; 4; 8; 16; 32]%Z
  /\ delays tr <> [2; 4; 8; 16; 32; 64]%Z
  /\ nth_error (delays tr) 0 <> Some (2 ^ 1)%Z.
Proof.
  cbv zeta. split; [reflexivity |].
  split; intros Heq; vm_compute in Heq; discriminate Heq.
Qed.

(** C2.  If every one of the six attempts fails with a retryable error,
    [with_backoff] with its defaults calls the wrapped function exactly 6
    times and ends with
    the terminal failure [RuntimeError("[ERROR] Exceeded retry attempts")];
    the sixth call is followed by a sleep and by no further call.  The world
    it leaves is the one that six calls, each made in the world the sleep
    before it left and each followed by its sleep, lead to: every one of
    the six calls is made, and nothing else is done. *)
Theorem C2_retries_exhausted :
  forall (E : Env) (A : Type) (fn : world -> res A * world) (w : world),
    (forall k, (k < 6)%nat ->
       retried (fst (fn (attempt_world fn default_base k 0 w))) = true) ->
    let run := with_backoff fn default_max_retries default_base w in
    let w1 := time_sleep 1 (snd (fn w)) in
    let w2 := time_sleep 2 (snd (fn w1)) in
    let w3 := time_sleep 4 (snd (fn w2)) in
    let w4 := time_sleep 8 (snd (fn w3)) in
    let w5 := time_sleep 16 (snd (fn w4)) in
    let w6 := time_sleep 32 (snd (fn w5)) in
    fst (fst run) = Raise (RuntimeError msg_retries_exceeded)
    /\ snd (fst run) = w6
    /\ calls (snd run) = 6%nat
    /\ snd run = [Called; Slept 1; Called; Slept 2; Called; Slept 4;
                  Called; Slept 8; Called; Slept 16; Called; Slept 32]%Z.
Proof.
  intros E A fn w Hall run. subst run. unfold with_backoff.
  rewrite backoff_loop_exhausted by assumption.
  repeat split.
Qed.

(** C2 on a service that is always rate limited: the world counts the calls
    made, and six are. *)
Lemma C2_retries_exhausted_witness :
  let E := sample_env always_rate_limited in
  let fn := @responses_create E
              {| req_model := MODEL; req_reasoning_effort := u "medium";
                 req_input := u "hello"; req_max_output_tokens := 4000 |} in
  let run := with_backoff fn default_max_retries default_base 0%nat in
  fst (fst run) = Raise (RuntimeError msg_retries_exceeded)
  /\ snd (fst run) = 6%nat
  /\ calls (snd run) = 6%nat
  /\ snd run = [Called; Slept 1; Called; Slept 2; Called; Slept 4;
                Called; Slept 8; Called; Slept 16; Called; Slept 32]%Z.
Proof.
  intros E fn.
  apply (@C2_retries_exhausted E response fn 0%nat).
  intros k Hk. reflexivity.
Defined.

(** C7.  An [APIStatusError] whose status is outside 429, 500, 502, 503, 504
    is not retried: at whatever attempt [k] it is raised (the attempts before
    it having been retried), [with_backoff] raises it again at once; the
    trace ends with the call that raised it, with no sleep and no attempt
    after it. *)
Theorem C7_non_retryable_propagates :
  forall (E : Env) (A : Type) (fn : world -> res A * world)
         (max_retries : nat) (base : Z) (w : world)
         (k : nat) (status : Z) (w1 : world),
    (k < max_retries)%nat ->
    (forall j, (j < k)%nat ->
               retried (fst (fn (attempt_world fn base j 0 w))) = true) ->
    fn (attempt_world fn base k 0 w) = (Raise (APIStatusError status), w1) ->
    retryable_status status = false ->
    with_backoff fn max_retries base w =
    (Raise (APIStatusError status), w1, retry_trace base k 0 ++ [Called]).
Proof.
  intros E A fn max_retries base w k status w1 Hk Hpre Hfn Hst.
  unfold with_backoff.
  replace max_retries with (k + S (max_retries - S k))%nat by lia.
  rewrite backoff_loop_prefix by assumption.
  simpl backoff_loop. rewrite Hfn, Hst. reflexivity.
Qed.

(** C7 on a service that is rate limited once and then answers 400: the
    second call ends the run. *)
Lemma C7_non_retryable_propagates_witness :
  let E := sample_env (fun n => match n with
                                | O => Raise RateLimitError
                                | S _ => Raise (APIStatusError 400)
                                end) in
  let fn := @responses_create E
              {| req_model := MODEL; req_reasoning_effort := u "medium";
                 req_input := u "hello"; req_max_output_tokens := 4000 |} in
  with_backoff fn default_max_retries default_base 0%nat =
  (Raise (APIStatusError 400), 2%nat, [Called; Slept 1; Called]).
Proof.
  intros E fn.
  apply (@C7_non_retryable_propagates E response fn default_max_retries
           default_base 0%nat 1%nat 400%Z 2%nat).
  - unfold default_max_retries. lia.
  - intros j Hj. assert (j = 0)%nat as -> by lia. reflexivity.
  - reflexivity.
  - reflexivity.
Defined.

(* ================================================================== *)
(** * The fuel of the scanners *)
(* ================================================================== *)

(** The two scanners that recurse on what is left of the text take a fuel;
    the fuel they are given is enough, and more of it changes nothing. *)

Lemma startswith_length (p s : str) :
  startswith p s = true -> (List.length p <= List.length s)%nat.
Proof.
  revert s. induction p as [| x p IH]; intros s; simpl; [lia |].
  destruct s as [| y s]; [discriminate |].
  intros Hs. apply andb_true_iff in Hs as [_ Hs]. apply IH in Hs. simpl. lia.
Qed.

Lemma split_on_length (needle s before after : str) :
  split_on needle s = Some (before, after) ->
  (List.length after + List.length needle <= List.length s)%nat.
Proof.
  revert before after. induction s as [| c s IH]; intros before after.
  - simpl. destruct (startswith needle []) eqn:Hs; [| discriminate].
    intros [= <- <-]. apply startswith_length in Hs.
    rewrite length_skipn. simpl in *. lia.
  - simpl split_on. destruct (startswith needle (c :: s)) eqn:Hs.
    + intros [= <- <-]. apply startswith_length in Hs.
      rewrite length_skipn. lia.
    + destruct (split_on needle s) as [[b a] |]; [| discriminate].
      intros [= <- <-]. specialize (IH b a eq_refl). simpl. lia.
Qed.

Lemma lstrip_length (s : str) : (List.length (lstrip s) <= List.length s)%nat.
Proof.
  induction s as [| c s IH]; simpl; [lia |].
  destruct (is_space c); simpl; lia.
Qed.

Lemma skip_json_length (s : str) : (List.length (skip_json s) <= List.length s)%nat.
Proof.
  unfold skip_json. destruct (startswith (u "json") s); [| lia].
  rewrite length_skipn. lia.
Qed.

(** Fuel: the length of the text is enough, and more changes nothing. *)
Lemma findall_code_blocks_fuel (f1 : nat) : forall f2 text,
  (List.length text <= f1)%nat -> (List.length text <= f2)%nat ->
  findall_code_blocks_from f1 text = findall_code_blocks_from f2 text.
Proof.
  induction f1 as [| f1 IH]; intros f2 text H1 H2.
  - destruct text; [| simpl in H1; lia].
    destruct f2; reflexivity.
  - destruct f2 as [| f2].
    + destruct text; [reflexivity | simpl in H2; lia].
    + simpl.
      destruct (split_on fence text) as [[b opened] |] eqn:Ho; [| reflexivity].
      destruct (split_on fence (lstrip (skip_json opened))) as [[g rest] |] eqn:Hc;
        [| reflexivity].
      f_equal. apply split_on_length in Ho, Hc.
      pose proof (lstrip_length (skip_json opened)).
      pose proof (skip_json_length opened).
      change (List.length fence) with 3%nat in *.
      apply IH; lia.
Qed.

Lemma skip_ws_length (s : str) : (List.length (skip_ws s) <= List.length s)%nat.
Proof.
  induction s as [| c s IH]; simpl; [lia |].
  destruct (json_ws c); simpl; lia.
Qed.

Lemma cons_chunk_some (c : char) (r : option (str * str)) (body rest : str) :
  cons_chunk c r = Some (body, rest) ->
  exists body', r = Some (body', rest).
Proof.
  destruct r as [[b t] |]; simpl; [| discriminate].
  intros [= <- <-]. eauto.
Qed.

Lemma scanstring_shrinks (n : nat) : forall s body rest,
  (List.length s <= n)%nat ->
  scanstring s = Some (body, rest) ->
  (List.length rest < List.length s)%nat.
Proof.
  induction n as [| n IH]; intros s body rest Hlen Hs.
  - destruct s; [discriminate | simpl in Hlen; lia].
  - destruct s as [| c s1]; [discriminate |].
    simpl in Hs, Hlen.
    destruct (c =? 34); [injection Hs as <- <-; simpl; lia |].
    assert (forall x t b, (List.length t <= n)%nat ->
                          cons_chunk x (scanstring t) = Some (b, rest) ->
                          (List.length rest < List.length t)%nat) as Hrec.
    { intros x t b Ht Hc. apply cons_chunk_some in Hc as [b' Hc].
      exact (IH _ _ _ Ht Hc). }
    destruct (c =? 92).
    + destruct s1 as [| e s2]; [discriminate |].
      destruct (e =? 117).
      * destruct s2 as [| h1 [| h2 [| h3 [| h4 s3]]]]; try discriminate.
        destruct (hex4 h1 h2 h3 h4) as [cp |]; [| discriminate].
        simpl in Hlen.
        destruct s3 as [| b [| v [| g1 [| g2 [| g3 [| g4 s4]]]]]];
          try (apply Hrec in Hs; simpl in *; lia).
        destruct (is_high_surrogate cp && (b =? 92) && (v =? 117));
          [| apply Hrec in Hs; simpl in *; lia].
        destruct (hex4 g1 g2 g3 g4) as [cp2 |]; [| discriminate].
        destruct (is_low_surrogate cp2);
          apply Hrec in Hs; simpl in *; lia.
      * destruct (unescape e); [| discriminate].
        apply Hrec in Hs; simpl in *; lia.
    + destruct (c <=? 31); [discriminate |].
      apply Hrec in Hs; simpl in *; lia.
Qed.

Lemma take_digits_length (s : str) :
  (List.length (fst (take_digits s)) + List.length (snd (take_digits s))
   = List.length s)%nat.
Proof.
  induction s as [| c s IH]; simpl; [reflexivity |].
  destruct (is_digit c); [| reflexivity].
  destruct (take_digits s) as [ds rest]. simpl in *. lia.
Qed.

Lemma scan_int_part_shrinks (s ints rest : str) :
  scan_int_part s = Some (ints, rest) ->
  (List.length rest < List.length s)%nat.
Proof.
  unfold scan_int_part. destruct s as [| d s']; [discriminate |].
  destruct (d =? 48); [intros [= <- <-]; simpl; lia |].
  destruct (is_digit d) eqn:Hd; [| discriminate].
  simpl take_digits. rewrite Hd.
  pose proof (take_digits_length s') as Hl.
  destruct (take_digits s') as [ds r]. intros [= <- <-].
  simpl in *. lia.
Qed.

Lemma scan_fraction_shrinks (s ds rest : str) :
  scan_fraction s = Some (ds, rest) ->
  (List.length rest <= List.length s)%nat.
Proof.
  unfold scan_fraction. destruct s as [| dot [| d s']]; try discriminate.
  destruct ((dot =? 46) && is_digit d); [| discriminate].
  pose proof (take_digits_length (tl (dot :: d :: s'))) as Hl.
  destruct (take_digits (tl (dot :: d :: s'))) as [ds' r].
  intros [= <- <-]. simpl in *. lia.
Qed.

Lemma scan_exponent_shrinks (s rest : str) (e : Z) :
  scan_exponent s = Some (e, rest) ->
  (List.length rest <= List.length s)%nat.
Proof.
  unfold scan_exponent. destruct s as [| c s1]; [discriminate |].
  destruct ((c =? 101) || (c =? 69)); [| discriminate].
  assert (forall t, (List.length (snd (take_digits t)) <= List.length t)%nat) as Ht.
  { intros t. pose proof (take_digits_length t). lia. }
  destruct s1 as [| sg s1'].
  - simpl. discriminate.
  - destruct (sg =? 45); [| destruct (sg =? 43)];
      match goal with
      | |- context [take_digits ?t] =>
          pose proof (Ht t) as Hl; destruct (take_digits t) as [[| d ds] r];
          [discriminate | intros [= <- <-]; simpl in *; lia]
      end.
Qed.

Lemma scan_number_shrinks `{Runtime} (s rest : str) (v : pyval) :
  scan_number s = Ret (v, rest) ->
  (List.length rest < List.length s)%nat.
Proof.
  unfold scan_number.
  assert (exists s1, (List.length s1 <= List.length s)%nat /\
                     (let (negative, s1') :=
                        match s with
                        | c :: s' => if c =? 45 then (true, s') else (false, s)
                        | [] => (false, s)
                        end in s1' = s1)) as [s1 [Hs1 Heq]].
  { destruct s as [| c s']; [exists []; split; [simpl; lia | reflexivity] |].
    destruct (c =? 45); eexists; (split; [| reflexivity]); simpl; lia. }
  destruct (match s with
            | c :: s' => if c =? 45 then (true, s') else (false, s)
            | [] => (false, s)
            end) as [negative s1'].
  subst s1'.
  destruct (scan_int_part s1) as [[ints s2] |] eqn:Hi; [| discriminate].
  apply scan_int_part_shrinks in Hi.
  destruct (scan_fraction s2) as [[ds r] |] eqn:Hf.
  - apply scan_fraction_shrinks in Hf.
    destruct (scan_exponent r) as [[e r'] |] eqn:He.
    + apply scan_exponent_shrinks in He. intros [= <- <-]. lia.
    + intros [= <- <-]. lia.
  - destruct (scan_exponent s2) as [[e r'] |] eqn:He.
    + apply scan_exponent_shrinks in He. intros [= <- <-]. lia.
    + destruct ((0 <? int_max_str_digits)
                && (int_max_str_digits <? N.of_nat (List.length ints)));
        [discriminate |].
      intros [= <- <-]. lia.
Qed.

Ltac ws_facts :=
  repeat match goal with
         | H : skip_ws ?x = ?y |- _ =>
             lazymatch goal with
             | _ : (List.length y <= List.length x)%nat |- _ => fail
             | _ => let L := fresh "Hws" in
                    pose proof (skip_ws_length x) as L; rewrite H in L
             end
         end.

Lemma skipn_startswith_shrinks (p s : str) :
  p <> [] -> startswith p s = true ->
  (List.length (skipn (List.length p) s) < List.length s)%nat.
Proof.
  intros Hp Hs. apply startswith_length in Hs. rewrite length_skipn.
  destruct p; [contradiction |]. simpl in *. lia.
Qed.

Section ScannerFuel.
Context `{Runtime}.

Lemma scan_shrinks (f : nat) : forall depth,
  (forall s v r, scan_once f depth s = Ret (v, r) ->
                 (List.length r < List.length s)%nat)
  /\ (forall s acc v r, parse_members f depth s acc = Ret (v, r) ->
                        (List.length r < List.length s)%nat)
  /\ (forall s acc v r, parse_elements f depth s acc = Ret (v, r) ->
                        (List.length r < List.length s)%nat).
Proof.
  induction f as [| f IH]; intros depth; [repeat split; discriminate |].
  split; [| split].
  - intros s v r. cbn [scan_once]. destruct s as [| c s1]; [discriminate |].
    destruct (c =? 34).
    { destruct (scanstring s1) as [[body rest] |] eqn:Hs; [| discriminate].
      intros [= <- <-].
      pose proof (@scanstring_shrinks (List.length s1) s1 _ _ (le_n _) Hs).
      simpl; lia. }
    destruct (c =? 123).
    { destruct depth as [| depth']; [discriminate |].
      destruct (skip_ws s1) as [| c' s2] eqn:Hw; [discriminate |]. ws_facts.
      destruct (c' =? 125).
      - intros [= <- <-]. simpl in *. lia.
      - intros Hm. apply (proj1 (proj2 (IH depth'))) in Hm. simpl in *. lia. }
    destruct (c =? 91).
    { destruct depth as [| depth']; [discriminate |].
      destruct (skip_ws s1) as [| c' s2] eqn:Hw; [discriminate |]. ws_facts.
      destruct (c' =? 93).
      - intros [= <- <-]. simpl in *. lia.
      - intros Hm. apply (proj2 (proj2 (IH depth'))) in Hm. simpl in *. lia. }
    repeat match goal with
           | |- (if startswith ?p ?t then _ else _) = _ -> _ =>
               destruct (startswith p t) eqn:?;
               [intros [= <- <-];
                apply (@skipn_startswith_shrinks p t); [discriminate | assumption] |]
           end.
    apply scan_number_shrinks.
  - destruct (IH depth) as [IHs [IHm IHe]].
    intros s acc v r. cbn [parse_members]. destruct s as [| q s1]; [discriminate |].
    destruct (q =? 34); [| discriminate].
    destruct (scanstring s1) as [[key s2] |] eqn:Hs; [| discriminate].
    pose proof (@scanstring_shrinks (List.length s1) s1 _ _ (le_n _) Hs) as Hk.
    destruct (skip_ws s2) as [| colon s3] eqn:Hw2; [discriminate |].
    destruct (colon =? 58); [| discriminate].
    destruct (scan_once f depth (skip_ws s3)) as [[v' s4] | e] eqn:Hv;
      [| discriminate].
    apply IHs in Hv. pose proof (skip_ws_length s3).
    destruct (skip_ws s4) as [| d s5] eqn:Hw4; [discriminate |]. ws_facts.
    destruct (d =? 125).
    + intros [= <- <-]. simpl in *. lia.
    + destruct (d =? 44); [| discriminate].
      intros Hm. apply IHm in Hm. pose proof (skip_ws_length s5).
      simpl in *. lia.
  - destruct (IH depth) as [IHs [IHm IHe]].
    intros s acc v r. cbn [parse_elements].
    destruct (scan_once f depth s) as [[v' s1] | e] eqn:Hv; [| discriminate].
    apply IHs in Hv.
    destruct (skip_ws s1) as [| d s2] eqn:Hw; [discriminate |]. ws_facts.
    destruct (d =? 93).
    + intros [= <- <-]. simpl in *. lia.
    + destruct (d =? 44); [| discriminate].
      intros Hm. apply IHe in Hm. pose proof (skip_ws_length s2).
      simpl in *. lia.
Qed.

(** Fuel: beyond twice the length of the text it does not matter. *)
Lemma scan_fuel (n : nat) : forall s depth, (List.length s <= n)%nat ->
  (forall f f', (2 * List.length s + 1 <= f)%nat ->
                (2 * List.length s + 1 <= f')%nat ->
                scan_once f depth s = scan_once f' depth s)
  /\ (forall acc f f', (2 * List.length s + 1 <= f)%nat ->
                       (2 * List.length s + 1 <= f')%nat ->
                       parse_members f depth s acc = parse_members f' depth s acc)
  /\ (forall acc f f', (2 * List.length s + 2 <= f)%nat ->
                       (2 * List.length s + 2 <= f')%nat ->
                       parse_elements f depth s acc = parse_elements f' depth s acc).
Proof.
  induction n as [| n IH]; intros s depth Hlen.
  - destruct s; [| simpl in Hlen; lia].
    repeat split; intros; repeat match goal with
                                 | x : nat |- _ => destruct x; [simpl in *; lia |]
                                 end; reflexivity.
  - assert (forall f f', (2 * List.length s + 1 <= f)%nat ->
                         (2 * List.length s + 1 <= f')%nat ->
                         scan_once f depth s = scan_once f' depth s) as Hscan.
    { intros f f' Hf Hf'.
      destruct f as [| g]; [lia |]. destruct f' as [| g']; [lia |].
      cbn [scan_once]. destruct s as [| c s1]; [reflexivity |]. simpl in Hlen, Hf, Hf'.
      destruct (c =? 34); [reflexivity |].
      pose proof (skip_ws_length s1) as Hw.
      destruct (c =? 123).
      { destruct depth as [| depth']; [reflexivity |].
        destruct (skip_ws s1) as [| c' s2] eqn:Hs2; [reflexivity |].
        destruct (c' =? 125); [reflexivity |].
        apply (IH (c' :: s2)); simpl in *; lia. }
      destruct (c =? 91).
      { destruct depth as [| depth']; [reflexivity |].
        destruct (skip_ws s1) as [| c' s2] eqn:Hs2; [reflexivity |].
        destruct (c' =? 93); [reflexivity |].
        apply (IH (c' :: s2)); simpl in *; lia. }
      reflexivity. }
    split; [exact Hscan | split].
    + intros acc f f' Hf Hf'.
      destruct f as [| g]; [lia |]. destruct f' as [| g']; [lia |].
      cbn [parse_members]. destruct s as [| q s1]; [reflexivity |]. simpl in Hlen, Hf, Hf'.
      destruct (q =? 34); [| reflexivity].
      destruct (scanstring s1) as [[key s2] |] eqn:Hs; [| reflexivity].
      pose proof (@scanstring_shrinks (List.length s1) s1 _ _ (le_n _) Hs) as Hk.
      pose proof (skip_ws_length s2) as Hw2.
      destruct (skip_ws s2) as [| colon s3] eqn:Hs3; [reflexivity |].
      destruct (colon =? 58); [| reflexivity].
      pose proof (skip_ws_length s3) as Hw3. simpl in Hw2.
      assert (scan_once g depth (skip_ws s3) = scan_once g' depth (skip_ws s3))
        as -> by (apply (IH (skip_ws s3)); lia).
      destruct (scan_once g' depth (skip_ws s3)) as [[v s4] | e] eqn:Hv;
        [| reflexivity].
      apply (proj1 (scan_shrinks g' depth)) in Hv.
      pose proof (skip_ws_length s4) as Hw4.
      destruct (skip_ws s4) as [| d s5] eqn:Hs5; [reflexivity |].
      destruct (d =? 125); [reflexivity |].
      destruct (d =? 44); [| reflexivity].
      pose proof (skip_ws_length s5) as Hw5. simpl in Hw4.
      apply (IH (skip_ws s5)); lia.
    + intros acc f f' Hf Hf'.
      destruct f as [| g]; [lia |]. destruct f' as [| g']; [lia |].
      cbn [parse_elements]. rewrite (Hscan g g') by lia.
      destruct (scan_once g' depth s) as [[v s1] | e] eqn:Hv; [| reflexivity].
      apply (proj1 (scan_shrinks g' depth)) in Hv.
      pose proof (skip_ws_length s1) as Hw1.
      destruct (skip_ws s1) as [| d s2] eqn:Hs2; [reflexivity |].
      destruct (d =? 93); [reflexivity |].
      destruct (d =? 44); [| reflexivity].
      pose proof (skip_ws_length s2) as Hw2. simpl in Hw1.
      apply (IH (skip_ws s2)); lia.
Qed.

(** The fuel [json_loads] gives is enough: more would change nothing. *)
Lemma json_loads_fuel (s : str) (extra : nat) :
  scan_once (S (2 * List.length s) + extra) json_max_depth (skip_ws s)
  = scan_once (S (2 * List.length s)) json_max_depth (skip_ws s).
Proof.
  pose proof (skip_ws_length s) as Hw.
  apply (@scan_fuel (List.length (skip_ws s)) (skip_ws s) json_max_depth
           (le_n _)); lia.
Qed.

(** The scanner raises the decoding error or one of the two limits of the
    interpreter, nothing else. *)
Lemma scan_raises (f : nat) : forall depth,
  (forall s e, scan_once f depth s = Raise e ->
               e = JSONDecodeError \/ e = RecursionError \/ e = ValueError)
  /\ (forall s acc e, parse_members f depth s acc = Raise e ->
               e = JSONDecodeError \/ e = RecursionError \/ e = ValueError)
  /\ (forall s acc e, parse_elements f depth s acc = Raise e ->
               e = JSONDecodeError \/ e = RecursionError \/ e = ValueError).
Proof.
  induction f as [| f IH]; intros depth;
    [repeat split; intros; cbn in *; left; congruence |].
  split; [| split].
  - intros s e. cbn [scan_once]. unfold scan_number.
    destruct (IH (pred depth)) as [_ [IHm IHe]].
    repeat match goal with
           | |- context [match ?x with _ => _ end] =>
               lazymatch x with
               | context [match _ with _ => _ end] => fail
               | parse_members _ _ _ _ => fail
               | parse_elements _ _ _ _ => fail
               | _ => destruct x eqn:?
               end
           end;
      try discriminate; try (intros [= <-]; auto);
      try (intros Hm; cbn [pred] in *; eauto).
  - destruct (IH depth) as [IHs [IHm IHe]].
    intros s acc e. cbn [parse_members].
    repeat match goal with
           | |- context [match ?x with _ => _ end] =>
               lazymatch x with
               | context [match _ with _ => _ end] => fail
               | parse_members _ _ _ _ => fail
               | _ => destruct x eqn:?
               end
           end;
      try discriminate; try (intros [= <-]; eauto); try (intros Hm; eauto).
  - destruct (IH depth) as [IHs [IHm IHe]].
    intros s acc e. cbn [parse_elements].
    repeat match goal with
           | |- context [match ?x with _ => _ end] =>
               lazymatch x with
               | context [match _ with _ => _ end] => fail
               | parse_elements _ _ _ _ => fail
               | _ => destruct x eqn:?
               end
           end;
      try discriminate; try (intros [= <-]; eauto); try (intros Hm; eauto).
Qed.
End ScannerFuel.


(* ================================================================== *)
(** * Properties of response extraction *)
(* ================================================================== *)

Section ExtractionFacts.
Context `{Runtime}.

(** [json_loads] returns a value or raises the decoding error or one of the
    two limits of the interpreter, nothing else. *)
Lemma json_loads_outcome (s : str) :
  (exists v, json_loads s = Ret v)
  \/ json_loads s = Raise JSONDecodeError
  \/ json_loads s = Raise RecursionError
  \/ json_loads s = Raise ValueError.
Proof.
  unfold json_loads.
  destruct (startswith [65279] s); [now right; left |].
  destruct (scan_once _ _ _) as [[v rest] | e] eqn:Hs.
  - destruct (skip_ws rest); [left; now exists v | now right; left].
  - right. apply (proj1 (scan_raises _ _)) in Hs.
    destruct Hs as [-> | [-> | ->]]; auto.
Qed.

Lemma first_parsed_app (a b : list str) :
  first_parsed (a ++ b) =
  match first_parsed a with
  | Ret None => first_parsed b
  | r => r
  end.
Proof.
  induction a as [| c a IH]; simpl; [reflexivity |].
  destruct (json_loads c) as [v | e]; [reflexivity |].
  destruct e; try reflexivity. exact IH.
Qed.

Lemma try_blocks_spec (blocks : list str) (otherwise : res pyval) :
  try_blocks blocks otherwise =
  match first_parsed (map strip blocks) with
  | Ret (Some v) => Ret v
  | Ret None => otherwise
  | Raise e => Raise e
  end.
Proof.
  induction blocks as [| b blocks IH]; simpl; [reflexivity |].
  unfold try_loads. destruct (json_loads (strip b)) as [v | e]; [reflexivity |].
  destruct e; try reflexivity. exact IH.
Qed.
End ExtractionFacts.

(** [find] and [rfind] return -1 or an index. *)
Lemma find_range (c : char) (s : str) :
  (find c s = -1 \/ 0 <= find c s < len s)%Z.
Proof.
  unfold len. induction s as [| x s IH]; simpl; [now left |].
  destruct (x =? c); [right; lia |].
  destruct (Z.eqb_spec (find c s) (-1)); [now left | right; lia].
Qed.

Lemma rfind_range (c : char) (s : str) :
  (rfind c s = -1 \/ 0 <= rfind c s < len s)%Z.
Proof.
  unfold len. induction s as [| x s IH]; simpl; [now left |].
  destruct (Z.eqb_spec (rfind c s) (-1)).
  - destruct (x =? c); [right; lia | now left].
  - right; lia.
Qed.

Lemma from_first_find (c : char) (s : str) :
  from_first c s =
  if (find c s =? -1)%Z then None else Some (skipn (Z.to_nat (find c s)) s).
Proof.
  induction s as [| x s IH]; simpl; [reflexivity |].
  destruct (x =? c); [reflexivity |].
  rewrite IH. destruct (find_range c s) as [Hf | Hf].
  - rewrite Hf. reflexivity.
  - destruct (Z.eqb_spec (find c s) (-1)); [lia |].
    destruct (Z.eqb_spec (find c s + 1) (-1)); [lia |].
    replace (Z.to_nat (find c s + 1)) with (S (Z.to_nat (find c s))) by lia.
    reflexivity.
Qed.

Lemma up_to_last_rfind (c : char) (s : str) :
  up_to_last c s =
  if (rfind c s =? -1)%Z then None
  else Some (firstn (Z.to_nat (rfind c s + 1)) s).
Proof.
  induction s as [| x s IH]; simpl; [reflexivity |].
  rewrite IH. destruct (rfind_range c s) as [Hr | Hr].
  - rewrite Hr. simpl. destruct (x =? c); reflexivity.
  - destruct (Z.eqb_spec (rfind c s) (-1)); [lia |].
    destruct (Z.eqb_spec (rfind c s + 1) (-1)); [lia |].
    replace (Z.to_nat (rfind c s + 1 + 1)) with (S (Z.to_nat (rfind c s + 1))) by lia.
    reflexivity.
Qed.

Lemma rfind_skipn (c : char) (n : nat) : forall s,
  rfind c (skipn n s) =
  (if rfind c s <? Z.of_nat n then -1 else rfind c s - Z.of_nat n)%Z.
Proof.
  induction n as [| n IH]; intros s.
  - simpl skipn. destruct (rfind_range c s) as [Hr | Hr].
    + rewrite Hr. reflexivity.
    + destruct (Z.ltb_spec (rfind c s) (Z.of_nat 0)); lia.
  - destruct s as [| x s]; [reflexivity |].
    simpl skipn. rewrite IH.
    change (rfind c (x :: s))
      with (if (rfind c s =? -1)%Z then (if x =? c then 0%Z else (-1)%Z)
            else (rfind c s + 1)%Z).
    rewrite Nat2Z.inj_succ.
    destruct (rfind_range c s) as [Hr | Hr];
      destruct (Z.eqb_spec (rfind c s) (-1)); try lia;
      destruct (x =? c);
      repeat match goal with
             | |- context [(?a <? ?b)%Z] => destruct (Z.ltb_spec a b)
             end; lia.
Qed.

(** The slice the source takes is the span from the first opening brace to
    the last closing brace, and it is taken exactly when there is one. *)
Lemma brace_span_slice (text : str) :
  brace_span text =
  (let start := find lbrace text in
   let stop := (rfind rbrace text + 1)%Z in
   if negb (start =? -1)%Z && (stop >? start)%Z
   then Some (slice text start stop) else None).
Proof.
  cbv zeta. unfold brace_span, slice. rewrite from_first_find.
  destruct (find_range lbrace text) as [Hf | Hf].
  - rewrite Hf. reflexivity.
  - destruct (Z.eqb_spec (find lbrace text) (-1)); [lia |]. simpl negb.
    rewrite up_to_last_rfind, rfind_skipn.
    rewrite Z2Nat.id by lia. simpl andb.
    destruct (Z.ltb_spec (rfind rbrace text) (find lbrace text)).
    + simpl. destruct (Z.gtb_spec (rfind rbrace text + 1) (find lbrace text)); [lia |].
      reflexivity.
    + destruct (Z.eqb_spec (rfind rbrace text - find lbrace text) (-1)); [lia |].
      destruct (Z.gtb_spec (rfind rbrace text + 1) (find lbrace text)); [| lia].
      do 2 f_equal. lia.
Qed.


Section ExtractionOrder.
Context `{Runtime}.

(** Extraction is the outcome of trying its candidates in order, with the
    parse-failure object when none parses. *)
Lemma extract_first_parsed (text : str) :
  extract_json_from_response text =
  match first_parsed (candidates (findall_code_blocks text) text) with
  | Ret (Some v) => Ret v
  | Ret None => Ret (parse_failure text)
  | Raise e => Raise e
  end.
Proof.
  unfold extract_json_from_response, candidates.
  rewrite try_blocks_spec, first_parsed_app.
  destruct (first_parsed (map strip (findall_code_blocks text)))
    as [[v |] | e]; try reflexivity.
  unfold try_loads at 1. simpl app. cbn [first_parsed].
  destruct (json_loads text) as [v | e]; [reflexivity |].
  destruct e; try reflexivity.
  rewrite brace_span_slice. cbv zeta.
  destruct (negb (find lbrace text =? -1)%Z
            && (rfind rbrace text + 1 >? find lbrace text)%Z);
    [| reflexivity].
  unfold try_loads. cbn [first_parsed].
  destruct (json_loads (slice text (find lbrace text) (rfind rbrace text + 1)))
    as [v | e]; [reflexivity |].
  destruct e; reflexivity.
Qed.
End ExtractionOrder.

(* ------------------------------------------------------------------ *)
(** ** Where extraction raises *)

Lemma split_on_contains (needle s : str) :
  contains needle s =
  match split_on needle s with Some _ => true | None => false end.
Proof.
  induction s as [| c s IH]; cbn [contains split_on].
  - destruct (startswith needle []); reflexivity.
  - destruct (startswith needle (c :: s)); [reflexivity |].
    rewrite IH. cbn [orb]. destruct (split_on needle s) as [[b a] |]; reflexivity.
Qed.

Lemma findall_no_fence (text : str) :
  contains fence text = false -> findall_code_blocks text = [].
Proof.
  intros Hc. rewrite split_on_contains in Hc.
  unfold findall_code_blocks.
  destruct (List.length text) as [| n]; [reflexivity |].
  cbn [findall_code_blocks_from].
  destruct (split_on fence text); [discriminate | reflexivity].
Qed.

Lemma contains_fence_repeat (c : char) (n : nat) :
  c <> 96 -> contains fence (repeat c n) = false.
Proof.
  intros Hc. induction n as [| n IH]; [reflexivity |].
  cbn [repeat]. cbn [contains]. rewrite IH.
  change fence with [96; 96; 96]. cbn [startswith].
  destruct (N.eqb_spec 96 c); [congruence | reflexivity].
Qed.

Lemma skip_ws_repeat (c : char) (n : nat) :
  json_ws c = false -> skip_ws (repeat c n) = repeat c n.
Proof. intros Hc. destruct n; [reflexivity |]. simpl. rewrite Hc. reflexivity. Qed.

Lemma take_digits_repeat (n : nat) : take_digits (repeat 49 n) = (repeat 49 n, []).
Proof.
  induction n as [| n IH]; [reflexivity |].
  cbn [repeat take_digits]. rewrite IH. reflexivity.
Qed.

Section ExtractionRaises.
Context `{Runtime}.

(** Brackets nested deeper than the interpreter allows. *)
Lemma scan_deep (depth : nat) : forall f n,
  (depth < n)%nat -> (2 * depth + 1 <= f)%nat ->
  scan_once f depth (repeat 91 n) = Raise RecursionError.
Proof.
  induction depth as [| depth IH]; intros f n Hn Hf.
  - destruct f as [| f]; [lia |]. destruct n as [| n]; [lia |]. reflexivity.
  - destruct f as [| [| f]]; try lia. destruct n as [| [| n]]; try lia.
    cbn [repeat scan_once]. change (91 =? 34) with false.
    change (91 =? 123) with false. change (91 =? 91) with true. cbv iota.
    change (91 :: repeat 91 n) with (repeat 91 (S n)).
    rewrite skip_ws_repeat by reflexivity.
    cbn [repeat]. change (91 =? 93) with false. cbv iota.
    cbn [parse_elements].
    change (91 :: repeat 91 n) with (repeat 91 (S n)).
    rewrite IH by lia. reflexivity.
Qed.

Lemma json_loads_deep (n : nat) :
  (json_max_depth < n)%nat -> json_loads (repeat 91 n) = Raise RecursionError.
Proof.
  intros Hn. unfold json_loads.
  destruct n as [| n]; [lia |].
  change (startswith [65279] (repeat 91 (S n))) with false. cbv iota.
  rewrite skip_ws_repeat by reflexivity.
  rewrite scan_deep; [reflexivity | lia |].
  rewrite repeat_length. lia.
Qed.

(** An integer literal with more digits than the interpreter converts. *)
Lemma json_loads_long_int (n : nat) :
  0 < int_max_str_digits -> int_max_str_digits < N.of_nat n ->
  json_loads (repeat 49 n) = Raise ValueError.
Proof.
  intros Hpos Hn. unfold json_loads.
  destruct n as [| n]; [simpl in Hn; lia |].
  change (startswith [65279] (repeat 49 (S n))) with false. cbv iota.
  rewrite skip_ws_repeat by reflexivity.
  cbn [scan_once repeat].
  change (49 =? 34) with false. change (49 =? 123) with false.
  change (49 =? 91) with false. cbv iota.
  change (startswith (u "null") (49 :: repeat 49 n)) with false.
  change (startswith (u "true") (49 :: repeat 49 n)) with false.
  change (startswith (u "false") (49 :: repeat 49 n)) with false.
  change (startswith (u "NaN") (49 :: repeat 49 n)) with false.
  change (startswith (u "Infinity") (49 :: repeat 49 n)) with false.
  change (startswith (u "-Infinity") (49 :: repeat 49 n)) with false.
  cbv iota.
  unfold scan_number. cbv beta iota.
  change (49 =? 45) with false. cbv beta iota.
  unfold scan_int_part. cbv beta iota.
  change (49 =? 48) with false. change (is_digit 49) with true. cbv beta iota.
  change (49 :: repeat 49 n) with (repeat 49 (S n)).
  rewrite take_digits_repeat.
  cbn [scan_fraction scan_exponent]. cbv beta iota.
  rewrite repeat_length.
  destruct (N.ltb_spec 0 int_max_str_digits); [| lia].
  destruct (N.ltb_spec int_max_str_digits (N.of_nat (S n))); [| lia].
  reflexivity.
Qed.

Lemma extract_unfenced_raises (text : str) (e : exn) :
  contains fence text = false ->
  json_loads text = Raise e -> e <> JSONDecodeError ->
  extract_json_from_response text = Raise e.
Proof.
  intros Hf Hj He. unfold extract_json_from_response.
  rewrite (findall_no_fence _ Hf). cbn [try_blocks].
  unfold try_loads at 1. rewrite Hj. destruct e; try reflexivity.
  contradiction.
Qed.
End ExtractionRaises.

(** C10.  [extract_json_from_response] does not return on every text: a text
    of brackets nested one deeper than the interpreter lets the decoder go
    makes [json.loads] raise [RecursionError] at the second stage, the
    handlers catch [JSONDecodeError] only, and the error leaves the
    function.  This holds whatever the limit of the interpreter is. *)
Theorem C10_deep_nesting_raises :
  forall R : Runtime,
    extract_json_from_response (repeat 91 (S json_max_depth))
    = Raise RecursionError.
Proof.
  intros R. apply extract_unfenced_raises.
  - apply contains_fence_repeat. discriminate.
  - apply json_loads_deep. lia.
  - discriminate.
Qed.

(** C3.  On a text of 4301 digits, with the default digit limit of 4300,
    there is no fenced block, the whole text is not parsed
    ([json.loads] raises [ValueError], which is not a [JSONDecodeError])
    and, instead of going on to the third stage and returning the object
    with [_parse_error] and [_raw], [extract_json_from_response] raises. *)
Theorem C3_long_number_raises :
  findall_code_blocks (repeat 49 4301) = []
  /\ @json_loads sample_runtime (repeat 49 4301) = Raise ValueError
  /\ @extract_json_from_response sample_runtime (repeat 49 4301)
     = Raise ValueError.
Proof.
  assert (contains fence (repeat 49 4301) = false) as Hf
    by (apply contains_fence_repeat; discriminate).
  assert (@json_loads sample_runtime (repeat 49 4301) = Raise ValueError) as Hj
    by (apply json_loads_long_int; reflexivity).
  split; [exact (findall_no_fence _ Hf) |]. split; [exact Hj |].
  apply extract_unfenced_raises; [exact Hf | exact Hj | discriminate].
Qed.

(* ------------------------------------------------------------------ *)
(** ** The fenced blocks *)

Lemma startswith_inv (p s : str) :
  startswith p s = true -> exists rest, s = (p ++ rest)%list.
Proof.
  revert s. induction p as [| x p IH]; intros s Hs; [now exists s |].
  destruct s as [| y s]; [discriminate |]. simpl in Hs.
  apply andb_true_iff in Hs as [Hxy Hs].
  apply N.eqb_eq in Hxy as <-.
  destruct (IH s Hs) as [rest ->]. now exists rest.
Qed.

Lemma startswith_app (p rest : str) : startswith p (p ++ rest) = true.
Proof.
  induction p as [| x p IH]; [reflexivity |]. simpl.
  rewrite N.eqb_refl. exact IH.
Qed.

(** Whether a text starts with [p] is decided by its first characters. *)
Lemma startswith_prefix (p : str) : forall a b,
  (List.length p <= List.length a)%nat ->
  startswith p (a ++ b) = startswith p a.
Proof.
  induction p as [| x p IH]; intros a b Hlen; [reflexivity |].
  destruct a as [| y a]; [simpl in Hlen; lia |].
  simpl. rewrite IH by (simpl in Hlen; lia). reflexivity.
Qed.

Lemma split_on_spec (needle : str) : forall s before after,
  split_on needle s = Some (before, after) ->
  s = (before ++ needle ++ after)%list.
Proof.
  induction s as [| c s IH]; intros before after.
  - cbn [split_on]. destruct (startswith needle []) eqn:Hs; [| discriminate].
    intros [= <- <-]. destruct needle; [reflexivity | discriminate].
  - cbn [split_on]. destruct (startswith needle (c :: s)) eqn:Hs.
    + intros [= <- <-]. destruct (startswith_inv _ _ Hs) as [rest Hrest].
      rewrite Hrest. rewrite skipn_app, skipn_all, Nat.sub_diag. reflexivity.
    + destruct (split_on needle s) as [[b a] |]; [| discriminate].
      intros [= <- <-]. rewrite (IH b a eq_refl). reflexivity.
Qed.

Lemma contains_app (needle a rest : str) :
  contains needle (a ++ needle ++ rest) = true.
Proof.
  induction a as [| c a IH].
  - destruct needle as [| x needle]; [destruct rest; reflexivity |].
    change ([] ++ (x :: needle) ++ rest)%list with (x :: (needle ++ rest))%list.
    cbn [contains].
    change (x :: (needle ++ rest))%list with ((x :: needle) ++ rest)%list.
    rewrite startswith_app. reflexivity.
  - change ((c :: a) ++ needle ++ rest)%list with (c :: (a ++ needle ++ rest))%list.
    cbn [contains]. rewrite IH. apply orb_true_r.
Qed.

(** The first fence of a text is where [split_on] cuts it. *)
Lemma split_on_fence_first (pre s : str) :
  contains fence (pre ++ u "``") = false ->
  split_on fence (pre ++ fence ++ s) = Some (pre, s).
Proof.
  induction pre as [| c pre IH]; intros Hc.
  - reflexivity.
  - change ((c :: pre) ++ u "``")%list with (c :: (pre ++ u "``"))%list in Hc.
    cbn [contains] in Hc. apply orb_false_iff in Hc as [Hs Hc].
    change ((c :: pre) ++ fence ++ s)%list with (c :: (pre ++ fence ++ s))%list.
    cbn [split_on].
    assert (startswith fence (c :: (pre ++ fence ++ s))%list = false) as ->.
    { replace (c :: (pre ++ fence ++ s))%list
        with ((c :: (pre ++ u "``")) ++ (96 :: s))%list
        by (simpl; rewrite <- app_assoc; reflexivity).
      rewrite startswith_prefix; [exact Hs |].
      simpl. rewrite length_app. simpl. lia. }
    rewrite (IH Hc). reflexivity.
Qed.

(** Before the place where [split_on] cuts, no fence begins. *)
Lemma split_on_fence_clear : forall text pre opened,
  split_on fence text = Some (pre, opened) ->
  contains fence (pre ++ u "``") = false.
Proof.
  induction text as [| c text IH]; intros pre opened.
  - cbn [split_on]. change (startswith fence []) with false. discriminate.
  - cbn [split_on]. destruct (startswith fence (c :: text)) eqn:Hs.
    + intros [= <- _]. reflexivity.
    + destruct (split_on fence text) as [[b a] |] eqn:Hsp; [| discriminate].
      intros [= <- <-].
      change ((c :: b) ++ u "``")%list with (c :: (b ++ u "``"))%list.
      cbn [contains]. rewrite (IH b a eq_refl), orb_false_r.
      rewrite (split_on_spec _ _ Hsp) in Hs.
      replace (c :: (b ++ fence ++ a))%list
        with ((c :: (b ++ u "``")) ++ (96 :: a))%list in Hs
        by (simpl; rewrite <- app_assoc; reflexivity).
      rewrite startswith_prefix in Hs; [exact Hs |].
      simpl. rewrite length_app. simpl. lia.
Qed.

(** The cut is at or before any fence of the text. *)
Lemma split_on_le (needle : str) : forall a rest pre post,
  split_on needle (a ++ needle ++ rest) = Some (pre, post) ->
  (List.length pre <= List.length a)%nat.
Proof.
  induction a as [| c a IH]; intros rest pre post.
  - change ([] ++ needle ++ rest)%list with (needle ++ rest)%list.
    destruct (needle ++ rest)%list as [| x l] eqn:Hl; cbn [split_on];
      rewrite <- Hl, startswith_app; intros [= <- _]; simpl; lia.
  - change ((c :: a) ++ needle ++ rest)%list with (c :: (a ++ needle ++ rest))%list.
    cbn [split_on]. destruct (startswith needle _).
    + intros [= <- _]. simpl. lia.
    + destruct (split_on needle (a ++ needle ++ rest)) as [[b p] |] eqn:Hsp;
        [| discriminate].
      intros [= <- _]. simpl. apply IH in Hsp. lia.
Qed.

Lemma lstrip_split (s : str) :
  exists space, s = (space ++ lstrip s)%list /\ forallb is_space space = true.
Proof.
  induction s as [| c s [space [Hs Hall]]].
  - exists []. split; reflexivity.
  - cbn [lstrip]. destruct (is_space c) eqn:Hc.
    + exists (c :: space). split.
      * simpl. rewrite <- Hs. reflexivity.
      * simpl. rewrite Hc. exact Hall.
    + exists []. split; reflexivity.
Qed.

Lemma lstrip_head (s : str) :
  match lstrip s with c :: _ => is_space c = false | [] => True end.
Proof.
  induction s as [| c s IH]; [exact I |].
  cbn [lstrip]. destruct (is_space c) eqn:Hc; [exact IH | exact Hc].
Qed.

Lemma lstrip_app_space (space r : str) :
  forallb is_space space = true ->
  match r with c :: _ => is_space c = false | [] => True end ->
  lstrip (space ++ r) = r.
Proof.
  intros Hall Hr. induction space as [| c space IH].
  - destruct r as [| x r]; [reflexivity |]. simpl. rewrite Hr. reflexivity.
  - cbn [forallb] in Hall. apply andb_true_iff in Hall as [Hc Hall].
    simpl. rewrite Hc. exact (IH Hall).
Qed.

Lemma skip_json_split (s : str) :
  exists label, s = (label ++ skip_json s)%list
    /\ (label = u "json"
        \/ (label = [] /\ startswith (u "json") s = false)).
Proof.
  unfold skip_json. destruct (startswith (u "json") s) eqn:Hs.
  - destruct (startswith_inv _ _ Hs) as [rest ->].
    exists (u "json"). split; [reflexivity | left; reflexivity].
  - exists []. split; [reflexivity | right; split; reflexivity].
Qed.

(** White space and the label hold no backquote: passing over them loses
    no fence. *)
Lemma contains_fence_tail (c : char) (s : str) :
  c <> 96 -> contains fence (c :: s) = contains fence s.
Proof.
  intros Hc. cbn [contains]. change fence with [96; 96; 96].
  cbn [startswith]. destruct (N.eqb_spec 96 c); [congruence | reflexivity].
Qed.

Lemma contains_fence_lstrip (s : str) :
  contains fence (lstrip s) = contains fence s.
Proof.
  induction s as [| c s IH]; [reflexivity |].
  cbn [lstrip]. destruct (is_space c) eqn:Hc; [| reflexivity].
  rewrite contains_fence_tail; [exact IH |].
  intros ->. discriminate Hc.
Qed.

Lemma contains_fence_skip_json (s : str) :
  contains fence (skip_json s) = contains fence s.
Proof.
  destruct (skip_json_split s) as [label [Hs [-> | [-> _]]]].
  - rewrite Hs at 2. cbn [u app map list_ascii_of_string].
    change (u "json" ++ skip_json s)%list
      with (106 :: 115 :: 111 :: 110 :: skip_json s).
    rewrite !contains_fence_tail by discriminate. reflexivity.
  - rewrite Hs at 2. reflexivity.
Qed.

(** A text that the scan leaves without a block has no two fences that
    stand clear of each other. *)
Lemma no_fence_no_blocks (text : str) :
  contains fence text = false ->
  forall a b c, text <> (a ++ fence ++ b ++ fence ++ c)%list.
Proof.
  intros Hc a b c ->. rewrite contains_app in Hc. discriminate.
Qed.

Lemma open_fence_no_blocks (text pre opened : str) :
  split_on fence text = Some (pre, opened) ->
  contains fence (lstrip (skip_json opened)) = false ->
  forall a b c, text <> (a ++ fence ++ b ++ fence ++ c)%list.
Proof.
  intros Hsp Hc a b c Heq.
  rewrite contains_fence_lstrip, contains_fence_skip_json in Hc.
  pose proof (split_on_spec _ _ Hsp) as Htext.
  rewrite Heq in Hsp. apply split_on_le in Hsp.
  assert (skipn (List.length pre + 3) text = opened) as Ho.
  { rewrite Htext, app_assoc, skipn_app, skipn_all2
      by (rewrite length_app; simpl; lia).
    rewrite length_app. change (List.length fence) with 3%nat.
    rewrite Nat.sub_diag. reflexivity. }
  rewrite Heq in Ho.
  replace (a ++ fence ++ b ++ fence ++ c)%list
    with ((a ++ fence ++ b) ++ fence ++ c)%list in Ho
    by (rewrite <- !app_assoc; reflexivity).
  rewrite skipn_app in Ho.
  replace (List.length pre + 3 - List.length (a ++ fence ++ b))%nat with 0%nat in Ho
    by (rewrite !length_app; simpl; lia).
  cbn [skipn] in Ho. rewrite <- Ho, contains_app in Hc. discriminate.
Qed.

(** The blocks that the scan finds are the blocks of the text. *)
Lemma code_blocks_findall (text : str) (blocks : list str) :
  code_blocks text blocks -> findall_code_blocks text = blocks.
Proof.
  induction 1 as [text Hno | pre label space content rest blocks
                               Hpre Hlabel Hspace Hhead Hcontent _ IH].
  - unfold findall_code_blocks.
    destruct (List.length text) as [| n]; [reflexivity |].
    cbn [findall_code_blocks_from].
    destruct (split_on fence text) as [[pre opened] |] eqn:Ho; [| reflexivity].
    destruct (split_on fence (lstrip (skip_json opened))) as [[group rest] |] eqn:Hc;
      [| reflexivity].
    exfalso.
    destruct (skip_json_split opened) as [label [Hl _]].
    destruct (lstrip_split (skip_json opened)) as [space [Hs _]].
    apply split_on_spec in Ho, Hc.
    apply (Hno pre (label ++ space ++ group)%list rest).
    rewrite Ho, Hl, Hs, Hc at 1. rewrite <- !app_assoc. reflexivity.
  - unfold findall_code_blocks.
    destruct (List.length _) as [| n] eqn:Hlen.
    { rewrite !length_app in Hlen. simpl in Hlen. lia. }
    cbn [findall_code_blocks_from].
    rewrite (split_on_fence_first _ _ Hpre).
    assert (skip_json (label ++ space ++ content ++ fence ++ rest)
            = (space ++ content ++ fence ++ rest)%list) as ->.
    { unfold skip_json. destruct Hlabel as [-> | [-> Hs]].
      - rewrite startswith_app. reflexivity.
      - cbn [app]. rewrite Hs. reflexivity. }
    rewrite lstrip_app_space; [| exact Hspace |].
    + rewrite (split_on_fence_first _ _ Hcontent). f_equal.
      rewrite <- IH. unfold findall_code_blocks.
      apply findall_code_blocks_fuel; [| lia].
      rewrite !length_app in Hlen. simpl in Hlen. lia.
    + destruct content as [| c content]; [reflexivity | exact Hhead].
Qed.

(** Every text has its blocks: those that the scan finds. *)
Lemma findall_code_blocks_are_blocks (n : nat) : forall text,
  (List.length text <= n)%nat ->
  code_blocks text (findall_code_blocks_from n text).
Proof.
  induction n as [| n IH]; intros text Hlen.
  - destruct text; [| simpl in Hlen; lia].
    apply blocks_none. intros a b c Heq.
    apply (f_equal (@List.length char)) in Heq.
    rewrite !length_app in Heq. simpl in Heq. lia.
  - cbn [findall_code_blocks_from].
    destruct (split_on fence text) as [[pre opened] |] eqn:Ho.
    + destruct (split_on fence (lstrip (skip_json opened))) as [[group rest] |] eqn:Hc.
      * destruct (skip_json_split opened) as [label [Hl Hlabel]].
        destruct (lstrip_split (skip_json opened)) as [space [Hs Hspace]].
        pose proof (lstrip_head (skip_json opened)) as Hhead.
        pose proof (split_on_fence_clear _ Ho) as Hpre.
        pose proof (split_on_fence_clear _ Hc) as Hcontent.
        apply split_on_spec in Ho, Hc.
        assert (text = (pre ++ fence ++ label ++ space ++ group ++ fence ++ rest)%list)
          as Htext.
        { rewrite Ho, Hl, Hs, Hc at 1. reflexivity. }
        rewrite Htext at 1.
        apply blocks_cons; try assumption.
        -- destruct Hlabel as [-> | [-> Hj]]; [left; reflexivity |].
           right. split; [reflexivity |].
           rewrite <- Hc, <- Hs. cbn [app] in Hl. rewrite <- Hl. exact Hj.
        -- rewrite Hc in Hhead. destruct group; [exact I | exact Hhead].
        -- apply IH. rewrite Htext, !length_app in Hlen. simpl in Hlen. lia.
      * apply blocks_none. apply (@open_fence_no_blocks _ _ _ Ho).
        rewrite split_on_contains, Hc. reflexivity.
    + apply blocks_none. apply no_fence_no_blocks.
      rewrite split_on_contains, Ho. reflexivity.
Qed.

Lemma code_blocks_iff (text : str) (blocks : list str) :
  code_blocks text blocks <-> findall_code_blocks text = blocks.
Proof.
  split; [apply code_blocks_findall |].
  intros <-. apply findall_code_blocks_are_blocks. lia.
Qed.

(* ------------------------------------------------------------------ *)
(** ** The order of the attempts *)

Section AttemptOrder.
Context `{Runtime}.

Lemma first_parsed_all_fail (l : list str) :
  Forall fails_to_parse l -> first_parsed l = Ret None.
Proof.
  induction 1 as [| c l Hc _ IH]; [reflexivity |].
  cbn [first_parsed]. rewrite Hc. exact IH.
Qed.

Lemma first_parsed_found (before : list str) (c : str) (after : list str)
    (v : pyval) :
  Forall fails_to_parse before -> json_loads c = Ret v ->
  first_parsed (before ++ c :: after) = Ret (Some v).
Proof.
  intros Hb Hc. induction Hb as [| x l Hx _ IH].
  - cbn [app first_parsed]. rewrite Hc. reflexivity.
  - cbn [app first_parsed]. rewrite Hx. exact IH.
Qed.

Lemma first_parsed_raises (before : list str) (c : str) (after : list str)
    (e : exn) :
  Forall fails_to_parse before -> json_loads c = Raise e ->
  e <> JSONDecodeError ->
  first_parsed (before ++ c :: after) = Raise e.
Proof.
  intros Hb Hc He. induction Hb as [| x l Hx _ IH].
  - cbn [app first_parsed]. rewrite Hc. destruct e; try reflexivity.
    contradiction.
  - cbn [app first_parsed]. rewrite Hx. exact IH.
Qed.

End AttemptOrder.

(** X25.  The order of the attempts of [extract_json_from_response], against
    the blocks of the text said on their own: the candidates are the
    trimmed contents of the fenced blocks in their order, then the whole
    text, then the span from the first opening brace to the last closing
    one.  The value of the first candidate that parses is returned, the
    candidates before it having failed with a decoding error; when every
    candidate fails so, the parse-failure object with the text is returned;
    and a candidate whose decoding raises another error, the ones before it
    having failed with a decoding error, ends the extraction with that
    error. *)
Theorem extraction_order :
  forall (R : Runtime) (text : str) (blocks : list str),
    code_blocks text blocks ->
    (Forall fails_to_parse (candidates blocks text) ->
     extract_json_from_response text = Ret (parse_failure text))
    /\ (forall (before : list str) (c : str) (after : list str) (v : pyval),
          candidates blocks text = (before ++ c :: after)%list ->
          Forall fails_to_parse before ->
          json_loads c = Ret v ->
          extract_json_from_response text = Ret v)
    /\ (forall (before : list str) (c : str) (after : list str) (e : exn),
          candidates blocks text = (before ++ c :: after)%list ->
          Forall fails_to_parse before ->
          json_loads c = Raise e -> e <> JSONDecodeError ->
          extract_json_from_response text = Raise e).
Proof.
  intros R text blocks Hblocks.
  apply code_blocks_findall in Hblocks.
  rewrite extract_first_parsed, Hblocks.
  split; [| split].
  - intros Hall. rewrite (first_parsed_all_fail Hall). reflexivity.
  - intros before c after v -> Hb Hc.
    rewrite (@first_parsed_found _ before c after v Hb Hc). reflexivity.
  - intros before c after e -> Hb Hc He.
    rewrite (@first_parsed_raises _ before c after e Hb Hc He). reflexivity.
Qed.

(** A text with two fenced blocks, the first of which is not JSON: the
    value of the second is returned. *)
Lemma extraction_order_witness :
  let text := (u "```" ++ [10] ++ u "not json" ++ [10] ++ u "```" ++ [10]
               ++ u "```json" ++ j "{'email': 'Hi'}" ++ u "```")%list in
  code_blocks text [(u "not json" ++ [10])%list; j "{'email': 'Hi'}"]
  /\ @extract_json_from_response sample_runtime text
     = Ret (PDict [(u "email", PStr (u "Hi"))]).
Proof.
  intros text.
  assert (code_blocks text [(u "not json" ++ [10])%list; j "{'email': 'Hi'}"])
    as Hblocks by (apply code_blocks_iff; vm_compute; reflexivity).
  split; [exact Hblocks |].
  destruct (@extraction_order sample_runtime text _ Hblocks) as [_ [Hfound _]].
  apply (Hfound [u "not json"] (j "{'email': 'Hi'}")
           [text; j "{'email': 'Hi'}"]).
  - vm_compute. reflexivity.
  - constructor; [vm_compute; reflexivity | constructor].
  - vm_compute. reflexivity.
Defined.

(* ------------------------------------------------------------------ *)
(** ** Within the limits of the interpreter *)


























Section WithinLimits.
Context `{Runtime}.




Lemma within_limits_le (depth depth' : nat) (s : str) :
  (depth <= depth')%nat -> within_limits depth s -> within_limits depth' s.
Proof. intros Hle [Hopen Hdigits]. split; [lia | exact Hdigits]. Qed.





End WithinLimits.



(* ================================================================== *)
(** * Properties of the pattern matcher *)
(* ================================================================== *)

Lemma matches_nil_nullable (r : regex) : matches r [] <-> nullable r = true.
Proof.
  split.
  - intros Hm. remember [] as s eqn:Hs.
    induction Hm; simpl; try discriminate; auto.
    + apply app_eq_nil in Hs as [-> ->]. rewrite IHHm1, IHHm2; auto.
    + rewrite IHHm; auto.
    + rewrite IHHm; auto. apply orb_true_r.
  - induction r; simpl; try discriminate; intros Hn.
    + constructor.
    + apply andb_true_iff in Hn as [Ha Hb].
      apply (MSeq (IHr1 Ha) (IHr2 Hb)).
    + apply orb_true_iff in Hn as [Ha | Hb];
        [apply MAltL | apply MAltR]; auto.
    + constructor.
Qed.

Lemma matches_seq (a b : regex) (s : str) :
  matches (Seq a b) s <->
  exists s1 s2, s = s1 ++ s2 /\ matches a s1 /\ matches b s2.
Proof.
  split.
  - intros Hm. inversion Hm; subst. eauto.
  - intros [s1 [s2 [-> [Ha Hb]]]]. constructor; auto.
Qed.

Lemma matches_alt (a b : regex) (s : str) :
  matches (Alt a b) s <-> matches a s \/ matches b s.
Proof.
  split.
  - intros Hm. inversion Hm; subst; auto.
  - intros [Ha | Hb]; [apply MAltL | apply MAltR]; auto.
Qed.

Lemma matches_eps (s : str) : matches Eps s <-> s = [].
Proof.
  split; [intros Hm; now inversion Hm | intros ->; constructor].
Qed.

Lemma matches_deriv_sound (c : char) (r : regex) : forall s,
  matches (deriv c r) s -> matches r (c :: s).
Proof.
  induction r; simpl; intros s Hm.
  - inversion Hm.
  - inversion Hm.
  - destruct (N.eqb_spec c c0) as [-> |]; [| inversion Hm].
    apply matches_eps in Hm as ->. constructor.
  - destruct (p c) eqn:Hp; [| inversion Hm].
    apply matches_eps in Hm as ->. constructor. exact Hp.
  - assert (forall s, matches (Seq (deriv c r1) r2) s ->
                      matches (Seq r1 r2) (c :: s)) as Hseq.
    { intros s0 H0. apply matches_seq in H0 as [s1 [s2 [-> [Ha Hb]]]].
      change (c :: s1 ++ s2) with ((c :: s1) ++ s2). constructor; auto. }
    destruct (nullable r1) eqn:Hn; [| auto].
    apply matches_alt in Hm as [Hl | Hr]; [auto |].
    change (c :: s) with ([] ++ c :: s). constructor; auto.
    apply matches_nil_nullable. exact Hn.
  - apply matches_alt in Hm as [Hl | Hr]; [apply MAltL | apply MAltR]; auto.
  - apply matches_seq in Hm as [s1 [s2 [-> [Ha Hb]]]].
    change (c :: s1 ++ s2) with ((c :: s1) ++ s2). constructor; auto.
Qed.

Lemma matches_deriv_complete (c : char) (r : regex) (cs : str) :
  matches r cs -> forall s, cs = c :: s -> matches (deriv c r) s.
Proof.
  intros Hm. induction Hm; intros s0 Heq; simpl; try discriminate.
  - injection Heq as -> <-. rewrite N.eqb_refl. constructor.
  - injection Heq as -> <-. rewrite H. constructor.
  - destruct s as [| x s].
    + simpl in Heq. subst t.
      apply matches_nil_nullable in Hm1. rewrite Hm1.
      apply MAltR. auto.
    + simpl in Heq. injection Heq as -> <-.
      destruct (nullable a); [apply MAltL |]; constructor; auto.
  - apply MAltL. auto.
  - apply MAltR. auto.
  - destruct s as [| x s].
    + simpl in Heq. auto.
    + simpl in Heq. injection Heq as -> <-.
      constructor; auto.
Qed.

(** [fullmatch] decides the language of the pattern. *)
Lemma fullmatch_matches (s : str) : forall r,
  fullmatch r s = true <-> matches r s.
Proof.
  induction s as [| c s IH]; intros r; simpl.
  - symmetry. apply matches_nil_nullable.
  - rewrite IH. split.
    + apply matches_deriv_sound.
    + intros Hm. eapply matches_deriv_complete; eauto.
Qed.

Lemma matches_lit (w s : str) : matches (lit w) s <-> s = w.
Proof.
  revert s. induction w as [| c w IH]; intros s; simpl.
  - split; [intros Hm; now inversion Hm | intros ->; constructor].
  - rewrite matches_seq. split.
    + intros [s1 [s2 [-> [Hc Hw]]]]. inversion Hc; subst.
      apply IH in Hw. subst. reflexivity.
    + intros ->. exists [c], w. repeat split; [constructor | now apply IH].
Qed.

Lemma matches_opt (r : regex) (s : str) :
  matches (opt r) s <-> s = [] \/ matches r s.
Proof.
  unfold opt. split.
  - intros Hm. inversion Hm as [| | | | a b s0 Hl | a b s0 Hr | |]; subst.
    + now right.
    + inversion Hr. now left.
  - intros [-> | Hm]; [apply MAltR; constructor | now apply MAltL].
Qed.

Lemma matches_star_class (p : char -> bool) (s : str) :
  matches (Star (Class p)) s <-> forallb p s = true.
Proof.
  split.
  - intros Hm. remember (Star (Class p)) as r eqn:Hr.
    induction Hm; try discriminate; [reflexivity |].
    injection Hr as ->.
    inversion Hm1 as [| | q c Hc | | | | |]; subst. simpl.
    rewrite IHHm2 by reflexivity. rewrite Hc. reflexivity.
  - induction s as [| c s IH]; simpl; intros Hall; [constructor |].
    apply andb_true_iff in Hall as [Hc Hs].
    change (c :: s) with ([c] ++ s). constructor; [now constructor | auto].
Qed.

Lemma matches_plus_class (p : char -> bool) (s : str) :
  matches (plus (Class p)) s <-> s <> [] /\ forallb p s = true.
Proof.
  unfold plus. rewrite matches_seq. split.
  - intros [s1 [s2 [-> [Hc Hs]]]].
    inversion Hc as [| | q c Hpc | | | | |]; subst.
    apply matches_star_class in Hs. simpl. rewrite Hpc, Hs.
    split; [discriminate | reflexivity].
  - intros [Hne Hall]. destruct s as [| c s]; [contradiction |].
    simpl in Hall. apply andb_true_iff in Hall as [Hc Hs].
    exists [c], s. repeat split; [now constructor | now apply matches_star_class].
Qed.

(** Trimmed text does not end with a line feed, so on it [$] is the end. *)
Lemma rstrip_cons (c : char) (s : str) :
  rstrip (c :: s) =
  match rstrip s with
  | [] => if is_space c then [] else [c]
  | _ :: _ => c :: rstrip s
  end.
Proof. reflexivity. Qed.

Lemma chop_newline_rstrip (s : str) : chop_newline (rstrip s) = None.
Proof.
  induction s as [| c s IH]; [reflexivity |].
  rewrite rstrip_cons. destruct (rstrip s) as [| x t] eqn:Hr.
  - destruct (is_space c) eqn:Hc; [reflexivity |].
    simpl. destruct (N.eqb_spec c 10) as [-> |]; [discriminate | reflexivity].
  - change (chop_newline (c :: x :: t))
      with (match chop_newline (x :: t) with
            | Some u => Some (c :: u)
            | None => None
            end).
    rewrite IH. reflexivity.
Qed.

Lemma re_match_strip (body : regex) (url : str) :
  re_match body (strip url) = fullmatch body (strip url).
Proof.
  unfold re_match, strip. rewrite chop_newline_rstrip. apply orb_false_r.
Qed.

(* ================================================================== *)
(** * Properties of URL classification *)
(* ================================================================== *)

Section ClassifierFacts.
Context `{Runtime}.

(** The words of a pattern, spelled out piece by piece. *)
Lemma linkedin_pattern_pieces (t : url_type) (s : str) :
  matches (linkedin_pattern t) s <->
  exists s_opt www token slash,
    s = u "http" ++ s_opt ++ u "://" ++ www
        ++ (u "linkedin.com/" ++ path_segment t ++ u "/") ++ token ++ slash
    /\ (s_opt = [] \/ s_opt = u "s")
    /\ (www = [] \/ www = u "www.")
    /\ (token <> [] /\ forallb word_or_hyphen token = true)
    /\ (slash = [] \/ slash = u "/").
Proof.
  split.
  - intros Hm.
    assert (exists s1 s2 s3 s4 s5 s6 s7,
               s = s1 ++ s2 ++ s3 ++ s4 ++ s5 ++ s6 ++ s7
               /\ matches (lit (u "http")) s1
               /\ matches (opt (Chr 115)) s2
               /\ matches (lit (u "://")) s3
               /\ matches (opt (lit (u "www."))) s4
               /\ matches (lit (u "linkedin.com/" ++ path_segment t ++ u "/")) s5
               /\ matches (plus (Class word_or_hyphen)) s6
               /\ matches (opt (Chr 47)) s7) as Hparts.
    { destruct t; unfold linkedin_pattern, user_pattern, company_pattern in Hm;
        apply matches_seq in Hm as [s1 [r1 [-> [H1 Hm]]]];
        apply matches_seq in Hm as [s2 [r2 [-> [H2 Hm]]]];
        apply matches_seq in Hm as [s3 [r3 [-> [H3 Hm]]]];
        apply matches_seq in Hm as [s4 [r4 [-> [H4 Hm]]]];
        apply matches_seq in Hm as [s5 [r5 [-> [H5 Hm]]]];
        apply matches_seq in Hm as [s6 [s7 [-> [H6 H7]]]];
        exists s1, s2, s3, s4, s5, s6, s7; repeat split; assumption. }
    destruct Hparts as [s1 [s2 [s3 [s4 [s5 [s6 [s7 Hparts]]]]]]].
    destruct Hparts as [-> [H1 [H2 [H3 [H4 [H5 [H6 H7]]]]]]].
    apply matches_lit in H1 as ->. apply matches_lit in H3 as ->.
    apply matches_lit in H5 as ->.
    apply matches_plus_class in H6.
    exists s2, s4, s6, s7. split; [reflexivity |].
    split; [| split; [| split; [exact H6 |]]].
    + apply matches_opt in H2 as [-> | H2]; [now left | right].
      inversion H2. reflexivity.
    + apply matches_opt in H4 as [-> | H4]; [now left | right].
      now apply matches_lit in H4.
    + apply matches_opt in H7 as [-> | H7]; [now left | right].
      inversion H7. reflexivity.
  - intros [s2 [s4 [s6 [s7 [-> [H2 [H4 [H6 H7]]]]]]]].
    assert (matches (lit (u "http") ++ opt (Chr 115) ++ lit (u "://")
                     ++ opt (lit (u "www."))
                     ++ lit (u "linkedin.com/" ++ path_segment t ++ u "/")%list
                     ++ plus (Class word_or_hyphen) ++ opt (Chr 47))%re
              (u "http" ++ s2 ++ u "://" ++ s4
               ++ (u "linkedin.com/" ++ path_segment t ++ u "/") ++ s6 ++ s7))
      as Hm.
    { apply MSeq; [now apply matches_lit |].
      apply MSeq.
      { apply matches_opt. destruct H2 as [-> | ->]; [now left | right].
        constructor. }
      apply MSeq; [now apply matches_lit |].
      apply MSeq.
      { apply matches_opt. destruct H4 as [-> | ->]; [now left | right].
        now apply matches_lit. }
      apply MSeq; [now apply matches_lit |].
      apply MSeq; [now apply matches_plus_class |].
      apply matches_opt. destruct H7 as [-> | ->]; [now left | right].
      constructor. }
    destruct t; exact Hm.
Qed.

(** The language of each pattern is the shape with a scheme. *)
Lemma linkedin_pattern_shape (t : url_type) (s : str) :
  matches (linkedin_pattern t) s <-> url_shape t s.
Proof.
  rewrite linkedin_pattern_pieces. unfold url_shape, url_shape_with. split.
  - intros [s2 [www [token [slash [-> [H2 [Hw [[Hne Hall] Hs]]]]]]]].
    exists (u "http" ++ s2 ++ u "://"), www, token, slash.
    split; [| split; [| auto]].
    + destruct H2 as [-> | ->]; destruct t; reflexivity.
    + destruct H2 as [-> | ->]; simpl; auto.
  - intros [scheme [www [token [slash [-> [Hsch [Hw [Hne [Hall Hs]]]]]]]]].
    destruct Hsch as [<- | [<- | []]].
    + exists [], www, token, slash.
      split; [destruct t; reflexivity | auto].
    + exists (u "s"), www, token, slash.
      split; [destruct t; reflexivity | auto].
Qed.

(** A URL has at most one of the two shapes. *)
Lemma url_shape_disjoint (s : str) :
  url_shape User s -> url_shape Company s -> False.
Proof.
  intros [sc1 [w1 [t1 [l1 [-> [Hs1 [Hw1 _]]]]]]]
         [sc2 [w2 [t2 [l2 [Heq [Hs2 [Hw2 _]]]]]]].
  destruct Hs1 as [<- | [<- | []]]; destruct Hw1 as [-> | ->];
    destruct Hs2 as [<- | [<- | []]]; destruct Hw2 as [-> | ->];
    cbv [u path_segment map list_ascii_of_string N_of_ascii N.add N.mul
         Pos.add Pos.succ Pos.mul app] in Heq;
    discriminate Heq.
Qed.

Lemma url_shape_nonempty (t : url_type) : ~ url_shape t [].
Proof.
  intros [sc [w [tok [l [Heq [Hs _]]]]]].
  destruct Hs as [<- | [<- | []]]; discriminate Heq.
Qed.

(** The classifier in terms of the two shapes. *)
Lemma detect_url_type_shape (url : str) :
  detect_url_type url =
  if fullmatch user_pattern (strip url) then Some User
  else if fullmatch company_pattern (strip url) then Some Company
  else None.
Proof.
  unfold detect_url_type. destruct url as [| c url]; [reflexivity |].
  rewrite !re_match_strip. reflexivity.
Qed.
End ClassifierFacts.

(** C5, as amended.  For every input string, [detect_url_type] returns the
    person classification exactly when the trimmed string has the person
    shape (the scheme [http://] or [https://], which is required, an
    optional [www.], [linkedin.com/in/], one or more word characters or
    hyphens, an optional final slash), the company classification exactly
    when it has the company shape (the same with [/company/]), and the
    invalid classification for every other string. *)
Theorem C5_url_classification :
  forall (R : Runtime) (url : str),
    (detect_url_type url = Some User <-> url_shape User (strip url))
    /\ (detect_url_type url = Some Company <-> url_shape Company (strip url))
    /\ (detect_url_type url = None <->
        ~ url_shape User (strip url) /\ ~ url_shape Company (strip url)).
Proof.
  intros R url. rewrite detect_url_type_shape.
  pose proof (linkedin_pattern_shape User (strip url)) as HU.
  pose proof (linkedin_pattern_shape Company (strip url)) as HC.
  rewrite <- fullmatch_matches in HU, HC. simpl linkedin_pattern in HU, HC.
  pose proof (@url_shape_disjoint R (strip url)) as Hdis.
  destruct (fullmatch user_pattern (strip url)) eqn:Hu;
    [assert (url_shape User (strip url)) as HsU by (apply HU; reflexivity)
    | assert (~ url_shape User (strip url)) as HsU
        by (intros Hs; apply HU in Hs; discriminate Hs)];
    (destruct (fullmatch company_pattern (strip url)) eqn:Hc;
     [assert (url_shape Company (strip url)) as HsC by (apply HC; reflexivity)
     | assert (~ url_shape Company (strip url)) as HsC
         by (intros Hs; apply HC in Hs; discriminate Hs)]);
    clear HU HC;
    intuition (try discriminate; try congruence).
Qed.

(** C5, as the claim states it, fails: a URL without a scheme has the person
    shape of the specification, where the scheme is optional, and is
    classified as invalid, whatever the runtime's tables. *)
Lemma C5_counterexample :
  (forall R : Runtime, spec_url_shape User (strip (u "linkedin.com/in/jane-doe")))
  /\ (forall R : Runtime, detect_url_type (u "linkedin.com/in/jane-doe") = None).
Proof.
  split; intros R.
  - exists [], [], (u "jane-doe"), [].
    repeat split; try (now left); try discriminate.
  - vm_compute. reflexivity.
Qed.

(* ================================================================== *)
(** * Properties of the validators *)
(* ================================================================== *)

Lemma lookup_some_nonempty (k : str) (d : list (str * pyval)) (v : pyval) :
  lookup k d = Some v -> d <> [].
Proof. destruct d; [discriminate | discriminate]. Qed.

Section ValidatorFacts.
Context `{Runtime}.

(** A record wrapped in a list is validated as the record itself. *)
Lemma validate_record (t : url_type) (data : pyval) (d : list (str * pyval)) :
  record_of data = Some d -> d <> [] ->
  validate t data = validate t (PDict d).
Proof.
  intros Hrec Hne.
  destruct data as [| | | | | items | d']; try discriminate.
  - destruct items as [| x items]; [discriminate |].
    destruct x; try discriminate. injection Hrec as ->.
    destruct d as [| e d]; [contradiction |].
    destruct t; reflexivity.
  - injection Hrec as ->. reflexivity.
Qed.

(** The outcome on a record without an error field, by where the name and
    the other fields are. *)
Lemma validate_profile_flat (d : list (str * pyval)) (name : pyval) :
  d <> [] ->
  lookup (u "error") d = None ->
  lookup (u "basic_info") d = None ->
  lookup (u "fullName") d = Some name -> truthy name = true ->
  validate_profile_data (PDict d) =
  let headline := match lookup (u "headline") d with
                  | Some h => h
                  | None => PNone
                  end in
  if negb (truthy headline) then Ret (false, PStr msg_profile_missing_headline)
  else if (str_len (PDict d) <? 100)%Z then Ret (false, PStr msg_profile_minimal)
  else Ret (true, PNone).
Proof.
  intros Hne Herr Hbi Hname Htrue.
  destruct d as [| e d]; [contradiction |].
  unfold validate_profile_data.
  cbn [truthy negb unwrap_first py_in py_get bind].
  rewrite Herr. cbn [bind]. rewrite Hbi. cbn [bind]. rewrite Hname.
  rewrite Htrue. cbn [bind negb]. rewrite Htrue. reflexivity.
Qed.

Lemma validate_profile_nested (d b : list (str * pyval)) (name : pyval) :
  lookup (u "error") d = None ->
  lookup (u "basic_info") d = Some (PDict b) ->
  lookup (u "fullname") b = Some name -> truthy name = true ->
  validate_profile_data (PDict d) =
  let headline := match lookup (u "headline") b with
                  | Some h => h
                  | None => PNone
                  end in
  if negb (truthy headline) then Ret (false, PStr msg_profile_missing_headline)
  else if (str_len (PDict d) <? 100)%Z then Ret (false, PStr msg_profile_minimal)
  else Ret (true, PNone).
Proof.
  intros Herr Hbi Hname Htrue.
  destruct d as [| e d]; [discriminate |].
  unfold validate_profile_data.
  cbn [truthy negb unwrap_first py_in py_get bind].
  rewrite Herr. cbn [bind]. rewrite Hbi. cbn [bind py_get]. rewrite Hname.
  rewrite Htrue. cbn [bind negb]. rewrite Htrue. reflexivity.
Qed.

Lemma validate_company_nested (d b : list (str * pyval)) (name : pyval) :
  lookup (u "error") d = None ->
  lookup (u "basic_info") d = Some (PDict b) ->
  lookup (u "name") b = Some name -> truthy name = true ->
  validate_company_data (PDict d) =
  if (str_len (PDict d) <? 100)%Z then Ret (false, PStr msg_company_minimal)
  else Ret (true, PNone).
Proof.
  intros Herr Hbi Hname Htrue.
  destruct d as [| e d]; [discriminate |].
  unfold validate_company_data.
  cbn [truthy negb unwrap_first py_in py_get bind].
  rewrite Herr. cbn [bind]. rewrite Hbi. cbn [bind py_get]. rewrite Hname.
  cbn [bind]. rewrite Htrue. reflexivity.
Qed.

Lemma validate_company_flat (d : list (str * pyval)) :
  d <> [] ->
  lookup (u "error") d = None ->
  lookup (u "basic_info") d = None ->
  validate_company_data (PDict d) = Ret (false, PStr msg_company_missing_name).
Proof.
  intros Hne Herr Hbi.
  destruct d as [| e d]; [contradiction |].
  unfold validate_company_data.
  cbn [truthy negb unwrap_first py_in py_get bind].
  rewrite Herr. cbn [bind]. rewrite Hbi. reflexivity.
Qed.
End ValidatorFacts.

(** C4, as amended.  A record without an error field that carries a
    non-empty name passes the name check of the person validator in either
    shape ([fullName] at the top level of a record without [basic_info], or
    [fullname] under the [basic_info] sub-map), and the name check of the
    company validator in the nested shape ([name] under [basic_info]); the
    company validator does not read a top-level name, and a flat company
    record is rejected as missing its name. *)
Theorem C4_name_shapes :
  forall (R : Runtime) (t : url_type) (sh : record_shape) (data : pyval)
         (d : list (str * pyval)) (name : pyval),
    record_of data = Some d ->
    lookup (u "error") d = None ->
    name_field t sh d = Some name ->
    truthy name = true ->
    match t, sh with
    | Company, Flat => validate t data = missing_name_failure t
    | _, _ => past_name_check t (validate t data)
    end.
Proof.
  intros R t sh data d name Hrec Herr Hname Htrue.
  assert (d <> []) as Hne.
  { intros ->. destruct t, sh; discriminate Hname. }
  rewrite (validate_record t data Hrec Hne).
  unfold name_field in Hname.
  destruct sh; destruct (lookup (u "basic_info") d) as [bi |] eqn:Hbi;
    try discriminate Hname.
  - (* flat *)
    destruct t; simpl name_key in Hname.
    + unfold validate. rewrite (validate_profile_flat Hne Herr Hbi Hname Htrue).
      cbv zeta. unfold past_name_check.
      destruct (negb (truthy _)); [auto |].
      destruct (str_len (PDict d) <? 100)%Z; auto.
    + apply (validate_company_flat Hne Herr Hbi).
  - (* nested *)
    destruct bi as [| | | | | | b]; try discriminate Hname.
    destruct t; simpl name_key in Hname.
    + unfold validate. rewrite (validate_profile_nested d Herr Hbi Hname Htrue).
      cbv zeta. unfold past_name_check.
      destruct (negb (truthy _)); [auto |].
      destruct (str_len (PDict d) <? 100)%Z; auto.
    + unfold validate. rewrite (validate_company_nested d Herr Hbi Hname Htrue).
      unfold past_name_check.
      destruct (str_len (PDict d) <? 100)%Z; auto.
Qed.

(** C4 on a flat person record, a nested person record in a list, and a
    nested company record: each passes the name check in every runtime. *)
Lemma C4_name_shapes_witness :
  (forall R : Runtime,
     past_name_check User (validate User (PDict flat_person_fields)))
  /\ (forall R : Runtime,
        past_name_check User
          (validate User (PList [PDict nested_person_fields])))
  /\ (forall R : Runtime,
        past_name_check Company
          (validate Company (PDict nested_company_fields))).
Proof.
  split; [| split]; intros R.
  - apply (@C4_name_shapes R User Flat (PDict flat_person_fields)
             flat_person_fields (PStr (u "Jane Doe"))); reflexivity.
  - apply (@C4_name_shapes R User Nested (PList [PDict nested_person_fields])
             nested_person_fields (PStr (u "Jane Doe"))); reflexivity.
  - apply (@C4_name_shapes R Company Nested (PDict nested_company_fields)
             nested_company_fields (PStr (u "Acme"))); reflexivity.
Defined.

(** C4, as the claim states it, fails for company records: a flat company
    record carries its name at the top level, has no error field, and the
    company validator rejects it as missing the name, in every runtime. *)
Lemma C4_counterexample :
  name_field Company Flat flat_company_fields = Some (PStr (u "Acme"))
  /\ lookup (u "error") flat_company_fields = None
  /\ (forall R : Runtime,
        validate_company_data (PDict flat_company_fields)
        = Ret (false, PStr msg_company_missing_name))
  /\ (forall R : Runtime,
        ~ past_name_check Company (validate Company (PDict flat_company_fields))).
Proof.
  split; [reflexivity |]. split; [reflexivity |]. split; intros R.
  - reflexivity.
  - unfold past_name_check. intros [Hp | [Hp | [Hp _]]]; discriminate Hp.
Qed.

(** C6.  A record whose error field is [null] contains an error field, and
    neither validator returns a failure for it: the test
    ["free Apify plan" in error_msg] cannot be made on [None], and both
    validators raise [TypeError], in every runtime and also when the record
    comes first in a list. *)
Theorem C6_null_error_raises :
  record_of (PDict [(u "error", PNone)]) = Some [(u "error", PNone)]
  /\ lookup (u "error") [(u "error", PNone)] = Some PNone
  /\ (forall R : Runtime,
        validate_profile_data (PDict [(u "error", PNone)]) = Raise TypeError)
  /\ (forall R : Runtime,
        validate_company_data (PDict [(u "error", PNone)]) = Raise TypeError)
  /\ (forall R : Runtime,
        validate_profile_data (PList [PDict [(u "error", PNone)]])
        = Raise TypeError).
Proof.
  split; [reflexivity |]. split; [reflexivity |].
  split; [| split]; intros R; reflexivity.
Qed.

(** X26.  What the validators do with a record that has an error field, by
    the value of the field, whatever the other fields are.  For a text the
    record is rejected, with the plan-limitation message when the text
    contains [free Apify plan] and with the text itself otherwise.  For a
    list or an object the record is rejected as well: the words are looked
    for among the elements of the list, or the keys of the object, and the
    message is the plan-limitation message when they are there and the
    value itself otherwise.  For [null], a boolean or a number the test
    cannot be made and the validator raises [TypeError]. *)
Theorem validators_error_branch :
  forall (R : Runtime) (t : url_type) (data : pyval)
         (d : list (str * pyval)) (error : pyval),
    record_of data = Some d ->
    lookup (u "error") d = Some error ->
    validate t data =
    match error with
    | PStr text => error_failure t text
    | PList items =>
        Ret (false,
             if existsb (fun x => match x with
                                  | PStr s => str_eqb (u "free Apify plan") s
                                  | _ => false
                                  end) items
             then PStr (paid_plan_message t) else error)
    | PDict fields =>
        Ret (false,
             match lookup (u "free Apify plan") fields with
             | Some _ => PStr (paid_plan_message t)
             | None => error
             end)
    | _ => Raise TypeError
    end.
Proof.
  intros R t data d error Hrec Herr.
  rewrite (validate_record t data Hrec (@lookup_some_nonempty _ _ _ Herr)).
  destruct d as [| e d]; [discriminate |].
  destruct t; unfold validate, validate_profile_data, validate_company_data,
    error_failure, paid_plan_message;
    cbn [truthy negb unwrap_first py_in py_get bind];
    rewrite Herr; cbn [bind];
    destruct error as [| b | n | f | text | items | fields];
    cbn [py_in bind]; try reflexivity.
  all: match goal with
       | |- context [if ?c then _ else _] => destruct c; reflexivity
       | |- context [match lookup ?k ?m with _ => _ end] =>
           destruct (lookup k m); reflexivity
       end.
Qed.

(** A record with the plan-limitation text and a full profile beside it; a
    listed record with another error text; a record whose error is a list
    that holds the words; and one whose error is a number. *)
Lemma validators_error_branch_witness :
  (forall R : Runtime,
     validate User (PDict plan_error_fields)
     = Ret (false, PStr msg_profile_paid_plan))
  /\ (forall R : Runtime,
        validate Company (PList [PDict other_error_fields])
        = Ret (false, PStr (u "requires paid plan")))
  /\ (forall R : Runtime,
        validate Company
          (PDict [(u "error", PList [PStr (u "free Apify plan")])])
        = Ret (false, PStr msg_company_paid_plan))
  /\ (forall R : Runtime,
        validate User
          (PDict [(u "error", PInt 404); (u "fullName", PStr (u "Jane Doe"))])
        = Raise TypeError).
Proof.
  split; [| split; [| split]]; intros R.
  - apply (@validators_error_branch R User (PDict plan_error_fields)
             plan_error_fields
             (PStr (u "Not available on the free Apify plan")));
      reflexivity.
  - apply (@validators_error_branch R Company
             (PList [PDict other_error_fields]) other_error_fields
             (PStr (u "requires paid plan"))); reflexivity.
  - apply (@validators_error_branch R Company
             (PDict [(u "error", PList [PStr (u "free Apify plan")])])
             [(u "error", PList [PStr (u "free Apify plan")])]
             (PList [PStr (u "free Apify plan")])); reflexivity.
  - apply (@validators_error_branch R User
             (PDict [(u "error", PInt 404);
                     (u "fullName", PStr (u "Jane Doe"))])
             [(u "error", PInt 404); (u "fullName", PStr (u "Jane Doe"))]
             (PInt 404)); reflexivity.
Defined.

(* ================================================================== *)
(** * Properties of the generation endpoint and pipeline *)
(* ================================================================== *)

Lemma request_text_get (d : list (str * pyval)) (key text : str) :
  request_text d key = Some text ->
  (let* a := py_get (PDict d) key (PStr []) in py_strip a) = Ret text.
Proof.
  unfold request_text. cbn [py_get bind].
  destruct (lookup key d) as [v |].
  - destruct v; try discriminate. intros [= <-]. reflexivity.
  - intros [= <-]. reflexivity.
Qed.

(** C8, as amended.  A generation request whose fields are text or absent
    and whose product description is absent, empty once trimmed, or longer
    than 200 characters once trimmed, is answered with status 400 and a body
    with [success: false], [step: "validation"] and the message of the check
    that refused it; the world is left as it was: nothing is cleared,
    fetched or generated, whatever the outside world is. *)
Theorem C8_description_validation :
  forall (R : Runtime) (E : Env) (d : list (str * pyval)) (w : world)
         (url description : str),
    request_text d (u "url") = Some url ->
    request_text d (u "product_description") = Some description ->
    description = [] \/ (len description > 200)%Z ->
    generate_email (PDict d) w =
    (Ret {| status := 400;
            body := PDict
              [(u "success", PBool false);
               (u "error",
                PStr match detect_url_type url, description with
                     | None, _ => u "Invalid LinkedIn URL"
                     | Some _, [] => u "Product description is required"
                     | Some _, _ :: _ =>
                         u "Product description must be 200 characters or less"
                     end);
               (u "step", PStr (u "validation"))] |}, w).
Proof.
  intros R E d w url description Hurl Hdesc Hbad.
  unfold generate_email.
  rewrite (request_text_get _ _ Hurl), (request_text_get _ _ Hdesc).
  destruct (detect_url_type url) as [t |]; [| reflexivity].
  destruct description as [| c description]; [reflexivity |].
  destruct Hbad as [Hbad | Hbad]; [discriminate |].
  apply Z.gtb_gt in Hbad. rewrite Hbad. reflexivity.
Qed.

(** C8 on a request without a description and on one whose description has
    201 characters, in a world whose service would answer. *)
Lemma C8_description_validation_witness :
  (forall R : Runtime,
     @generate_email R (sample_env (answers (u "Hi")))
       (PDict request_without_description) 0%nat =
     (Ret {| status := 400;
             body := PDict
               [(u "success", PBool false);
                (u "error", PStr (u "Product description is required"));
                (u "step", PStr (u "validation"))] |}, 0%nat))
  /\ (forall R : Runtime,
        @generate_email R (sample_env (answers (u "Hi")))
          (PDict request_with_long_description) 0%nat =
        (Ret {| status := 400;
                body := PDict
                  [(u "success", PBool false);
                   (u "error",
                    PStr (u "Product description must be 200 characters or less"));
                   (u "step", PStr (u "validation"))] |}, 0%nat)).
Proof.
  split; intros R.
  - apply (@C8_description_validation R (sample_env (answers (u "Hi")))
             request_without_description 0%nat
             (u "https://www.linkedin.com/in/jane-doe/") []);
      [reflexivity | reflexivity | left; reflexivity].
  - apply (@C8_description_validation R (sample_env (answers (u "Hi")))
             request_with_long_description 0%nat
             (u "https://www.linkedin.com/in/jane-doe/") (repeat 120 201));
      [reflexivity | reflexivity | right; reflexivity].
Defined.

(** C8, as the claim states it, fails.  A description of 201 characters that
    starts with a space is longer than 200 characters, and the request is
    not refused: the handler measures the trimmed text, so it goes on, calls
    the service and answers 200 with the email.  And a request whose
    description is [null] is not refused with status 400 either: [strip] is
    called on the value, and the [AttributeError] leaves the handler, the
    fields being read before the [try]. *)
Lemma C8_counterexample :
  len (32 :: repeat 120 200) = 201%Z
  /\ @generate_email sample_runtime
       (sample_env (answers (j "{'email': 'Hi Jane'}")))
       (PDict [(u "url", PStr (u "https://www.linkedin.com/in/jane-doe/"));
               (u "product_description", PStr (32 :: repeat 120 200))])
       0%nat
     = (Ret {| status := 200;
               body := PDict
                 [(u "success", PBool true);
                  (u "message", PStr (u "Email generated successfully!"));
                  (u "profile", PDict [(u "name", PStr (u "Jane Doe"));
                                       (u "headline", PStr (u "Engineer"))]);
                  (u "email", PStr (u "Hi Jane"));
                  (u "url_type", PStr (u "user"))] |}, 1%nat)
  /\ @generate_email sample_runtime (sample_env (answers (u "Hi")))
       (PDict [(u "url", PStr (u "https://www.linkedin.com/in/jane-doe/"));
               (u "product_description", PNone)])
       0%nat
     = (Raise AttributeError, 0%nat).
Proof.
  split; [reflexivity |]. split; vm_compute; reflexivity.
Qed.

(** The fallback on a failed extraction: the raw text becomes the email, and
    an empty raw text leaves the parse-failure object. *)
Lemma parse_error_fallback_failure (text : str) :
  parse_error_fallback (parse_failure text) =
  Ret (match text with
       | [] => parse_failure []
       | _ :: _ => PDict [(u "email", PStr text)]
       end).
Proof.
  unfold parse_error_fallback, parse_failure.
  destruct text; reflexivity.
Qed.

(** The fallback on any extracted value: when it does not raise, it gives
    the raw text of a marked value as the email and keeps any other
    value. *)
Lemma parse_error_fallback_result (extracted result : pyval) :
  parse_error_fallback extracted = Ret result ->
  result = fallback_result extracted.
Proof.
  unfold parse_error_fallback, fallback_result, marked_raw.
  destruct extracted as [| b | n | f | s | l | d]; cbn [py_in bind];
    try discriminate.
  - destruct (contains (u "_parse_error") s); cbn [py_getitem bind];
      [discriminate | intros [= <-]; reflexivity].
  - destruct (existsb _ l); cbn [py_getitem bind];
      [discriminate | intros [= <-]; reflexivity].
  - cbn [py_getitem py_get].
    destruct (lookup (u "_parse_error") d) as [m |]; cbn [bind];
      [| intros [= <-]; reflexivity].
    destruct (lookup (u "_raw") d) as [raw |].
    + destruct (truthy raw); intros [= <-]; reflexivity.
    + cbn [truthy]. intros [= <-]. reflexivity.
Qed.

Lemma failure_never_silently_empty (text : str) :
  never_silently_empty
    (match text with
     | [] => parse_failure []
     | _ :: _ => PDict [(u "email", PStr text)]
     end).
Proof.
  destruct text as [| c text].
  - right.
    exists [(u "_parse_error", PStr (u "Could not extract JSON"));
            (u "_raw", PStr [])],
           (PStr (u "Could not extract JSON")), [].
    split; [reflexivity | split; reflexivity].
  - left. exists [(u "email", PStr (c :: text))], (c :: text).
    split; [reflexivity | split; [reflexivity | discriminate]].
Qed.

(** What a run that produces a result has gone through: a response obtained
    by the retry loop, its text extracted, and the fallback applied. *)
Lemma run_email_generation_result `{Runtime} `{Env}
    (profile_json_path product_description profile_type : str)
    (output_path : option str) (w w' : world) (result : pyval) :
  run_email_generation profile_json_path product_description profile_type
    output_path w = (Ret (Some result), w') ->
  exists (req : request) (resp : response) (w1 : world) (tr : list event),
    with_backoff (responses_create req) default_max_retries default_base w
    = (Ret resp, w1, tr)
    /\ bind (extract_json_from_response (extract_output_text resp))
            parse_error_fallback = Ret result.
Proof.
  unfold run_email_generation.
  destruct (read_api_key w) as [[| k key] |]; try discriminate.
  destruct (read_prompt_template _ w) as [[| p prompt] |]; try discriminate.
  destruct (load_json_file profile_json_path w) as [loaded |]; try discriminate.
  destruct (unwrap_first loaded) as [profile_data |]; try discriminate.
  destruct (display_profile profile_type profile_data); try discriminate.
  unfold generate_cold_email.
  match goal with
  | |- context [with_backoff ?f ?n ?b w] =>
      destruct (with_backoff f n b w) as [[r w1] tr] eqn:Hrun
  end.
  destruct r as [resp | e].
  - intros Hres.
    match type of Hrun with
    | with_backoff (responses_create ?q) _ _ _ = _ => exists q
    end.
    exists resp, w1, tr. split; [exact Hrun |].
    destruct (usage resp); cbn [bind] in Hres; try discriminate Hres.
    all: destruct (bind (extract_json_from_response (extract_output_text resp))
                     parse_error_fallback) as [result' | e];
      try discriminate Hres.
    all: destruct output_path as [[| c path] |].
    all: try (destruct (save_json_file (c :: path) result' w1) as [[[] | e] w2]);
      try discriminate Hres.
    all: destruct (bind (py_in (u "email") result') _); try discriminate Hres.
    all: injection Hres as <- _; reflexivity.
  - cbn [bind]. discriminate.
Qed.

(** C9, as amended.  A result of [run_email_generation] comes from the text
    of a response that the retry loop obtained.  When none of the extraction
    attempts parses that text, each failing with a decoding error, the
    result is the object whose [email] is the text, which is then a usable
    email, or, for an empty text, the parse-failure object ([_parse_error]
    with the empty text under [_raw]): on this path the result is never
    silently empty.  When an attempt parses, the result is the first parsed
    value, except that a parsed object that carries [_parse_error] and a
    non-empty [_raw] is replaced by the object whose [email] is that
    [_raw]. *)
Theorem C9_fallback_result :
  forall (R : Runtime) (E : Env)
         (profile_json_path product_description profile_type : str)
         (output_path : option str) (w w' : world) (result : pyval),
    run_email_generation profile_json_path product_description profile_type
      output_path w = (Ret (Some result), w') ->
    exists (req : request) (resp : response) (w1 : world) (tr : list event),
      with_backoff (responses_create req) default_max_retries default_base w
      = (Ret resp, w1, tr)
      /\ forall blocks : list str,
           code_blocks (extract_output_text resp) blocks ->
           (Forall fails_to_parse
              (candidates blocks (extract_output_text resp)) ->
            result = match extract_output_text resp with
                     | [] => parse_failure []
                     | _ :: _ =>
                         PDict [(u "email", PStr (extract_output_text resp))]
                     end
            /\ never_silently_empty result)
           /\ (forall (before : list str) (c : str) (after : list str)
                      (parsed : pyval),
                 candidates blocks (extract_output_text resp)
                 = (before ++ c :: after)%list ->
                 Forall fails_to_parse before ->
                 json_loads c = Ret parsed ->
                 result = fallback_result parsed).
Proof.
  intros R E pjp pd pt op w w' result Hrun.
  destruct (run_email_generation_result _ _ _ _ _ Hrun)
    as [req [resp [w1 [tr [Hb Hres]]]]].
  exists req, resp, w1, tr. split; [exact Hb |].
  intros blocks Hblocks. apply code_blocks_findall in Hblocks.
  rewrite extract_first_parsed, Hblocks in Hres. split.
  - intros Hall. rewrite (first_parsed_all_fail Hall) in Hres.
    cbn [bind] in Hres. rewrite parse_error_fallback_failure in Hres.
    injection Hres as <-. split; [reflexivity |].
    apply failure_never_silently_empty.
  - intros before c after parsed Hcand Hbefore Hc.
    rewrite Hcand, (@first_parsed_found _ before c after parsed Hbefore Hc)
      in Hres.
    cbn [bind] in Hres. exact (parse_error_fallback_result _ Hres).
Qed.

(** C9 on a service that answers with plain prose: no attempt parses it, and
    the prose becomes the email. *)
Lemma C9_fallback_result_witness :
  @run_email_generation sample_runtime
    (sample_env (answers (u "Hello Jane")))
    (u "AllFiles/profile_data.json") (u "A scheduling tool") (u "user")
    None 0%nat
  = (Ret (Some (PDict [(u "email", PStr (u "Hello Jane"))])), 1%nat)
  /\ code_blocks (u "Hello Jane") []
  /\ Forall (@fails_to_parse sample_runtime) (candidates [] (u "Hello Jane"))
  /\ exists (req : request) (resp : response) (w1 : nat) (tr : list event),
       @with_backoff (sample_env (answers (u "Hello Jane"))) response
         (@responses_create (sample_env (answers (u "Hello Jane"))) req)
         default_max_retries default_base 0%nat
       = (Ret resp, w1, tr)
       /\ forall blocks : list str,
            code_blocks (extract_output_text resp) blocks ->
            (Forall (@fails_to_parse sample_runtime)
               (candidates blocks (extract_output_text resp)) ->
             PDict [(u "email", PStr (u "Hello Jane"))]
             = match extract_output_text resp with
               | [] => parse_failure []
               | _ :: _ =>
                   PDict [(u "email", PStr (extract_output_text resp))]
               end
             /\ never_silently_empty
                  (PDict [(u "email", PStr (u "Hello Jane"))]))
            /\ (forall (before : list str) (c : str) (after : list str)
                       (parsed : pyval),
                  candidates blocks (extract_output_text resp)
                  = (before ++ c :: after)%list ->
                  Forall (@fails_to_parse sample_runtime) before ->
                  @json_loads sample_runtime c = Ret parsed ->
                  PDict [(u "email", PStr (u "Hello Jane"))]
                  = fallback_result parsed).
Proof.
  split; [vm_compute; reflexivity |].
  split; [apply code_blocks_iff; vm_compute; reflexivity |].
  split; [repeat constructor |].
  apply (@C9_fallback_result sample_runtime
           (sample_env (answers (u "Hello Jane")))
           (u "AllFiles/profile_data.json") (u "A scheduling tool") (u "user")
           None 0%nat 1%nat).
  vm_compute. reflexivity.
Defined.

(** C9, as the claim states it, fails: when the service answers [{}], the
    text parses, the pipeline returns the empty object, and that result has
    neither an email nor the parse-failure indicator. *)
Lemma C9_counterexample :
  @json_loads sample_runtime (u "{}") = Ret (PDict [])
  /\ @run_email_generation sample_runtime (sample_env (answers (u "{}")))
       (u "AllFiles/profile_data.json") (u "A scheduling tool") (u "user")
       None 0%nat
     = (Ret (Some (PDict [])), 1%nat)
  /\ ~ never_silently_empty (PDict []).
Proof.
  split; [vm_compute; reflexivity |]. split.
  - vm_compute. reflexivity.
  - intros [[d [e [Hd [He _]]]] | [d [m [raw [Hd [Hm _]]]]]];
      injection Hd as <-; discriminate.
Qed.

(* ================================================================== *)
(** * Further properties of the retry loop *)
(* ================================================================== *)

Section BackoffShape.
Context `{Env}.
Variable A : Type.
Variable fn : world -> res A * world.

(** An attempt that is not retried ends the loop: its outcome is the
    outcome of the loop. *)
Lemma backoff_loop_settled base remaining i w :
  retried (fst (fn w)) = false ->
  backoff_loop fn base (S remaining) i w = (fst (fn w), snd (fn w), [Called]).
Proof.
  simpl. destruct (fn w) as [r w1]. simpl.
  destruct r as [a | e]; [reflexivity |].
  destruct e; simpl; try reflexivity; try discriminate.
  intros ->. reflexivity.
Qed.

(** Every run of the loop is a number [k] of retried attempts followed
    either by the attempt that settles it or, when the attempts are used
    up, by the terminal failure. *)
Lemma backoff_loop_shape base : forall n i w,
  exists k, (k <= n)%nat
    /\ (forall j, (j < k)%nat ->
          retried (fst (fn (attempt_world fn base j i w))) = true)
    /\ ((k = n
         /\ backoff_loop fn base n i w =
            (Raise (RuntimeError msg_retries_exceeded),
             attempt_world fn base n i w, retry_trace base n i))
        \/ ((k < n)%nat
            /\ retried (fst (fn (attempt_world fn base k i w))) = false
            /\ backoff_loop fn base n i w =
               (fst (fn (attempt_world fn base k i w)),
                snd (fn (attempt_world fn base k i w)),
                retry_trace base k i ++ [Called]))).
Proof.
  induction n as [| n IH]; intros i w.
  - exists 0%nat. split; [lia |]. split; [intros j Hj; lia |].
    left. split; reflexivity.
  - destruct (retried (fst (fn w))) eqn:Hr.
    + destruct (IH (i + 1)%Z (time_sleep (base ^ i) (snd (fn w))))
        as [k [Hk [Hall Hcase]]].
      exists (S k). split; [lia |]. split.
      * intros [| j] Hj; [exact Hr | apply Hall; lia].
      * rewrite (backoff_loop_retried fn base n i w Hr).
        destruct Hcase as [[-> Heq] | [Hlt [Hs Heq]]].
        -- left. split; [reflexivity |]. rewrite Heq. reflexivity.
        -- right. split; [lia |]. split; [exact Hs |]. rewrite Heq. reflexivity.
    + exists 0%nat. split; [lia |]. split; [intros j Hj; lia |].
      right. split; [lia |]. split; [exact Hr |].
      apply backoff_loop_settled. exact Hr.
Qed.
End BackoffShape.

Lemma delays_app (a b : list event) : delays (a ++ b) = (delays a ++ delays b)%list.
Proof. unfold delays. apply flat_map_app. Qed.

Lemma calls_app (a b : list event) : calls (a ++ b) = (calls a + calls b)%nat.
Proof. unfold calls. rewrite filter_app, length_app. reflexivity. Qed.

Lemma delays_retry_trace base k : forall i,
  delays (retry_trace base k i) =
  map (fun j => (base ^ (i + Z.of_nat j))%Z) (seq 0 k).
Proof.
  induction k as [| k IH]; intros i; [reflexivity |].
  change (delays (retry_trace base (S k) i))
    with ((base ^ i)%Z :: delays (retry_trace base k (i + 1))).
  rewrite IH. cbn [seq map]. rewrite Z.add_0_r. f_equal.
  rewrite <- seq_shift, map_map. apply map_ext.
  intros j. f_equal. lia.
Qed.

Lemma calls_retry_trace base k : forall i, calls (retry_trace base k i) = k.
Proof.
  induction k as [| k IH]; intros i; [reflexivity |].
  change (calls (retry_trace base (S k) i))
    with (S (calls (retry_trace base k (i + 1)))).
  rewrite IH. reflexivity.
Qed.

(** X1.  With the defaults of [with_backoff] (six attempts, base 2.0), the
    first attempt that succeeds, or fails with an error that is not
    retried, ends the run: after [k] retried attempts, [k < 6],
    [with_backoff] returns the outcome of attempt [k] (a value, or the
    exception as it was raised) and the world as that call left it, having
    slept [k] times and never after the last call. *)
Theorem with_backoff_first_settled :
  forall (E : Env) (A : Type) (fn : world -> res A * world) (w : world)
         (k : nat),
    (k < 6)%nat ->
    (forall j, (j < k)%nat ->
               retried (fst (fn (attempt_world fn default_base j 0 w))) = true) ->
    retried (fst (fn (attempt_world fn default_base k 0 w))) = false ->
    with_backoff fn default_max_retries default_base w =
    (fst (fn (attempt_world fn default_base k 0 w)),
     snd (fn (attempt_world fn default_base k 0 w)),
     retry_trace default_base k 0 ++ [Called]).
Proof.
  intros E A fn w k Hk Hpre Hlast.
  unfold with_backoff, default_max_retries.
  replace 6%nat with (k + S (6 - S k))%nat by lia.
  rewrite backoff_loop_prefix by assumption.
  rewrite backoff_loop_settled by assumption. reflexivity.
Qed.

(** A service that is rate limited twice and then answers: the third call
    returns the response, after waits of 1 and 2 seconds. *)
Lemma with_backoff_first_settled_witness :
  let E := sample_env (fun n => match n with
                                | 0%nat | 1%nat => Raise RateLimitError
                                | _ => Ret (text_response (u "Hi"))
                                end) in
  let fn := @responses_create E
              {| req_model := MODEL; req_reasoning_effort := u "medium";
                 req_input := u "hello"; req_max_output_tokens := 4000 |} in
  with_backoff fn default_max_retries default_base 0%nat =
  (Ret (text_response (u "Hi")), 3%nat,
   [Called; Slept 1; Called; Slept 2; Called]).
Proof.
  intros E fn.
  apply (@with_backoff_first_settled E response fn 0%nat 2%nat).
  - lia.
  - intros j Hj.
    assert (j = 0 \/ j = 1)%nat as [-> | ->] by lia; reflexivity.
  - reflexivity.
Defined.

(** X2.  With its defaults (six attempts, base 2.0), whatever the wrapped
    function does, [with_backoff] calls it at most 6 times; the delays are
    the powers [2 ** 0], [2 ** 1], ... in this order, one after every
    retried attempt, [k] of them with [k <= 6]; and the calls are [k + 1],
    or [k] when the attempts are used up. *)
Theorem with_backoff_trace_bounds :
  forall (E : Env) (A : Type) (fn : world -> res A * world) (w : world),
    let tr := snd (with_backoff fn default_max_retries default_base w) in
    exists k, (k <= 6)%nat
      /\ delays tr = map (fun j => (2 ^ Z.of_nat j)%Z) (seq 0 k)
      /\ calls tr = Nat.min (S k) 6.
Proof.
  intros E A fn w tr. subst tr. unfold with_backoff.
  destruct (backoff_loop_shape fn default_base default_max_retries 0%Z w)
    as [k [Hk [_ [[Hkn Heq] | [Hlt [_ Heq]]]]]]; rewrite Heq; cbn [snd];
    unfold default_max_retries in *;
    exists k; (split; [lia |]).
  - subst k. rewrite delays_retry_trace, calls_retry_trace.
    split; [reflexivity | lia].
  - rewrite delays_app, calls_app, delays_retry_trace, calls_retry_trace.
    change (delays [Called]) with (@nil Z).
    change (calls [Called]) with 1%nat.
    rewrite app_nil_r. split; [reflexivity | lia].
Qed.

(** X3.  With its defaults [with_backoff] makes at most 6 calls and sleeps at
    most 63 seconds in all, whatever the wrapped function does. *)
Theorem with_backoff_default_budget :
  forall (E : Env) (A : Type) (fn : world -> res A * world) (w : world),
    let tr := snd (with_backoff fn default_max_retries default_base w) in
    (calls tr <= 6)%nat
    /\ (0 <= fold_right Z.add 0 (delays tr) <= 63)%Z.
Proof.
  intros E A fn w tr. subst tr. unfold with_backoff.
  destruct (backoff_loop_shape fn default_base default_max_retries 0%Z w)
    as [k [Hk [_ [[Hkn Heq] | [Hlt [_ Heq]]]]]]; rewrite Heq; cbn [snd].
  - rewrite delays_retry_trace, calls_retry_trace.
    split; [unfold default_max_retries; lia | vm_compute; split; discriminate].
  - rewrite delays_app, calls_app, delays_retry_trace, calls_retry_trace.
    unfold default_max_retries in Hlt, Hk.
    split; [change (calls [Called]) with 1%nat; lia |].
    assert (k = 0 \/ k = 1 \/ k = 2 \/ k = 3 \/ k = 4 \/ k = 5)%nat as Hc by lia.
    destruct Hc as [-> | [-> | [-> | [-> | [-> | ->]]]]];
      vm_compute; split; discriminate.
Qed.

(* ================================================================== *)
(** * Properties of trimming *)
(* ================================================================== *)

Section StripChars.
Variable p : char -> bool.

Lemma rstrip_chars_cons (c : char) (s : str) :
  rstrip_chars p (c :: s) =
  match rstrip_chars p s with
  | [] => if p c then [] else [c]
  | _ :: _ => c :: rstrip_chars p s
  end.
Proof. reflexivity. Qed.

Lemma rstrip_chars_app (a b : str) :
  rstrip_chars p (a ++ b) =
  match rstrip_chars p b with
  | [] => rstrip_chars p a
  | _ :: _ => a ++ rstrip_chars p b
  end.
Proof.
  induction a as [| c a IH]; simpl app.
  - destruct (rstrip_chars p b); reflexivity.
  - rewrite !rstrip_chars_cons, IH.
    destruct (rstrip_chars p b) as [| x t]; [reflexivity |].
    destruct a; reflexivity.
Qed.

Lemma rstrip_chars_all (s : str) :
  forallb p s = true -> rstrip_chars p s = [].
Proof.
  induction s as [| c s IH]; [reflexivity |].
  intros Hall. cbn [forallb] in Hall.
  apply andb_true_iff in Hall as [Hc Hs].
  rewrite rstrip_chars_cons, IH, Hc by assumption. reflexivity.
Qed.

(** Text that ends with a character outside the set is not shortened. *)
Lemma rstrip_chars_last (a : str) (c : char) :
  p c = false -> rstrip_chars p (a ++ [c]) = a ++ [c].
Proof.
  intros Hc. rewrite rstrip_chars_app.
  change (rstrip_chars p [c]) with (if p c then @nil char else [c]).
  rewrite Hc. reflexivity.
Qed.

(** What is left ends with a character outside the set. *)
Lemma rstrip_chars_ends (s : str) :
  rstrip_chars p s = [] \/
  exists a c, rstrip_chars p s = a ++ [c] /\ p c = false.
Proof.
  induction s as [| c s IH]; [now left |].
  rewrite rstrip_chars_cons.
  destruct IH as [-> | [a [x [-> Hx]]]].
  - destruct (p c) eqn:Hc; [now left | right].
    exists [], c. split; [reflexivity | exact Hc].
  - right. destruct (a ++ [x]) as [| y t] eqn:Hax.
    + destruct a; discriminate.
    + exists (c :: a), x. rewrite <- Hax. split; [reflexivity | exact Hx].
Qed.

Lemma rstrip_chars_idem (s : str) :
  rstrip_chars p (rstrip_chars p s) = rstrip_chars p s.
Proof.
  destruct (rstrip_chars_ends s) as [-> | [a [c [-> Hc]]]]; [reflexivity |].
  apply rstrip_chars_last. exact Hc.
Qed.

(** Trimming on the right keeps a first character outside the set. *)
Lemma rstrip_chars_head (c : char) (s : str) :
  p c = false -> exists t, rstrip_chars p (c :: s) = c :: t.
Proof.
  intros Hc. rewrite rstrip_chars_cons.
  destruct (rstrip_chars p s) as [| x t].
  - rewrite Hc. now exists [].
  - now exists (x :: t).
Qed.

Lemma lstrip_chars_head (s : str) :
  lstrip_chars p s = [] \/
  exists c t, lstrip_chars p s = c :: t /\ p c = false.
Proof.
  induction s as [| c s IH]; [now left |]. simpl.
  destruct (p c) eqn:Hc; [exact IH | right].
  exists c, s. split; [reflexivity | exact Hc].
Qed.

Lemma lstrip_chars_all (a s : str) :
  forallb p a = true -> lstrip_chars p (a ++ s) = lstrip_chars p s.
Proof.
  induction a as [| c a IH]; [reflexivity |]. simpl.
  intros Hall. apply andb_true_iff in Hall as [-> Ha]. now apply IH.
Qed.

Lemma strip_chars_idem (s : str) :
  strip_chars p (strip_chars p s) = strip_chars p s.
Proof.
  unfold strip_chars.
  destruct (lstrip_chars_head s) as [-> | [c [t [-> Hc]]]]; [reflexivity |].
  destruct (rstrip_chars_head t Hc) as [t' Ht]. rewrite Ht.
  simpl lstrip_chars. rewrite Hc. rewrite <- Ht. apply rstrip_chars_idem.
Qed.

(** Trimming keeps what holds of every character. *)
Lemma forallb_lstrip_chars (q : char -> bool) (s : str) :
  forallb q s = true -> forallb q (lstrip_chars p s) = true.
Proof.
  induction s as [| c s IH]; [reflexivity |]. simpl.
  intros Hall. destruct (p c); [| exact Hall].
  apply andb_true_iff in Hall as [_ Hs]. now apply IH.
Qed.

Lemma forallb_rstrip_chars (q : char -> bool) (s : str) :
  forallb q s = true -> forallb q (rstrip_chars p s) = true.
Proof.
  induction s as [| c s IH]; [reflexivity |].
  intros Hall. cbn [forallb] in Hall.
  apply andb_true_iff in Hall as [Hc Hs].
  rewrite rstrip_chars_cons. specialize (IH Hs).
  destruct (rstrip_chars p s) as [| x t].
  - destruct (p c); [reflexivity |]. cbn [forallb]. rewrite Hc. reflexivity.
  - cbn [forallb] in IH |- *. rewrite Hc, IH. reflexivity.
Qed.
End StripChars.

(** [s.strip()] is [s.strip(chars)] for the white space. *)
Lemma lstrip_lstrip_chars (s : str) : lstrip s = lstrip_chars is_space s.
Proof.
  induction s as [| c s IH]; [reflexivity |]. simpl. rewrite IH. reflexivity.
Qed.

Lemma strip_strip_chars (s : str) : strip s = strip_chars is_space s.
Proof. unfold strip, strip_chars. rewrite lstrip_lstrip_chars. reflexivity. Qed.

Lemma strip_idem (s : str) : strip (strip s) = strip s.
Proof. rewrite !strip_strip_chars. apply strip_chars_idem. Qed.

(* ================================================================== *)
(** * Properties of the URL helpers *)
(* ================================================================== *)

(** X4.  Trimming twice is trimming once, and the classifier and the two URL
    validators of the fetch modules give the same answer for a URL and for
    the URL without the white space around it. *)
Theorem url_checks_ignore_outer_space :
  forall (R : Runtime) (url : str),
    strip (strip url) = strip url
    /\ detect_url_type (strip url) = detect_url_type url
    /\ validate_linkedin_profile_url (strip url)
       = validate_linkedin_profile_url url
    /\ validate_linkedin_company_url (strip url)
       = validate_linkedin_company_url url.
Proof.
  intros R url. split; [apply strip_idem |].
  split; [rewrite !detect_url_type_shape, strip_idem; reflexivity |].
  unfold validate_linkedin_profile_url, validate_linkedin_company_url.
  rewrite strip_idem.
  split.
  - destruct (strip url) as [| c t] eqn:Hs.
    + destruct url; reflexivity.
    + destruct url; [discriminate | reflexivity].
  - destruct (strip url) as [| c t] eqn:Hs.
    + destruct url; reflexivity.
    + destruct url; [discriminate | reflexivity].
Qed.

(** X5.  The two fetch modules accept exactly the URLs the application
    classifies as theirs: [validate_linkedin_profile_url] holds of the URLs
    that [detect_url_type] calls a user, [validate_linkedin_company_url] of
    those it calls a company, and no URL passes both. *)
Theorem url_validators_agree_with_classifier :
  forall (R : Runtime) (url : str),
    (validate_linkedin_profile_url url = true
     <-> detect_url_type url = Some User)
    /\ (validate_linkedin_company_url url = true
        <-> detect_url_type url = Some Company)
    /\ (validate_linkedin_profile_url url
        && validate_linkedin_company_url url = false).
Proof.
  intros R url.
  assert (fullmatch user_pattern (strip url) = true ->
          fullmatch company_pattern (strip url) = true -> False) as Hdisj.
  { intros Hu Hc.
    apply fullmatch_matches in Hu. apply fullmatch_matches in Hc.
    apply (linkedin_pattern_shape User) in Hu.
    apply (linkedin_pattern_shape Company) in Hc.
    exact (url_shape_disjoint Hu Hc). }
  rewrite detect_url_type_shape.
  unfold validate_linkedin_profile_url, validate_linkedin_company_url.
  destruct url as [| c url'].
  - repeat split; intros Hx; discriminate Hx.
  - rewrite !re_match_strip.
    destruct (fullmatch user_pattern (strip (c :: url'))) eqn:Hu;
      destruct (fullmatch company_pattern (strip (c :: url'))) eqn:Hc.
    + exfalso. now apply Hdisj.
    + repeat split; intros Hx; try reflexivity; discriminate Hx.
    + repeat split; intros Hx; try reflexivity; discriminate Hx.
    + repeat split; intros Hx; discriminate Hx.
Qed.

(** A word character or a hyphen is an ASCII letter, digit, underscore or
    hyphen, or lies above U+007F: it is none of the characters that
    delimit or are removed from names. *)
Lemma word_or_hyphen_plain `{Runtime} (c : char) :
  word_or_hyphen c = true ->
  c <> 47 /\ c <> 32 /\ c <> 46 /\ forbidden_in_filename c = false.
Proof.
  intros Hw.
  repeat split; try (intros ->; vm_compute in Hw; discriminate Hw).
  unfold forbidden_in_filename.
  repeat match goal with
         | |- context [c =? ?k] =>
             destruct (N.eqb_spec c k) as [-> |];
             [vm_compute in Hw; discriminate Hw |]
         end.
  reflexivity.
Qed.

Lemma segment_app (token rest : str) :
  forallb (fun c => negb (c =? 47)) token = true ->
  segment (token ++ rest) = (token ++ segment rest)%list.
Proof.
  induction token as [| c token IH]; [reflexivity |].
  intros Hall. cbn [forallb] in Hall.
  apply andb_true_iff in Hall as [Hc Hs].
  simpl. destruct (c =? 47); [discriminate |]. rewrite IH by assumption.
  reflexivity.
Qed.

Lemma segment_no_slash (s : str) :
  forallb (fun c => negb (c =? 47)) s = true -> segment s = s.
Proof.
  intros Hall. rewrite <- (app_nil_r s) at 1.
  rewrite segment_app by assumption. apply app_nil_r.
Qed.

(** The search passes over text without a slash. *)
Lemma search_segment_skip (m pre s : str) :
  forallb (fun c => negb (c =? 47)) pre = true ->
  search_segment (47 :: m) (pre ++ s) = search_segment (47 :: m) s.
Proof.
  induction pre as [| c pre IH]; [reflexivity |].
  intros Hall. cbn [forallb] in Hall.
  apply andb_true_iff in Hall as [Hc Hs].
  change ((c :: pre) ++ s)%list with (c :: (pre ++ s)%list).
  cbn [search_segment startswith].
  rewrite N.eqb_sym. destruct (c =? 47); [discriminate |].
  cbn [andb]. now apply IH.
Qed.

Lemma search_segment_step (marker : str) (c : char) (s : str) :
  startswith marker (c :: s) = false ->
  search_segment marker (c :: s) = search_segment marker s.
Proof. intros Hs. cbn [search_segment]. rewrite Hs. reflexivity. Qed.

Lemma search_segment_hit (marker : str) (c : char) (s g : str) :
  startswith marker (c :: s) = true ->
  segment (skipn (List.length marker) (c :: s)) = g -> g <> [] ->
  search_segment marker (c :: s) = Some g.
Proof.
  intros Hs Hg Hne. cbn [search_segment]. rewrite Hs, Hg.
  destruct g; [contradiction | reflexivity].
Qed.

Lemma space_no_slash (s : str) :
  forallb is_space s = true -> forallb (fun c => negb (c =? 47)) s = true.
Proof.
  induction s as [| c s IH]; [reflexivity |]. cbn [forallb].
  intros Hall. apply andb_true_iff in Hall as [Hc Hs].
  rewrite IH by assumption.
  destruct (N.eqb_spec c 47) as [-> |]; [discriminate Hc | reflexivity].
Qed.

Lemma token_no_slash `{Runtime} (s : str) :
  forallb word_or_hyphen s = true ->
  forallb (fun c => negb (c =? 47)) s = true.
Proof.
  induction s as [| c s IH]; [reflexivity |]. cbn [forallb].
  intros Hall. apply andb_true_iff in Hall as [Hc Hs].
  rewrite IH by assumption.
  destruct (word_or_hyphen_plain c Hc) as [Hne _].
  destruct (N.eqb_spec c 47); [contradiction | reflexivity].
Qed.

(** X6.  The identifier the fetch modules take from a URL of the accepted shape,
    white space around it included: the token after [/in/] or [/company/].
    The search runs on the URL as it was passed, so when the URL has no
    final slash the white space after it becomes part of the identifier. *)
Theorem extract_identifier_of_accepted_url :
  forall (R : Runtime) (t : url_type)
         (pre scheme www token slash post : str),
    forallb is_space pre = true -> forallb is_space post = true ->
    In scheme [u "http://"; u "https://"] ->
    (www = [] \/ www = u "www.") ->
    token <> [] -> forallb word_or_hyphen token = true ->
    (slash = [] \/ slash = u "/") ->
    let url := (pre ++ scheme ++ www ++ u "linkedin.com/" ++ path_segment t
                ++ u "/" ++ token ++ slash ++ post)%list in
    match t with
    | User => extract_username_from_url url
    | Company => extract_company_identifier url
    end = (token ++ match slash with [] => post | _ :: _ => [] end)%list.
Proof.
  intros R t pre scheme www token slash post Hpre Hpost Hscheme Hwww Hne
    Htok Hslash url. subst url.
  apply space_no_slash in Hpre. apply space_no_slash in Hpost.
  apply token_no_slash in Htok.
  assert (segment (token ++ slash ++ post)
          = (token ++ match slash with [] => post | _ :: _ => [] end)%list)
    as Hseg.
  { rewrite segment_app by assumption. f_equal.
    destruct Hslash as [-> | ->]; [| reflexivity].
    apply segment_no_slash. exact Hpost. }
  assert (token ++ match slash with [] => post | _ :: _ => [] end <> [])%list
    as Hne'.
  { destruct token; [contradiction | discriminate]. }
  unfold extract_username_from_url, extract_company_identifier.
  change (u "/in/") with (47 :: u "in/").
  change (u "/company/") with (47 :: u "company/").
  destruct Hscheme as [<- | [<- | []]]; destruct Hwww as [-> | ->];
    destruct t;
    rewrite search_segment_skip by assumption;
    cbn [u map list_ascii_of_string N_of_ascii path_segment app];
    repeat (rewrite search_segment_step by reflexivity);
    (erewrite search_segment_hit;
     [reflexivity | reflexivity | exact Hseg | exact Hne']).
Qed.

(** The identifier of a company URL that ends with a line feed. *)
Lemma extract_identifier_of_accepted_url_witness :
  extract_company_identifier
    (u "https://www.linkedin.com/company/acme-inc" ++ [10])
  = (u "acme-inc" ++ [10])%list.
Proof.
  apply (@extract_identifier_of_accepted_url sample_runtime Company
           [] (u "https://") (u "www.") (u "acme-inc") [] [10]).
  - reflexivity.
  - reflexivity.
  - right. left. reflexivity.
  - right. reflexivity.
  - discriminate.
  - reflexivity.
  - left. reflexivity.
Defined.

(* ================================================================== *)
(** * Properties of file names *)
(* ================================================================== *)

Lemma safe_filename_inv (s : str) :
  safe_filename s = true ->
  exists c t a x,
    s = c :: t /\ s = (a ++ [x])%list
    /\ dot_or_space c = false /\ dot_or_space x = false
    /\ forallb (fun c => negb (forbidden_in_filename c) && negb (c =? 32)) s
       = true.
Proof.
  unfold safe_filename. intros Hs.
  apply andb_true_iff in Hs as [Hs Hall].
  apply andb_true_iff in Hs as [Hhd Hlast].
  destruct s as [| c t]; [discriminate |].
  assert (c :: t <> []) as Hne by discriminate.
  destruct (exists_last Hne) as [a [x Hax]].
  exists c, t, a, x. split; [reflexivity |]. split; [exact Hax |].
  assert (forall y, In y (c :: t) -> negb (y =? 46) = true ->
                    dot_or_space y = false) as Hds.
  { intros y Hy Hdot. unfold dot_or_space.
    rewrite forallb_forall in Hall. specialize (Hall y Hy).
    apply andb_true_iff in Hall as [_ Hsp].
    destruct (y =? 46); [discriminate |]. destruct (y =? 32); [discriminate |].
    reflexivity. }
  split; [apply Hds; [now left | exact Hhd] |].
  split; [| exact Hall].
  apply Hds.
  - rewrite Hax. apply in_or_app. right. now left.
  - rewrite Hax, last_last in Hlast. exact Hlast.
Qed.

(** The characters that are left after the substitution and the
    replacement. *)
Lemma sanitize_chars (name : str) :
  forallb (fun c => negb (forbidden_in_filename c) && negb (c =? 32))
    (map (fun c => if c =? 32 then 95 else c)
         (filter (fun c => negb (forbidden_in_filename c)) name)) = true.
Proof.
  induction name as [| c name IH]; [reflexivity |].
  cbn [filter]. destruct (forbidden_in_filename c) eqn:Hf; cbn [negb].
  - exact IH.
  - cbn [map forallb]. rewrite IH.
    destruct (N.eqb_spec c 32) as [-> | Hne]; [reflexivity |].
    rewrite Hf. destruct (N.eqb_spec c 32); [contradiction | reflexivity].
Qed.

Lemma sanitize_with_safe (fallback name : str) :
  safe_filename fallback = true ->
  safe_filename (sanitize_with fallback name) = true.
Proof.
  intros Hfb. unfold sanitize_with.
  set (s0 := map (fun c => if c =? 32 then 95 else c)
               (filter (fun c => negb (forbidden_in_filename c)) name)).
  assert (forallb (fun c => negb (forbidden_in_filename c) && negb (c =? 32))
            (strip_chars dot_or_space s0) = true) as Hall.
  { unfold strip_chars. apply forallb_rstrip_chars, forallb_lstrip_chars.
    apply sanitize_chars. }
  destruct (strip_chars dot_or_space s0) as [| c t] eqn:Hr; [exact Hfb |].
  unfold safe_filename. rewrite Hall, andb_true_r.
  unfold strip_chars in Hr.
  apply andb_true_iff. split.
  - destruct (lstrip_chars_head dot_or_space s0) as [Hl | [c' [t' [Hl Hc']]]];
      rewrite Hl in Hr; [discriminate |].
    destruct (@rstrip_chars_head dot_or_space c' t' Hc') as [t'' Ht]. rewrite Ht in Hr.
    injection Hr as -> _. unfold dot_or_space in Hc'.
    destruct (c =? 46); [discriminate | reflexivity].
  - destruct (rstrip_chars_ends dot_or_space (lstrip_chars dot_or_space s0))
      as [He | [a [x [He Hx]]]]; rewrite He in Hr; [discriminate |].
    rewrite <- Hr, last_last. unfold dot_or_space in Hx.
    destruct (x =? 46); [discriminate | reflexivity].
Qed.

Lemma sanitize_with_fixed (fallback name : str) :
  safe_filename name = true -> sanitize_with fallback name = name.
Proof.
  intros Hs.
  destruct (safe_filename_inv name Hs) as [c [t [a [x [Hct [Hax [Hc [Hx Hall]]]]]]]].
  unfold sanitize_with.
  assert (filter (fun c => negb (forbidden_in_filename c)) name = name) as ->.
  { clear - Hall. induction name as [| y name IH]; [reflexivity |].
    cbn [forallb] in Hall. apply andb_true_iff in Hall as [Hy Hn].
    apply andb_true_iff in Hy as [Hy _].
    cbn [filter]. rewrite Hy, IH by assumption. reflexivity. }
  assert (map (fun c => if c =? 32 then 95 else c) name = name) as ->.
  { clear - Hall. induction name as [| y name IH]; [reflexivity |].
    cbn [forallb] in Hall. apply andb_true_iff in Hall as [Hy Hn].
    apply andb_true_iff in Hy as [_ Hy].
    cbn [map]. rewrite IH by assumption.
    destruct (y =? 32); [discriminate | reflexivity]. }
  assert (strip_chars dot_or_space name = name) as ->.
  { unfold strip_chars. rewrite Hct. cbn [lstrip_chars]. rewrite Hc.
    rewrite <- Hct, Hax. apply rstrip_chars_last. exact Hx. }
  rewrite Hct. reflexivity.
Qed.

(** X7.  Whatever the name, each of the three [sanitize_filename] returns a
    name that is not empty, holds none of the characters the substitution
    removes (angle brackets, colon, double quote, slash, backslash, bar,
    question mark, star) and no space, and neither starts nor ends with a
    dot. *)
Theorem sanitize_filename_safe :
  forall name : str,
    safe_filename (sanitize_filename name) = true
    /\ safe_filename (FetchUserProfile.sanitize_filename name) = true
    /\ safe_filename (FetchCompanyProfile.sanitize_filename name) = true.
Proof.
  intros name.
  unfold sanitize_filename, FetchUserProfile.sanitize_filename,
    FetchCompanyProfile.sanitize_filename.
  repeat split.
  - destruct name; [reflexivity |]. apply sanitize_with_safe. reflexivity.
  - apply sanitize_with_safe. reflexivity.
  - apply sanitize_with_safe. reflexivity.
Qed.

(** X8.  A name that is already safe is returned as it is by each of the three
    [sanitize_filename]; so sanitizing twice is sanitizing once. *)
Theorem sanitize_filename_fixed :
  forall name : str,
    safe_filename name = true ->
    sanitize_filename name = name
    /\ FetchUserProfile.sanitize_filename name = name
    /\ FetchCompanyProfile.sanitize_filename name = name.
Proof.
  intros name Hs.
  unfold sanitize_filename, FetchUserProfile.sanitize_filename,
    FetchCompanyProfile.sanitize_filename.
  rewrite !sanitize_with_fixed by assumption.
  destruct name; [discriminate Hs |]. repeat split.
Qed.

(** A name with an underscore and an inner dot is kept. *)
Lemma sanitize_filename_fixed_witness :
  sanitize_filename (u "Jane_Doe.v2") = u "Jane_Doe.v2"
  /\ FetchUserProfile.sanitize_filename (u "Jane_Doe.v2") = u "Jane_Doe.v2"
  /\ FetchCompanyProfile.sanitize_filename (u "Jane_Doe.v2") = u "Jane_Doe.v2".
Proof.
  apply (@sanitize_filename_fixed (u "Jane_Doe.v2")). reflexivity.
Defined.

(* ================================================================== *)
(** * What the validators accept *)
(* ================================================================== *)

Ltac split_truthy :=
  repeat match goal with
         | |- context [truthy ?v] =>
             let Ht := fresh "Ht" in
             destruct (truthy v) eqn:Ht;
             cbn [bind negb orb andb]; rewrite ?Ht; cbn [bind negb orb andb]
         end.

Ltac settle_acceptance :=
  split;
  [ intros Hx; first [discriminate Hx | split; [reflexivity | lia]]
  | intros [Hc Hl]; first [discriminate Hc | reflexivity | exfalso; lia] ].

Section ValidatorAcceptance.
Context `{Runtime}.

Lemma validate_profile_dict (d : list (str * pyval)) :
  validate_profile_data (PDict d) = Ret (true, PNone) <->
  complete_profile d = true /\ (100 <= str_len (PDict d))%Z.
Proof.
  destruct d as [| e d].
  { split; [discriminate | intros [Hc _]; discriminate Hc]. }
  unfold validate_profile_data, complete_profile, get_or_none.
  cbn [truthy negb unwrap_first py_in py_get bind].
  destruct (lookup (u "error") (e :: d)) as [v |] eqn:Herr; cbn [bind].
  { split; [| intros [Hc _]; discriminate Hc].
    destruct (py_in (u "free Apify plan") v) as [[|] | x]; discriminate. }
  destruct (lookup (u "basic_info") (e :: d)) as [bi |] eqn:Hbi; cbn [bind].
  - destruct bi as [| | | | | | b];
      try (split; [discriminate | intros [Hc _]; discriminate Hc]).
    cbn [py_get bind].
    generalize (match lookup (u "fullname") b with
                | Some x => x | None => PNone end).
    generalize (match lookup (u "first_name") b with
                | Some x => x | None => PNone end).
    generalize (match lookup (u "headline") b with
                | Some x => x | None => PNone end).
    intros h f a. split_truthy;
      destruct (Z.ltb_spec (str_len (PDict (e :: d))) 100);
      settle_acceptance.
  - generalize (match lookup (u "fullName") (e :: d) with
                | Some x => x | None => PNone end).
    generalize (match lookup (u "firstName") (e :: d) with
                | Some x => x | None => PNone end).
    generalize (match lookup (u "headline") (e :: d) with
                | Some x => x | None => PNone end).
    intros h f a. split_truthy;
      destruct (Z.ltb_spec (str_len (PDict (e :: d))) 100);
      settle_acceptance.
Qed.

Lemma validate_company_dict (d : list (str * pyval)) :
  validate_company_data (PDict d) = Ret (true, PNone) <->
  complete_company d = true /\ (100 <= str_len (PDict d))%Z.
Proof.
  destruct d as [| e d].
  { split; [discriminate | intros [Hc _]; discriminate Hc]. }
  unfold validate_company_data, complete_company, get_or_none.
  cbn [truthy negb unwrap_first py_in py_get bind].
  destruct (lookup (u "error") (e :: d)) as [v |] eqn:Herr; cbn [bind].
  { split; [| intros [Hc _]; discriminate Hc].
    destruct (py_in (u "free Apify plan") v) as [[|] | x]; discriminate. }
  destruct (lookup (u "basic_info") (e :: d)) as [bi |] eqn:Hbi; cbn [bind].
  - destruct bi as [| | | | | | b];
      try (split; [discriminate | intros [Hc _]; discriminate Hc]).
    cbn [py_get bind].
    generalize (match lookup (u "name") b with
                | Some x => x | None => PNone end).
    intros a. split_truthy;
      destruct (Z.ltb_spec (str_len (PDict (e :: d))) 100);
      settle_acceptance.
  - split; [discriminate | intros [Hc _]; discriminate Hc].
Qed.

(** A payload that is accepted is a record. *)
Lemma validate_accepts_record (t : url_type) (data : pyval) :
  validate t data = Ret (true, PNone) ->
  exists d, record_of data = Some d /\ validate t (PDict d) = Ret (true, PNone).
Proof.
  intros Hv.
  assert (forall x, record_of x = None -> truthy x = true ->
            unwrap_first x = Some x ->
            validate t x <> Ret (true, PNone)) as Hbad.
  { intros x Hrec Htr Hun Hx.
    destruct t; unfold validate, validate_profile_data, validate_company_data in Hx;
      rewrite Htr, Hun in Hx; cbn [negb] in Hx;
      destruct x as [| b | z | f | s | l | d]; try discriminate;
      cbn [py_in bind] in Hx;
      repeat match type of Hx with
             | context [if ?c then _ else _] => destruct c
             end; discriminate Hx. }
  destruct data as [| b | z | f | s | items | d].
  - destruct t; discriminate Hv.
  - exfalso. destruct b; [| destruct t; discriminate Hv].
    now apply (Hbad (PBool true)).
  - exfalso. destruct (truthy (PInt z)) eqn:Htr.
    + now apply (Hbad (PInt z)).
    + destruct t; unfold validate, validate_profile_data, validate_company_data in Hv;
        rewrite Htr in Hv; discriminate Hv.
  - exfalso. destruct (truthy (PFloat f)) eqn:Htr.
    + now apply (Hbad (PFloat f)).
    + destruct t; unfold validate, validate_profile_data, validate_company_data in Hv;
        rewrite Htr in Hv; discriminate Hv.
  - exfalso. destruct s as [| c s]; [destruct t; discriminate Hv |].
    now apply (Hbad (PStr (c :: s))).
  - destruct items as [| x items]; [destruct t; discriminate Hv |].
    destruct x as [| b | z | f | s | l | d];
      try (exfalso; destruct t;
           unfold validate, validate_profile_data, validate_company_data in Hv;
           cbn [truthy negb unwrap_first py_in bind] in Hv;
           repeat match type of Hv with
                  | context [if ?c then _ else _] => destruct c
                  end; discriminate Hv).
    exists d. split; [reflexivity |].
    destruct d as [| e d]; [destruct t; discriminate Hv |].
    exact Hv.
  - exists d. split; [reflexivity | exact Hv].
Qed.
End ValidatorAcceptance.

(** X9.  [validate_profile_data] accepts exactly the payloads that stand for a
    record (a map, or a list whose first element is a map) that has no
    [error] key, holds a name and a headline that are not empty, and whose
    printed form is at least 100 characters long; every other payload is
    rejected or raises. *)
Theorem validate_profile_data_accepts :
  forall (R : Runtime) (data : pyval),
    validate_profile_data data = Ret (true, PNone) <->
    exists d, record_of data = Some d
              /\ complete_profile d = true
              /\ (100 <= str_len (PDict d))%Z.
Proof.
  intros R data. split.
  - intros Hv.
    destruct (validate_accepts_record User data Hv) as [d [Hrec Hd]].
    exists d. split; [exact Hrec |].
    apply validate_profile_dict. exact Hd.
  - intros [d [Hrec [Hc Hl]]].
    destruct d as [| e d]; [discriminate Hc |].
    assert (e :: d <> []) as Hne by discriminate.
    change (validate User data = Ret (true, PNone)).
    rewrite (validate_record User data Hrec Hne).
    apply validate_profile_dict. split; assumption.
Qed.

(** X10.  [validate_company_data] accepts exactly the payloads that stand for a
    record that has no [error] key, holds a name that is not empty under
    [basic_info], and whose printed form is at least 100 characters long.
    The description is read and never checked, and a name at the top
    level does not count. *)
Theorem validate_company_data_accepts :
  forall (R : Runtime) (data : pyval),
    validate_company_data data = Ret (true, PNone) <->
    exists d, record_of data = Some d
              /\ complete_company d = true
              /\ (100 <= str_len (PDict d))%Z.
Proof.
  intros R data. split.
  - intros Hv.
    destruct (validate_accepts_record Company data Hv) as [d [Hrec Hd]].
    exists d. split; [exact Hrec |].
    apply validate_company_dict. exact Hd.
  - intros [d [Hrec [Hc Hl]]].
    destruct d as [| e d]; [discriminate Hc |].
    assert (e :: d <> []) as Hne by discriminate.
    change (validate Company data = Ret (true, PNone)).
    rewrite (validate_record Company data Hrec Hne).
    apply validate_company_dict. split; assumption.
Qed.

(* ================================================================== *)
(** * Properties of the key and token readers *)
(* ================================================================== *)

(** A line is split at its first [=]: what comes before it holds none. *)
Lemma split_on_first (c : char) (a rest : str) :
  forallb (fun x => negb (x =? c)) a = true ->
  split_on [c] (a ++ c :: rest) = Some (a, rest).
Proof.
  induction a as [| x a IH]; intros Hall.
  - simpl. rewrite N.eqb_refl. reflexivity.
  - cbn [forallb] in Hall. apply andb_true_iff in Hall as [Hx Ha].
    change ((x :: a) ++ c :: rest)%list with (x :: (a ++ c :: rest)%list).
    cbn [split_on startswith]. rewrite N.eqb_sym.
    destruct (x =? c); [discriminate |]. cbn [andb].
    rewrite IH by assumption. reflexivity.
Qed.

Lemma split_on_found (c : char) (a rest : str) :
  exists b r, split_on [c] (a ++ c :: rest) = Some (b, r).
Proof.
  induction a as [| x a IH].
  - simpl. rewrite N.eqb_refl. now exists [], rest.
  - change ((x :: a) ++ c :: rest)%list with (x :: (a ++ c :: rest)%list).
    cbn [split_on startswith].
    destruct (c =? x); cbn [andb].
    + now exists [], (a ++ c :: rest)%list.
    + destruct IH as [b [r ->]]. now exists (x :: b), r.
Qed.

Lemma first_setting_read (name : str) (lines : list str) :
  exists k, first_setting (name ++ [61]) lines = Ret k
            /\ forall v, k = Some v -> strip v = v.
Proof.
  induction lines as [| line lines IH].
  - exists None. split; [reflexivity | discriminate].
  - cbn [first_setting].
    destruct (startswith (name ++ [61]) line) eqn:Hs; [| exact IH].
    apply startswith_inv in Hs as [rest ->].
    rewrite <- app_assoc. cbn [app].
    destruct (split_on_found 61 name rest) as [b [r Hsp]].
    match goal with
    | |- context [split_on ?n ?l] =>
        replace (split_on n l) with (Some (b, r)) by (symmetry; exact Hsp)
    end.
    exists (Some (strip r)). split; [reflexivity |].
    intros v Hv. injection Hv as <-. apply strip_idem.
Qed.

Lemma read_setting_read (name : str) (env_value : option str)
    (dotenv : option (list str)) :
  setting_read env_value (read_setting name env_value dotenv).
Proof.
  unfold setting_read, read_setting.
  destruct env_value as [[| c v] |].
  - destruct dotenv as [lines |].
    + destruct (first_setting_read name lines) as [k [-> Hk]].
      exists k. split; [reflexivity |]. split; [exact Hk |].
      intros v Hv Hne. injection Hv as <-. contradiction.
    + exists None. split; [reflexivity |]. split; [discriminate |].
      intros v Hv Hne. injection Hv as <-. contradiction.
  - exists (Some (strip (c :: v))). split; [reflexivity |]. split.
    + intros x Hx. injection Hx as <-. apply strip_idem.
    + intros x Hx _. injection Hx as <-. reflexivity.
  - destruct dotenv as [lines |].
    + destruct (first_setting_read name lines) as [k [-> Hk]].
      exists k. split; [reflexivity |]. split; [exact Hk | discriminate].
    + exists None. split; [reflexivity |]. split; discriminate.
Qed.

(** X11.  [read_api_key] and [read_token] do not raise, whatever the environment
    and the lines of [.env] hold; a key or token they return has no white
    space around it; and when the environment variable is set and not
    empty the result is its trimmed value, the file being ignored. *)
Theorem read_key_and_token_trimmed :
  forall (env_value : option str) (dotenv : option (list str)),
    setting_read env_value (Settings.read_api_key env_value dotenv)
    /\ setting_read env_value (Settings.read_token env_value dotenv).
Proof.
  intros env_value dotenv. split; apply read_setting_read.
Qed.

Lemma first_setting_line (name value : str) (before after : list str) :
  forallb (fun x => negb (x =? 61)) name = true ->
  Forall (fun line => startswith (name ++ [61]) line = false) before ->
  first_setting (name ++ [61])
    (before ++ (name ++ [61] ++ value)%list :: after)
  = Ret (Some (strip value)).
Proof.
  intros Hname Hbefore.
  induction Hbefore as [| line before Hline _ IH].
  - cbn [app first_setting].
    replace (name ++ 61 :: value)%list with ((name ++ [61]) ++ value)%list
      by (rewrite <- app_assoc; reflexivity).
    rewrite startswith_app. rewrite <- app_assoc. cbn [app].
    match goal with
    | |- context [split_on ?n ?l] =>
        replace (split_on n l) with (Some (name, value))
          by (symmetry; apply split_on_first; exact Hname)
    end.
    reflexivity.
  - cbn [app first_setting]. rewrite Hline. exact IH.
Qed.

(** X12.  Writing a key or a token to [.env] and reading it back: when the
    environment variable is unset or empty, the first line that starts with
    [OPENAI_API_KEY=] (or [APIFY_TOKEN=]) gives the result, which is what
    follows the first [=] on that line without the white space around it;
    the lines after it are not looked at. *)
Theorem dotenv_line_round_trip :
  forall (env_value : option str) (before after : list str) (value : str),
    env_value = None \/ env_value = Some [] ->
    (Forall (fun line => startswith (u "OPENAI_API_KEY=") line = false) before ->
     Settings.read_api_key env_value
       (Some (before ++ (u "OPENAI_API_KEY=" ++ value)%list :: after))
     = Ret (Some (strip value)))
    /\ (Forall (fun line => startswith (u "APIFY_TOKEN=") line = false) before ->
        Settings.read_token env_value
          (Some (before ++ (u "APIFY_TOKEN=" ++ value)%list :: after))
        = Ret (Some (strip value))).
Proof.
  intros env_value before after value Henv.
  unfold Settings.read_api_key, Settings.read_token, read_setting.
  split; intros Hbefore.
  - destruct Henv as [-> | ->];
      apply (@first_setting_line (u "OPENAI_API_KEY") value before after);
      first [reflexivity | exact Hbefore].
  - destruct Henv as [-> | ->];
      apply (@first_setting_line (u "APIFY_TOKEN") value before after);
      first [reflexivity | exact Hbefore].
Qed.

(** A file with a comment and both settings, the key with an [=] in it. *)
Lemma dotenv_line_round_trip_witness :
  Settings.read_api_key None
    (Some [u "# settings" ++ [10]; u "OPENAI_API_KEY= sk-a=b " ++ [10];
           u "APIFY_TOKEN=t1" ++ [10]])
  = Ret (Some (u "sk-a=b"))
  /\ Settings.read_token (Some [])
       (Some [u "# settings" ++ [10]; u "OPENAI_API_KEY= sk-a=b " ++ [10];
              u "APIFY_TOKEN=t1" ++ [10]])
     = Ret (Some (u "t1")).
Proof.
  split.
  - apply (@dotenv_line_round_trip None [u "# settings" ++ [10]]
             [u "APIFY_TOKEN=t1" ++ [10]] (u " sk-a=b " ++ [10])).
    + left. reflexivity.
    + repeat constructor.
  - apply (@dotenv_line_round_trip (Some [])
             [u "# settings" ++ [10]; u "OPENAI_API_KEY= sk-a=b " ++ [10]]
             [] (u "t1" ++ [10])).
    + right. reflexivity.
    + repeat constructor.
Defined.

(* ================================================================== *)
(** * Further properties of the pipeline *)
(* ================================================================== *)

Lemma join_nonempty (sep : str) (parts : list str) :
  parts <> [] -> Forall (fun p => p <> []) parts -> join sep parts <> [].
Proof.
  intros Hne Hall. destruct parts as [| p parts]; [contradiction |].
  inversion Hall as [| x l Hp _]; subst.
  destruct p as [| c p]; [contradiction |].
  destruct parts; discriminate.
Qed.

Lemma output_chunks_nonempty (items : list output_item) :
  Forall (fun p => p <> []) (output_chunks items).
Proof.
  unfold output_chunks. apply Forall_flat_map. apply Forall_forall.
  intros item _. destruct (item_content item) as [[| c parts] |];
    try constructor.
  apply Forall_flat_map. apply Forall_forall.
  intros part _. destruct (part_text part) as [[| x t] |]; repeat constructor.
  discriminate.
Qed.

(** X13.  The text taken from a response is empty only when the JSON dump of the
    response is: a text that is there is returned, then the texts of the
    content parts, then the dump.  So for a response with a dump, a text
    from which no JSON can be extracted becomes the email as it is. *)
Theorem extract_output_text_never_empty :
  forall (R : Runtime) (resp : response),
    model_dump_json resp <> [] ->
    extract_output_text resp <> []
    /\ (extract_json_from_response (extract_output_text resp)
        = Ret (parse_failure (extract_output_text resp)) ->
        bind (extract_json_from_response (extract_output_text resp))
             parse_error_fallback
        = Ret (PDict [(u "email", PStr (extract_output_text resp))])).
Proof.
  intros R resp Hdump.
  assert (extract_output_text resp <> []) as Hne.
  { unfold extract_output_text.
    destruct (output_text resp) as [[| c txt] |]; try discriminate.
    - destruct (output_chunks _) as [| p chunks] eqn:Hc; [exact Hdump |].
      apply join_nonempty; [discriminate |].
      rewrite <- Hc. apply output_chunks_nonempty.
    - destruct (output_chunks _) as [| p chunks] eqn:Hc; [exact Hdump |].
      apply join_nonempty; [discriminate |].
      rewrite <- Hc. apply output_chunks_nonempty. }
  split; [exact Hne |].
  intros ->. cbn [bind].
  destruct (extract_output_text resp) as [| c t]; [contradiction |].
  reflexivity.
Qed.

(** A response without [output_text] whose dump is not empty. *)
Lemma extract_output_text_never_empty_witness :
  let resp := {| output_text := None; output := Some [];
                 usage := NoUsageAttr; model_dump_json := u "{}" |} in
  extract_output_text resp <> []
  /\ (@extract_json_from_response sample_runtime (extract_output_text resp)
      = Ret (parse_failure (extract_output_text resp)) ->
      bind (@extract_json_from_response sample_runtime
              (extract_output_text resp))
           parse_error_fallback
      = Ret (PDict [(u "email", PStr (extract_output_text resp))])).
Proof.
  intros resp.
  apply (@extract_output_text_never_empty sample_runtime resp). discriminate.
Defined.

(** X14.  Without a key, without a template, or without a stored record (the
    file cannot be loaded, or holds an empty list) [run_email_generation]
    returns [None] and leaves the world as it was: the service is not
    called and nothing is saved. *)
Theorem run_email_generation_missing_input :
  forall (R : Runtime) (E : Env)
         (profile_json_path product_description profile_type : str)
         (output_path : option str) (w : world),
    read_api_key w = None \/ read_api_key w = Some []
    \/ read_prompt_template (prompt_file_for profile_type) w = None
    \/ read_prompt_template (prompt_file_for profile_type) w = Some []
    \/ load_json_file profile_json_path w = None
    \/ load_json_file profile_json_path w = Some (PList []) ->
    run_email_generation profile_json_path product_description profile_type
      output_path w = (Ret None, w).
Proof.
  intros R E path pd ptype out w Hmiss.
  unfold run_email_generation, prompt_file_for in *.
  destruct (read_api_key w) as [[| k key] |]; try reflexivity.
  destruct Hmiss as [Hm | [Hm | Hmiss]]; try discriminate Hm.
  destruct (read_prompt_template _ w) as [[| p prompt] |]; try reflexivity.
  destruct Hmiss as [Hm | [Hm | Hmiss]]; try discriminate Hm.
  destruct Hmiss as [-> | ->]; reflexivity.
Qed.

(** A world without a key. *)
Lemma run_email_generation_missing_input_witness :
  @run_email_generation sample_runtime
    (stub_env None (Some (u "Write a cold email.")) (Some sample_profile)
       (true, u "AllFiles/profile_data.json", sample_profile)
       (answers (u "Hi")))
    (u "AllFiles/profile_data.json") (u "A scheduling tool") (u "user")
    None 0%nat
  = (Ret None, 0%nat).
Proof.
  apply (@run_email_generation_missing_input sample_runtime
           (stub_env None (Some (u "Write a cold email.")) (Some sample_profile)
              (true, u "AllFiles/profile_data.json", sample_profile)
              (answers (u "Hi")))).
  left. reflexivity.
Defined.

(** X15.  When the key, the template and the record are there and every one of
    the six attempts of the generation call fails with a rate-limit or
    retryable-status error, [run_email_generation] raises the
    [RuntimeError] of the retry loop: it returns no result, not even
    [None], and the world is the one after the sixth sleep, so nothing is
    saved. *)
Theorem run_email_generation_retries_exhausted :
  forall (R : Runtime) (E : Env)
         (profile_json_path product_description profile_type : str)
         (output_path : option str) (w : world)
         (key prompt_text : str) (loaded profile_data : pyval),
    read_api_key w = Some key -> key <> [] ->
    read_prompt_template (prompt_file_for profile_type) w = Some prompt_text ->
    prompt_text <> [] ->
    load_json_file profile_json_path w = Some loaded ->
    unwrap_first loaded = Some profile_data ->
    display_profile profile_type profile_data = Ret tt ->
    (forall k, (k < 6)%nat ->
       retried (fst (responses_create
                       (generation_request prompt_text profile_data
                          product_description)
                       (attempt_world
                          (responses_create
                             (generation_request prompt_text profile_data
                                product_description))
                          default_base k 0 w))) = true) ->
    run_email_generation profile_json_path product_description profile_type
      output_path w
    = (Raise (RuntimeError msg_retries_exceeded),
       attempt_world
         (responses_create
            (generation_request prompt_text profile_data product_description))
         default_base 6 0 w).
Proof.
  intros R E path pd ptype out w key prompt loaded profile Hkey Hk Hprompt Hp
    Hload Hun Hdisp Hall.
  unfold run_email_generation. rewrite Hkey.
  destruct key as [| c key]; [contradiction |].
  unfold prompt_file_for in Hprompt. rewrite Hprompt.
  destruct prompt as [| x prompt]; [contradiction |].
  rewrite Hload, Hun, Hdisp.
  unfold generate_cold_email, with_backoff, default_max_retries.
  fold (generation_request (x :: prompt) profile pd).
  rewrite backoff_loop_exhausted by exact Hall.
  reflexivity.
Qed.

(** A world with everything in place whose service is always rate
    limited: six calls are made. *)
Lemma run_email_generation_retries_exhausted_witness :
  @run_email_generation sample_runtime (sample_env always_rate_limited)
    (u "AllFiles/profile_data.json") (u "A scheduling tool") (u "user")
    (Some (u "AllFiles/email_result.json")) 0%nat
  = (Raise (RuntimeError msg_retries_exceeded), 6%nat).
Proof.
  apply (@run_email_generation_retries_exhausted sample_runtime
           (sample_env always_rate_limited)
           (u "AllFiles/profile_data.json") (u "A scheduling tool") (u "user")
           (Some (u "AllFiles/email_result.json")) 0%nat
           (u "sk-test") (u "Write a cold email.") sample_profile
           sample_profile);
    try reflexivity; try discriminate.
Defined.

(* ================================================================== *)
(** * Further properties of the endpoints *)
(* ================================================================== *)

Section EndpointFacts.
Context `{Runtime} `{Env}.

(** Whatever the body of the [try] block returns is an answer of the
    right shape. *)
Lemma generate_email_try_shape (url : str) (t : url_type)
    (product_description : str) (w w' : world) (resp : http_response) :
  generate_email_try url t product_description w = (Ret resp, w') ->
  answer_shape resp.
Proof.
  unfold generate_email_try, answer_shape, bind.
  repeat match goal with
         | |- context [match ?x with _ => _ end] =>
             lazymatch x with
             | context [match _ with _ => _ end] => fail
             | _ => destruct x eqn:?
             end
         end;
    intros Hres; try discriminate Hres;
    injection Hres as <- _; cbn [status body];
    (split; [auto |]); eexists; split; reflexivity.
Qed.

(** The validators answer [True] only together with [None]. *)
Lemma validate_true_none (t : url_type) (data m : pyval) :
  validate t data = Ret (true, m) -> m = PNone.
Proof.
  destruct t; unfold validate, validate_profile_data, validate_company_data, bind;
    repeat match goal with
           | |- context [match ?x with _ => _ end] =>
               lazymatch x with
               | context [match _ with _ => _ end] => fail
               | _ => destruct x eqn:?
               end
           end;
    intros Hv; try discriminate Hv; injection Hv as <-; reflexivity.
Qed.

(** A status 200 comes only after a fetch that succeeded, a validator that
    accepted what was fetched, and an email that is not empty. *)
Lemma generate_email_try_success (url : str) (t : url_type)
    (product_description : str) (w w' : world) (resp : http_response) :
  generate_email_try url t product_description w = (Ret resp, w') ->
  status resp = 200%Z ->
  exists (w1 w2 : world) (path : str) (data email : pyval)
         (fields : list (str * pyval)),
    match t with
    | User => fetch_linkedin_profile url w1
    | Company => fetch_linkedin_company url w1
    end = ((true, path, data), w2)
    /\ validate t data = Ret (true, PNone)
    /\ body resp = PDict fields
    /\ lookup (u "email") fields = Some email
    /\ truthy email = true.
Proof.
  unfold generate_email_try, bind.
  repeat match goal with
         | |- context [match ?x with _ => _ end] =>
             lazymatch x with
             | context [match _ with _ => _ end] => fail
             | _ => destruct x eqn:?
             end
         end;
    intros Hres Hst; try discriminate Hres;
    injection Hres as <- _; cbn [status body] in *; try discriminate Hst.
  all: repeat match goal with
              | Hb : negb _ = false |- _ => apply negb_false_iff in Hb
              end; subst.
  all: match goal with
       | Hf : _ = (true, ?path, ?data, ?wb),
         Hv : _ ?data = Ret (true, ?m),
         Hg : py_get _ (u "email") (PStr []) = Ret ?email,
         Ht : truthy ?email = true |- _ =>
           match type of Hf with
           | _ _ ?wa = _ =>
               exists wa, wb, path, data, email; eexists;
               split; [exact Hf |];
               split; [| split; [reflexivity | split; [reflexivity | exact Ht]]]
           end
       end.
  all: match goal with
       | Hv : _ ?data = Ret (true, ?m) |- validate ?t ?data = _ =>
           rewrite <- (@validate_true_none t data m Hv); exact Hv
       end.
Qed.
End EndpointFacts.

Lemma request_text_of_get (d : list (str * pyval)) (key text : str) :
  (let* a := py_get (PDict d) key (PStr []) in py_strip a) = Ret text ->
  request_text d key = Some text.
Proof.
  unfold request_text. cbn [py_get bind].
  destruct (lookup key d) as [v |].
  - destruct v; try discriminate. intros [= <-]. reflexivity.
  - intros [= <-]. reflexivity.
Qed.

(** X16.  A generation request whose [url] and [product_description] are text
    (or absent) is always answered: whatever the fetch, the validators, the
    service and the decoding do, and whatever is raised inside the handler,
    the answer has status 200, 400 or 500 and a [success] flag that is true
    exactly for 200. *)
Theorem generate_email_always_answers :
  forall (R : Runtime) (E : Env) (d : list (str * pyval)) (w : world)
         (url description : str),
    request_text d (u "url") = Some url ->
    request_text d (u "product_description") = Some description ->
    exists resp w',
      generate_email (PDict d) w = (Ret resp, w') /\ answer_shape resp.
Proof.
  intros R E d w url description Hurl Hdesc.
  unfold generate_email.
  rewrite (request_text_get _ _ Hurl), (request_text_get _ _ Hdesc).
  assert (forall error step,
            answer_shape {| status := 400; body := failure_body error step |})
    as H400.
  { intros error step. split; [auto |]. eexists. split; reflexivity. }
  destruct (detect_url_type url) as [t |]; [| eexists; eexists; split; [reflexivity | apply H400]].
  destruct description as [| c description];
    [eexists; eexists; split; [reflexivity | apply H400] |].
  destruct (len (c :: description) >? 200)%Z;
    [eexists; eexists; split; [reflexivity | apply H400] |].
  destruct (generate_email_try url t (c :: description) w) as [[resp | e] w']
    eqn:Htry.
  - exists resp, w'. split; [reflexivity |].
    exact (generate_email_try_shape _ _ _ _ Htry).
  - eexists; eexists. split; [reflexivity |].
    split; [auto |]. eexists. split; reflexivity.
Qed.

(** The answer on a service that is always rate limited. *)
Lemma generate_email_always_answers_witness :
  exists resp w',
    @generate_email sample_runtime (sample_env always_rate_limited)
      (PDict [(u "url", PStr (u "https://www.linkedin.com/in/jane-doe/"));
              (u "product_description", PStr (u "A scheduling tool"))])
      0%nat = (Ret resp, w')
    /\ answer_shape resp.
Proof.
  apply (@generate_email_always_answers sample_runtime
           (sample_env always_rate_limited)
           [(u "url", PStr (u "https://www.linkedin.com/in/jane-doe/"));
            (u "product_description", PStr (u "A scheduling tool"))]
           0%nat (u "https://www.linkedin.com/in/jane-doe/")
           (u "A scheduling tool"));
    reflexivity.
Defined.

(** X17.  In a request whose fields are text or absent, a URL that is neither
    a person URL nor a company URL is refused before the description is
    checked: the answer is 400 with [Invalid LinkedIn URL] at the validation
    step, whatever the text of the product description (empty or too long
    as well), and the world is left as it was. *)
Theorem generate_email_invalid_url :
  forall (R : Runtime) (E : Env) (d : list (str * pyval)) (w : world)
         (url description : str),
    request_text d (u "url") = Some url ->
    request_text d (u "product_description") = Some description ->
    detect_url_type url = None ->
    generate_email (PDict d) w =
    (Ret {| status := 400;
            body := failure_body (PStr (u "Invalid LinkedIn URL"))
                                 (u "validation") |}, w).
Proof.
  intros R E d w url description Hurl Hdesc Hdet.
  unfold generate_email.
  rewrite (request_text_get _ _ Hurl), (request_text_get _ _ Hdesc), Hdet.
  reflexivity.
Qed.

(** A URL without a scheme, with a description that would be accepted. *)
Lemma generate_email_invalid_url_witness :
  @generate_email sample_runtime (sample_env (answers (u "Hi")))
    (PDict [(u "url", PStr (u "linkedin.com/in/jane-doe"));
            (u "product_description", PStr (u "A scheduling tool"))])
    0%nat =
  (Ret {| status := 400;
          body := failure_body (PStr (u "Invalid LinkedIn URL"))
                               (u "validation") |}, 0%nat).
Proof.
  apply (@generate_email_invalid_url sample_runtime
           (sample_env (answers (u "Hi")))
           [(u "url", PStr (u "linkedin.com/in/jane-doe"));
            (u "product_description", PStr (u "A scheduling tool"))]
           0%nat (u "linkedin.com/in/jane-doe") (u "A scheduling tool"));
    reflexivity.
Defined.

(** X18.  When the fetch reports a failure the answer is 500 at the fetch step,
    and the world is the one the fetch left: nothing is validated and no
    email is generated. *)
Theorem generate_email_fetch_failure :
  forall (R : Runtime) (E : Env) (d : list (str * pyval)) (w w1 w2 : world)
         (url description path : str) (t : url_type) (data : pyval),
    request_text d (u "url") = Some url ->
    request_text d (u "product_description") = Some description ->
    detect_url_type url = Some t ->
    description <> [] -> (len description <= 200)%Z ->
    clear_work_directory w = (Ret tt, w1) ->
    match t with
    | User => fetch_linkedin_profile url w1
    | Company => fetch_linkedin_company url w1
    end = ((false, path, data), w2) ->
    exists error,
      generate_email (PDict d) w =
      (Ret {| status := 500;
              body := failure_body (PStr error) (u "fetch") |}, w2).
Proof.
  intros R E d w w1 w2 url description path t data Hurl Hdesc Hdet Hne Hlen
    Hclear Hfetch.
  unfold generate_email.
  rewrite (request_text_get _ _ Hurl), (request_text_get _ _ Hdesc), Hdet.
  destruct description as [| c description]; [contradiction |].
  destruct (Z.gtb_spec (len (c :: description)) 200); [lia |].
  unfold generate_email_try. rewrite Hclear.
  destruct t; rewrite Hfetch; cbn [negb]; eexists; reflexivity.
Qed.

(** A company URL in a world whose fetch fails. *)
Lemma generate_email_fetch_failure_witness :
  exists error,
    @generate_email sample_runtime
      (stub_env (Some (u "sk-test")) (Some (u "Write a cold email.")) None
         (false, [], PNone) (answers (u "Hi")))
      (PDict [(u "url", PStr (u "https://linkedin.com/company/acme"));
              (u "product_description", PStr (u "A scheduling tool"))])
      0%nat =
    (Ret {| status := 500;
            body := failure_body (PStr error) (u "fetch") |}, 0%nat).
Proof.
  apply (@generate_email_fetch_failure sample_runtime
           (stub_env (Some (u "sk-test")) (Some (u "Write a cold email.")) None
              (false, [], PNone) (answers (u "Hi")))
           [(u "url", PStr (u "https://linkedin.com/company/acme"));
            (u "product_description", PStr (u "A scheduling tool"))]
           0%nat 0%nat 0%nat (u "https://linkedin.com/company/acme")
           (u "A scheduling tool") [] Company PNone);
    try reflexivity.
  - discriminate.
  - vm_compute. discriminate.
Defined.

(** X19.  When the validator rejects what was fetched the answer is 400 at the
    validation step with the message of the validator as its error, and
    the world is the one the fetch left: no email is generated. *)
Theorem generate_email_rejected_data :
  forall (R : Runtime) (E : Env) (d : list (str * pyval)) (w w1 w2 : world)
         (url description path : str) (t : url_type) (data message : pyval),
    request_text d (u "url") = Some url ->
    request_text d (u "product_description") = Some description ->
    detect_url_type url = Some t ->
    description <> [] -> (len description <= 200)%Z ->
    clear_work_directory w = (Ret tt, w1) ->
    match t with
    | User => fetch_linkedin_profile url w1
    | Company => fetch_linkedin_company url w1
    end = ((true, path, data), w2) ->
    validate t data = Ret (false, message) ->
    exists details,
      generate_email (PDict d) w =
      (Ret {| status := 400;
              body := PDict [(u "success", PBool false);
                             (u "error", message);
                             (u "step", PStr (u "validation"));
                             (u "details", PStr details)] |}, w2).
Proof.
  intros R E d w w1 w2 url description path t data message Hurl Hdesc Hdet
    Hne Hlen Hclear Hfetch Hval.
  unfold generate_email.
  rewrite (request_text_get _ _ Hurl), (request_text_get _ _ Hdesc), Hdet.
  destruct description as [| c description]; [contradiction |].
  destruct (Z.gtb_spec (len (c :: description)) 200); [lia |].
  unfold generate_email_try. rewrite Hclear.
  destruct t; rewrite Hfetch; cbn [negb]; unfold validate in Hval;
    rewrite Hval; eexists; reflexivity.
Qed.

(** A person URL whose fetched record has a name and no headline. *)
Lemma generate_email_rejected_data_witness :
  exists details,
    @generate_email sample_runtime
      (stub_env (Some (u "sk-test")) (Some (u "Write a cold email.")) None
         (true, u "AllFiles/profile_data.json",
          PDict [(u "fullName", PStr (u "Jane Doe"))])
         (answers (u "Hi")))
      (PDict [(u "url", PStr (u "https://www.linkedin.com/in/jane-doe/"));
              (u "product_description", PStr (u "A scheduling tool"))])
      0%nat =
    (Ret {| status := 400;
            body := PDict [(u "success", PBool false);
                           (u "error", PStr msg_profile_missing_headline);
                           (u "step", PStr (u "validation"));
                           (u "details", PStr details)] |}, 0%nat).
Proof.
  apply (@generate_email_rejected_data sample_runtime
           (stub_env (Some (u "sk-test")) (Some (u "Write a cold email.")) None
              (true, u "AllFiles/profile_data.json",
               PDict [(u "fullName", PStr (u "Jane Doe"))])
              (answers (u "Hi")))
           [(u "url", PStr (u "https://www.linkedin.com/in/jane-doe/"));
            (u "product_description", PStr (u "A scheduling tool"))]
           0%nat 0%nat 0%nat (u "https://www.linkedin.com/in/jane-doe/")
           (u "A scheduling tool") (u "AllFiles/profile_data.json") User
           (PDict [(u "fullName", PStr (u "Jane Doe"))])
           (PStr msg_profile_missing_headline));
    try reflexivity.
  - discriminate.
  - vm_compute. discriminate.
Defined.

(** X20.  An answer with status 200 is given only for a URL of one of the two
    kinds and a product description of 1 to 200 characters, after a fetch
    that reported success and returned data the validator of that kind
    accepted; and its body carries an email that is not empty. *)
Theorem generate_email_success_validated :
  forall (R : Runtime) (E : Env) (d : list (str * pyval)) (w w' : world)
         (resp : http_response),
    generate_email (PDict d) w = (Ret resp, w') ->
    status resp = 200%Z ->
    exists (url description path : str) (t : url_type) (w1 w2 : world)
           (data email : pyval) (fields : list (str * pyval)),
      request_text d (u "url") = Some url
      /\ request_text d (u "product_description") = Some description
      /\ detect_url_type url = Some t
      /\ (1 <= len description <= 200)%Z
      /\ match t with
         | User => fetch_linkedin_profile url w1
         | Company => fetch_linkedin_company url w1
         end = ((true, path, data), w2)
      /\ validate t data = Ret (true, PNone)
      /\ body resp = PDict fields
      /\ lookup (u "email") fields = Some email
      /\ truthy email = true.
Proof.
  intros R E d w w' resp Hgen Hst.
  unfold generate_email in Hgen.
  destruct (let* a := py_get (PDict d) (u "url") (PStr []) in py_strip a)
    as [url | e] eqn:Hurl; [| discriminate Hgen].
  destruct (let* a := py_get (PDict d) (u "product_description") (PStr []) in
            py_strip a) as [description | e] eqn:Hdesc; [| discriminate Hgen].
  apply request_text_of_get in Hurl. apply request_text_of_get in Hdesc.
  destruct (detect_url_type url) as [t |] eqn:Hdet;
    [| injection Hgen as <- _; discriminate Hst].
  destruct description as [| c description];
    [injection Hgen as <- _; discriminate Hst |].
  destruct (Z.gtb_spec (len (c :: description)) 200) as [Hlong | Hlen];
    [injection Hgen as <- _; discriminate Hst |].
  destruct (generate_email_try url t (c :: description) w) as [[r | e] w3]
    eqn:Htry; injection Hgen as <- _; [| discriminate Hst].
  destruct (generate_email_try_success _ _ _ _ Htry Hst)
    as [w1 [w2 [path [data [email [fields [Hf [Hv [Hb [Hl Ht]]]]]]]]]].
  exists url, (c :: description), path, t, w1, w2, data, email, fields.
  repeat split; try assumption.
  unfold len. cbn [List.length]. lia.
Qed.

(** The run of the worked example, whose answer is 200. *)
Lemma generate_email_success_validated_witness :
  exists (url description path : str) (t : url_type) (w1 w2 : nat)
         (data email : pyval) (fields : list (str * pyval)),
    request_text
      [(u "url", PStr (u "https://www.linkedin.com/in/jane-doe/"));
       (u "product_description", PStr (u "A scheduling tool"))] (u "url")
    = Some url
    /\ request_text
         [(u "url", PStr (u "https://www.linkedin.com/in/jane-doe/"));
          (u "product_description", PStr (u "A scheduling tool"))]
         (u "product_description")
       = Some description
    /\ @detect_url_type sample_runtime url = Some t
    /\ (1 <= len description <= 200)%Z
    /\ match t with
       | User =>
           @fetch_linkedin_profile
             (sample_env (answers (j "{'email': 'Hi Jane'}"))) url w1
       | Company =>
           @fetch_linkedin_company
             (sample_env (answers (j "{'email': 'Hi Jane'}"))) url w1
       end = ((true, path, data), w2)
    /\ @validate sample_runtime t data = Ret (true, PNone)
    /\ PDict
         [(u "success", PBool true);
          (u "message", PStr (u "Email generated successfully!"));
          (u "profile", PDict [(u "name", PStr (u "Jane Doe"));
                               (u "headline", PStr (u "Engineer"))]);
          (u "email", PStr (u "Hi Jane"));
          (u "url_type", PStr (u "user"))] = PDict fields
    /\ lookup (u "email") fields = Some email
    /\ truthy email = true.
Proof.
  apply (@generate_email_success_validated sample_runtime
           (sample_env (answers (j "{'email': 'Hi Jane'}")))
           [(u "url", PStr (u "https://www.linkedin.com/in/jane-doe/"));
            (u "product_description", PStr (u "A scheduling tool"))]
           0%nat 1%nat
           {| status := 200;
              body := PDict
                [(u "success", PBool true);
                 (u "message", PStr (u "Email generated successfully!"));
                 (u "profile", PDict [(u "name", PStr (u "Jane Doe"));
                                      (u "headline", PStr (u "Engineer"))]);
                 (u "email", PStr (u "Hi Jane"));
                 (u "url_type", PStr (u "user"))] |}).
  - vm_compute. reflexivity.
  - reflexivity.
Defined.

Section ValidationEndpoint.
Context `{Runtime} `{Env}.

(** No answer of the [try] block is the refusal of the URL. *)
Lemma generate_email_try_not_refusal (url : str) (t : url_type)
    (product_description : str) (w w' : world) (resp : http_response) :
  generate_email_try url t product_description w = (Ret resp, w') ->
  resp <> {| status := 400;
             body := failure_body (PStr (u "Invalid LinkedIn URL"))
                                  (u "validation") |}.
Proof.
  unfold generate_email_try, bind, failure_body.
  repeat match goal with
         | |- context [match ?x with _ => _ end] =>
             lazymatch x with
             | context [match _ with _ => _ end] => fail
             | _ => destruct x eqn:?
             end
         end;
    intros Hres; try discriminate Hres;
    injection Hres as <- _; intros Heq; discriminate Heq.
Qed.
End ValidationEndpoint.

Lemma validate_url_text `{Runtime} (d : list (str * pyval)) (url : str) :
  request_text d (u "url") = Some url ->
  validate_url (PDict d) =
  Ret (match detect_url_type url with
       | Some User =>
           PDict [(u "valid", PBool true); (u "type", PStr (u "user"));
                  (u "message", PStr (u "Valid LinkedIn profile URL"))]
       | Some Company =>
           PDict [(u "valid", PBool true); (u "type", PStr (u "company"));
                  (u "message", PStr (u "Valid LinkedIn company URL"))]
       | None =>
           PDict [(u "valid", PBool false); (u "type", PNone);
                  (u "message", PStr msg_invalid_url)]
       end).
Proof.
  unfold validate_url, request_text. cbn [py_get bind].
  destruct (lookup (u "url") d) as [v |].
  - destruct v; try discriminate. intros [= <-]. reflexivity.
  - intros [= <-]. reflexivity.
Qed.

(** X21.  The two endpoints agree on URLs: for a request whose fields are text,
    [validate_url] does not raise, its [valid] flag says whether
    [detect_url_type] knows the trimmed URL, its [type] names the kind, and
    the flag is false exactly when [generate_email] refuses the request
    with [Invalid LinkedIn URL]. *)
Theorem validate_url_agrees_with_generate_email :
  forall (R : Runtime) (E : Env) (d : list (str * pyval)) (w : world)
         (url description : str),
    request_text d (u "url") = Some url ->
    request_text d (u "product_description") = Some description ->
    exists fields,
      validate_url (PDict d) = Ret (PDict fields)
      /\ lookup (u "valid") fields
         = Some (PBool (match detect_url_type url with
                        | Some _ => true
                        | None => false
                        end))
      /\ lookup (u "type") fields
         = Some (match detect_url_type url with
                 | Some t => PStr (url_type_name t)
                 | None => PNone
                 end)
      /\ (lookup (u "valid") fields = Some (PBool false) <->
          generate_email (PDict d) w =
          (Ret {| status := 400;
                  body := failure_body (PStr (u "Invalid LinkedIn URL"))
                                       (u "validation") |}, w)).
Proof.
  intros R E d w url description Hurl Hdesc.
  rewrite (validate_url_text _ Hurl). unfold generate_email.
  rewrite (request_text_get _ _ Hurl), (request_text_get _ _ Hdesc).
  destruct (detect_url_type url) as [t |] eqn:Hdet.
  - exists [(u "valid", PBool true); (u "type", PStr (url_type_name t));
            (u "message", PStr (match t with
                                | User => u "Valid LinkedIn profile URL"
                                | Company => u "Valid LinkedIn company URL"
                                end))].
    split; [destruct t; reflexivity |].
    split; [reflexivity |]. split; [reflexivity |].
    split; [intros Hx; discriminate Hx |].
    destruct description as [| c description];
      [intros Hx; vm_compute in Hx; discriminate Hx |].
    destruct (len (c :: description) >? 200)%Z;
      [intros Hx; vm_compute in Hx; discriminate Hx |].
    destruct (generate_email_try url t (c :: description) w) as [[resp | e] w']
      eqn:Htry.
    + intros Hx. injection Hx as Hresp _.
      exfalso. exact (generate_email_try_not_refusal _ _ _ _ Htry Hresp).
    + intros Hx. vm_compute in Hx. discriminate Hx.
  - eexists. split; [reflexivity |].
    split; [reflexivity |]. split; [reflexivity |].
    split; reflexivity.
Qed.

(** A URL with a path that is not supported: both endpoints refuse it. *)
Lemma validate_url_agrees_with_generate_email_witness :
  exists fields,
    @validate_url sample_runtime
      (PDict [(u "url", PStr (u "https://linkedin.com/jobs/view/1"))])
    = Ret (PDict fields)
    /\ lookup (u "valid") fields
       = Some (PBool (match @detect_url_type sample_runtime
                              (u "https://linkedin.com/jobs/view/1") with
                      | Some _ => true
                      | None => false
                      end))
    /\ lookup (u "type") fields
       = Some (match @detect_url_type sample_runtime
                       (u "https://linkedin.com/jobs/view/1") with
               | Some t => PStr (url_type_name t)
               | None => PNone
               end)
    /\ (lookup (u "valid") fields = Some (PBool false) <->
        @generate_email sample_runtime (sample_env (answers (u "Hi")))
          (PDict [(u "url", PStr (u "https://linkedin.com/jobs/view/1"))])
          0%nat =
        (Ret {| status := 400;
                body := failure_body (PStr (u "Invalid LinkedIn URL"))
                                     (u "validation") |}, 0%nat)).
Proof.
  apply (@validate_url_agrees_with_generate_email sample_runtime
           (sample_env (answers (u "Hi")))
           [(u "url", PStr (u "https://linkedin.com/jobs/view/1"))]
           0%nat (u "https://linkedin.com/jobs/view/1") []);
    reflexivity.
Defined.

(* ================================================================== *)
(** * Properties of the two fetch functions *)
(* ================================================================== *)

Ltac split_innermost :=
  repeat match goal with
         | |- context [match ?x with _ => _ end] =>
             lazymatch x with
             | context [match _ with _ => _ end] => fail
             | _ => destruct x eqn:?
             end
         end.

Section FetchFacts.
Context `{Runtime} `{Apify}.

(** What a [try] block that ends with [save_fetched] returns. *)
Lemma save_fetched_result (default_filename : res str)
    (output_path filename : option str) (data : pyval) (w w' : site)
    (r : fetch_result) :
  Fetch.save_fetched default_filename output_path filename data w
  = (Ret r, w') ->
  exists path, r = (true, Some path, Some data).
Proof.
  unfold Fetch.save_fetched, io_bind, io_ret, io_lift.
  split_innermost; intros Hr; try discriminate Hr;
    injection Hr as <- _; eexists; reflexivity.
Qed.

Lemma fetch_except_returns (output_path filename : option str)
    (run : res fetch_result * site) :
  (forall r w, run = (Ret r, w) ->
     r = fetch_failed \/ exists path data, r = (true, Some path, Some data)) ->
  exists r w,
    Fetch.fetch_except output_path filename run = (Ret r, w)
    /\ (r = fetch_failed
        \/ exists path data, r = (true, Some path, Some data)).
Proof.
  intros Hrun. unfold Fetch.fetch_except.
  destruct run as [[r | e] w].
  - exists r, w. split; [reflexivity |]. now apply (Hrun r w).
  - destruct output_path as [[| c dir] |]; try destruct filename as [[| x f] |];
      eexists; eexists; (split; [reflexivity | now left]).
Qed.
End FetchFacts.

Lemma read_token_raises `{Apify} (w : site) (e : exn) :
  Fetch.read_token w = Raise e ->
  (getenv (u "APIFY_TOKEN") w = None \/ getenv (u "APIFY_TOKEN") w = Some [])
  /\ dotenv w = Raise e.
Proof.
  unfold Fetch.read_token, Settings.read_token.
  destruct (getenv (u "APIFY_TOKEN") w) as [[| c v] |].
  - destruct (dotenv w) as [lines | e']; cbn [bind].
    + intros Hk.
      destruct (read_setting_read (u "APIFY_TOKEN") (Some []) lines)
        as [k [Hr _]].
      exfalso.
      assert (@Raise (option str) e = Ret k) as Hbad
        by (transitivity (read_setting (u "APIFY_TOKEN") (Some []) lines);
            [symmetry; exact Hk | exact Hr]).
      discriminate Hbad.
    + intros [= ->]. split; [now right | reflexivity].
  - discriminate.
  - destruct (dotenv w) as [lines | e']; cbn [bind].
    + intros Hk.
      destruct (read_setting_read (u "APIFY_TOKEN") None lines)
        as [k [Hr _]].
      exfalso.
      assert (@Raise (option str) e = Ret k) as Hbad
        by (transitivity (read_setting (u "APIFY_TOKEN") None lines);
            [symmetry; exact Hk | exact Hr]).
      discriminate Hbad.
    + intros [= ->]. split; [now left | reflexivity].
Qed.

(** X22.  A fetch returns its triple, [(False, None, None)] or
    [(True, path, data)], whatever the scraping service and the writing of
    files do, raising included: the [try] block catches it.  The one
    exception that leaves a fetch is one raised while the [.env] file is
    read for the token, which happens before the [try] block: the URL was
    accepted, the environment holds no token, and the world is as it
    was. *)
Theorem fetch_returns_a_triple :
  forall (R : Runtime) (A : Apify) (t : url_type) (linkedin_url : str)
         (output_path filename : option str) (w : site),
    (exists r w',
       fetch_of t linkedin_url output_path filename w = (Ret r, w')
       /\ (r = fetch_failed
           \/ exists path data, r = (true, Some path, Some data)))
    \/ (exists e,
          fetch_of t linkedin_url output_path filename w = (Raise e, w)
          /\ url_validator t linkedin_url = true
          /\ (getenv (u "APIFY_TOKEN") w = None
              \/ getenv (u "APIFY_TOKEN") w = Some [])
          /\ dotenv w = Raise e).
Proof.
  intros R A t url out fn w.
  destruct t; unfold fetch_of, url_validator, Fetch.fetch_linkedin_profile,
    Fetch.fetch_linkedin_company.
  - destruct (validate_linkedin_profile_url url); cbn [negb];
      [| left; eexists; eexists; split; [reflexivity | now left]].
    destruct (Fetch.read_token w) as [k | e] eqn:Hk.
    + left. destruct k as [[| c token] |];
        try (eexists; eexists; split; [reflexivity | now left]).
      apply fetch_except_returns.
      unfold io_bind, io_ret, io_lift.
      intros r w'. split_innermost; intros Hr; try discriminate Hr;
        try (injection Hr as <- _; now left).
      right. destruct (save_fetched_result _ _ _ _ _ Hr) as [path ->].
      eexists; eexists; reflexivity.
    + right. exists e. split; [reflexivity |]. split; [reflexivity |].
      apply read_token_raises. exact Hk.
  - destruct (validate_linkedin_company_url url); cbn [negb];
      [| left; eexists; eexists; split; [reflexivity | now left]].
    destruct (Fetch.read_token w) as [k | e] eqn:Hk.
    + left. destruct k as [[| c token] |];
        try (eexists; eexists; split; [reflexivity | now left]).
      apply fetch_except_returns.
      unfold io_bind, io_ret, io_lift.
      intros r w'. split_innermost; intros Hr; try discriminate Hr;
        try (injection Hr as <- _; now left).
      right. destruct (save_fetched_result _ _ _ _ _ Hr) as [path ->].
      eexists; eexists; reflexivity.
    + right. exists e. split; [reflexivity |]. split; [reflexivity |].
      apply read_token_raises. exact Hk.
Qed.

(** X23.  A URL the validator of the module does not accept, or a token
    that is missing or empty, ends the fetch at once: the result is
    [(False, None, None)] and the world is as it was, so the scraping
    service is not contacted and no file is written. *)
Theorem fetch_refuses_without_contact :
  forall (R : Runtime) (A : Apify) (t : url_type) (linkedin_url : str)
         (output_path filename : option str) (w : site),
    url_validator t linkedin_url = false \/ token_missing w ->
    fetch_of t linkedin_url output_path filename w = (Ret fetch_failed, w).
Proof.
  intros R A t url out fn w Hbad.
  destruct t; unfold fetch_of, Fetch.fetch_linkedin_profile,
    Fetch.fetch_linkedin_company, url_validator, token_missing in *.
  - destruct (validate_linkedin_profile_url url); cbn [negb]; [| reflexivity].
    destruct Hbad as [Hbad | [-> | ->]]; [discriminate | reflexivity ..].
  - destruct (validate_linkedin_company_url url); cbn [negb]; [| reflexivity].
    destruct Hbad as [Hbad | [-> | ->]]; [discriminate | reflexivity ..].
Qed.

(** A company URL without a scheme, and a person URL without a token. *)
Lemma fetch_refuses_without_contact_witness :
  @fetch_of sample_runtime (stub_apify (Some (u "apify_api_1")) [])
    Company (u "linkedin.com/company/acme") None None 0%nat
  = (Ret fetch_failed, 0%nat)
  /\ @fetch_of sample_runtime (stub_apify None [])
       User (u "https://www.linkedin.com/in/jane-doe/") None None 0%nat
     = (Ret fetch_failed, 0%nat).
Proof.
  split.
  - apply (@fetch_refuses_without_contact sample_runtime
             (stub_apify (Some (u "apify_api_1")) []) Company
             (u "linkedin.com/company/acme") None None 0%nat).
    left. reflexivity.
  - apply (@fetch_refuses_without_contact sample_runtime
             (stub_apify None []) User
             (u "https://www.linkedin.com/in/jane-doe/") None None 0%nat).
    right. left. reflexivity.
Defined.

Section FetchSuccess.
Context `{Runtime} `{Apify}.

(** The default file name of a fetch: a sanitized name and the suffix. *)
Lemma py_sanitize_safe (sanitize : str -> str) (name : pyval) (s : str) :
  (forall x, safe_filename (sanitize x) = true) ->
  Fetch.py_sanitize sanitize name = Ret s -> safe_filename s = true.
Proof.
  intros Hsafe. destruct name; try discriminate.
  intros [= <-]. apply Hsafe.
Qed.

Lemma save_fetched_success (default_filename : res str)
    (output_path filename : option str) (data : pyval) (w w' : site)
    (path : str) (data' : pyval) :
  Fetch.save_fetched default_filename output_path filename data w
  = (Ret (true, Some path, Some data'), w') ->
  data' = data
  /\ exists (name : str) (w1 : site),
       match filename with
       | Some ((_ :: _) as given) => name = given
       | _ => default_filename = Ret name
       end
       /\ match output_path with
          | Some ((_ :: _) as dir) =>
              makedirs dir w = (Ret tt, w1) /\ path = path_join dir name
          | _ => w1 = w /\ path = name
          end
       /\ dump_json path data false w1 = (Ret tt, w').
Proof.
  unfold Fetch.save_fetched, io_bind, io_ret, io_lift.
  split_innermost; intros Hr; try discriminate Hr;
    injection Hr as <- <- <-; (split; [reflexivity |]);
    repeat match goal with u : unit |- _ => destruct u end;
    eexists; eexists; repeat split; try eassumption; reflexivity.
Qed.
End FetchSuccess.

Section FetchMeans.
Context `{Runtime} `{Apify}.

Lemma fetch_except_success (output_path filename : option str)
    (run : res fetch_result * site) (path : option str) (data : option pyval)
    (w' : site) :
  Fetch.fetch_except output_path filename run = (Ret (true, path, data), w') ->
  run = (Ret (true, path, data), w').
Proof.
  unfold Fetch.fetch_except, fetch_failed.
  destruct run as [[r | e] w]; [now intros [= -> ->] |].
  destruct output_path as [[| c dir] |]; try destruct filename as [[| x f] |];
    discriminate.
Qed.

(** The default file names are a safe stem and the suffix of the kind. *)
Lemma default_profile_filename (profile_data : pyval) (linkedin_url name : str) :
  (let* a := py_get profile_data (u "fullName") PNone in
   let* full_name :=
     if truthy a then Ret a
     else py_get profile_data (u "firstName") (PStr []) in
   let full_name :=
     if truthy full_name then full_name
     else PStr (extract_username_from_url linkedin_url) in
   let* safe_name :=
     Fetch.py_sanitize FetchUserProfile.sanitize_filename full_name in
   Ret (safe_name ++ u "_profile.json")) = Ret name ->
  exists stem, name = (stem ++ file_suffix User)%list
               /\ safe_filename stem = true.
Proof.
  unfold bind. cbv zeta.
  split_innermost; intros Hn; try discriminate Hn; injection Hn as <-;
    eexists; (split; [reflexivity |]);
    (eapply py_sanitize_safe; [| eassumption]);
    intros x; apply sanitize_with_safe; reflexivity.
Qed.

Lemma default_company_filename (company_data : pyval) (identifier name : str) :
  (let* nested := py_in (u "basic_info") company_data in
   let* company_name :=
     if nested then
       let* basic_info := py_get company_data (u "basic_info") (PDict []) in
       py_get basic_info (u "name") PNone
     else Ret PNone in
   let company_name :=
     if truthy company_name then company_name else PStr identifier in
   let* safe_name :=
     Fetch.py_sanitize FetchCompanyProfile.sanitize_filename company_name in
   Ret (safe_name ++ u "_company.json")) = Ret name ->
  exists stem, name = (stem ++ file_suffix Company)%list
               /\ safe_filename stem = true.
Proof.
  unfold bind. cbv zeta.
  split_innermost; intros Hn; try discriminate Hn; injection Hn as <-;
    eexists; (split; [reflexivity |]);
    (eapply py_sanitize_safe; [| eassumption]);
    intros x; apply sanitize_with_safe; reflexivity.
Qed.
End FetchMeans.

(** X24.  What a successful fetch has done: the URL passed the validator of
    the module, a token that is not empty was read, the actor of the module
    was called with the input made from the URL (for a company, the
    identifier [extract_company_identifier] takes from it) and named a
    dataset, the data returned is the first item of that dataset, and it
    was written to the path returned: the file name given, or else a
    sanitized name followed by [_profile.json] or [_company.json], inside
    the directory given when there is one. *)
Theorem fetch_success_means :
  forall (R : Runtime) (A : Apify) (t : url_type) (linkedin_url : str)
         (output_path filename : option str) (w w' : site)
         (path : str) (data : pyval),
    fetch_of t linkedin_url output_path filename w
    = (Ret (true, Some path, Some data), w') ->
    url_validator t linkedin_url = true
    /\ exists (token : str) (run dataset_id : pyval) (items : list pyval)
              (w1 w2 w3 : site) (name : str),
         Fetch.read_token w = Ret (Some token)
         /\ token <> []
         /\ actor_call token (actor_of t) (run_input_of t linkedin_url) w
            = (Ret run, w1)
         /\ py_get run (u "defaultDatasetId") PNone = Ret dataset_id
         /\ truthy dataset_id = true
         /\ dataset_items token dataset_id w1 = (Ret (data :: items), w2)
         /\ match filename with
            | Some ((_ :: _) as given) => name = given
            | _ => exists stem, name = (stem ++ file_suffix t)%list
                                /\ safe_filename stem = true
            end
         /\ match output_path with
            | Some ((_ :: _) as dir) =>
                makedirs dir w2 = (Ret tt, w3) /\ path = path_join dir name
            | _ => w3 = w2 /\ path = name
            end
         /\ dump_json path data false w3 = (Ret tt, w').
Proof.
  intros R A t url out fn w w' path data.
  destruct t; unfold fetch_of, url_validator, actor_of, run_input_of,
    Fetch.fetch_linkedin_profile, Fetch.fetch_linkedin_company.
  - destruct (validate_linkedin_profile_url url); cbn [negb];
      [| discriminate].
    destruct (Fetch.read_token w) as [[[| c token] |] | e];
      try discriminate.
    intros Hrun. apply fetch_except_success in Hrun.
    split; [reflexivity |].
    unfold io_bind, io_ret, io_lift in Hrun.
    destruct (actor_call (c :: token) _ _ w) as [[run | e] w1] eqn:Hcall;
      [| discriminate Hrun].
    destruct (py_get run (u "defaultDatasetId") PNone) as [dataset_id | e]
      eqn:Hid; [| discriminate Hrun].
    destruct (truthy dataset_id) eqn:Htr; cbn [negb] in Hrun;
      [| discriminate Hrun].
    destruct (dataset_items (c :: token) dataset_id w1) as [[items | e] w2]
      eqn:Hitems; [| discriminate Hrun].
    destruct items as [| first items]; [discriminate Hrun |].
    apply save_fetched_success in Hrun as [-> [name [w3 [Hname [Hpath Hdump]]]]].
    exists (c :: token), run, dataset_id, items, w1, w2, w3, name.
    repeat split; try assumption; try discriminate.
    destruct fn as [[| x f] |]; try exact Hname;
      apply (default_profile_filename _ _ Hname).
  - destruct (validate_linkedin_company_url url); cbn [negb];
      [| discriminate].
    destruct (Fetch.read_token w) as [[[| c token] |] | e];
      try discriminate.
    intros Hrun. apply fetch_except_success in Hrun.
    split; [reflexivity |].
    cbv zeta in Hrun. unfold io_bind, io_ret, io_lift in Hrun.
    destruct (actor_call (c :: token) _ _ w) as [[run | e] w1] eqn:Hcall;
      [| discriminate Hrun].
    destruct (py_get run (u "defaultDatasetId") PNone) as [dataset_id | e]
      eqn:Hid; [| discriminate Hrun].
    destruct (truthy dataset_id) eqn:Htr; cbn [negb] in Hrun;
      [| discriminate Hrun].
    destruct (dataset_items (c :: token) dataset_id w1) as [[items | e] w2]
      eqn:Hitems; [| discriminate Hrun].
    destruct items as [| first items]; [discriminate Hrun |].
    apply save_fetched_success in Hrun as [-> [name [w3 [Hname [Hpath Hdump]]]]].
    exists (c :: token), run, dataset_id, items, w1, w2, w3, name.
    repeat split; try assumption; try discriminate.
    destruct fn as [[| x f] |]; try exact Hname;
      apply (default_company_filename _ _ Hname).
Qed.

(** A company fetch with the directory and the file name the application
    passes: the identifier [acme] goes to the actor and the record is
    written to [AllFiles/company_data.json]. *)
Lemma fetch_success_means_witness :
  let A := stub_apify (Some (u "apify_api_1"))
             [PDict nested_company_fields] in
  @url_validator sample_runtime Company (u "https://linkedin.com/company/acme")
  = true
  /\ exists (token : str) (run dataset_id : pyval) (items : list pyval)
            (w1 w2 w3 : nat) (name : str),
       @Fetch.read_token A 0%nat = Ret (Some token)
       /\ token <> []
       /\ @actor_call A token (actor_of Company)
            (run_input_of Company (u "https://linkedin.com/company/acme"))
            0%nat = (Ret run, w1)
       /\ py_get run (u "defaultDatasetId") PNone = Ret dataset_id
       /\ truthy dataset_id = true
       /\ @dataset_items A token dataset_id w1
          = (Ret (PDict nested_company_fields :: items), w2)
       /\ name = u "company_data.json"
       /\ (@makedirs A (u "AllFiles") w2 = (Ret tt, w3)
           /\ u "AllFiles/company_data.json"
              = @path_join A (u "AllFiles") name)
       /\ @dump_json A (u "AllFiles/company_data.json")
            (PDict nested_company_fields) false w3 = (Ret tt, 1%nat).
Proof.
  intros A.
  apply (@fetch_success_means sample_runtime A Company
           (u "https://linkedin.com/company/acme")
           (Some (u "AllFiles")) (Some (u "company_data.json"))
           0%nat 1%nat (u "AllFiles/company_data.json")
           (PDict nested_company_fields)).
  vm_compute. reflexivity.
Defined.
